(** * Flight map aggregation and chat session store

    A shallow embedding of the two algorithmic cores of the portfolio site:
    the flight map component (route aggregation, curved paths, viewport
    estimation) and the chat widget (streamed response assembly, storage
    synchronisation between tabs).

    Conventions of the embedding.
    - A JavaScript [number] that holds a coordinate, a distance or an opacity
      is a real number ([R]); IEEE rounding is not modelled.  Counters that
      start at 1 and are only incremented are [nat].
    - [Math.floor] is [Int_part]; [Math.pow x 2] is [x ^ 2].
    - A JavaScript [Map] keeps insertion order and [Array.from(m.values())]
      reads it back in that order, so a [Map] is an association list whose
      [set] replaces in place or appends.
    - An object that a [Map] hands out and the code then mutates is the entry
      stored under the key it was found at; the update is written back there.
    - The airport table is an object literal used as a lookup table from its
      own keys; a lookup of any other code is [undefined] ([None]). *)

From Stdlib Require Import List String Ascii Bool Arith ZArith QArith Lia.
From Stdlib Require Import Reals Lra.
Import ListNotations.

Close Scope Q_scope.

(** ** Insertion-ordered maps with string keys *)

Module StrMap.

Definition t (V : Type) := list (string * V).

Fixpoint get {V : Type} (k : string) (m : t V) : option V :=
  match m with
  | [] => None
  | (k', v) :: rest => if String.eqb k' k then Some v else get k rest
  end.

Fixpoint set {V : Type} (k : string) (v : V) (m : t V) : t V :=
  match m with
  | [] => [(k, v)]
  | (k', v') :: rest =>
      if String.eqb k' k then (k, v) :: rest else (k', v') :: set k v rest
  end.

Definition values {V : Type} (m : t V) : list V := map snd m.

Definition keys {V : Type} (m : t V) : list string := map fst m.

End StrMap.

(** ** The flight map component *)

Module FlightMap.

Local Open Scope string_scope.
Local Open Scope R_scope.

Record FlightData := mkFlight {
  date : string;
  time : string;
  origin : string;
  destination : string;
  flightNumber : string;
  departureDateTime : string;
  arrivalDateTime : string;
  airline : string;
  aircraft : option string;
  class_ : option string;
  seat : option string
}.

(** A coordinate pair [[lat, lng]]. *)
Definition LatLng : Type := (R * R)%type.

Record Route := mkRoute {
  key : string;
  from : string;
  to : string;
  count : nat;
  flights : list FlightData;
  coordinates : list LatLng;
  opacity : R
}.

(** [Omit<Airport, "flightCount" | "displayCode">]: an entry of the table. *)
Record AirportInfo := mkAirportInfo {
  info_code : string;
  info_lat : R;
  info_lng : R;
  info_name : string;
  info_city : string;
  info_country : string
}.

Record Airport := mkAirport {
  code : string;
  displayCode : string;
  lat : R;
  lng : R;
  name : string;
  city : string;
  country : string;
  flightCount : nat
}.

Record ZoomLevels := mkZoomLevels {
  minZoom : nat;
  maxZoom : nat;
  initialZoom : nat
}.

Definition AIRPORT_COORDINATES : list (string * AirportInfo) :=
  [ ("SIN", mkAirportInfo "SIN" 1.3644 103.9915
       "Singapore Changi Airport"
       "Singapore" "Singapore");
    ("CGK", mkAirportInfo "CGK" (-6.1256) 106.6559
       "Soekarno-Hatta International Airport"
       "Jakarta" "Indonesia");
    ("BOS", mkAirportInfo "BOS" 42.3656 (-71.0096)
       "Logan International Airport"
       "Boston" "USA");
    ("SFO", mkAirportInfo "SFO" 37.6213 (-122.379)
       "San Francisco International Airport"
       "San Francisco" "USA");
    ("DXB", mkAirportInfo "DXB" 25.2532 55.3657
       "Dubai International Airport"
       "Dubai" "UAE");
    ("HKG", mkAirportInfo "HKG" 22.308 113.9185
       "Hong Kong International Airport"
       "Hong Kong" "Hong Kong");
    ("IST", mkAirportInfo "IST" 41.2619 28.7411
       "Istanbul Airport"
       "Istanbul" "Turkey");
    ("NCE", mkAirportInfo "NCE" 43.6584 7.2159
       "Nice Côte d'Azur Airport"
       "Nice" "France");
    ("LAX", mkAirportInfo "LAX" 33.9425 (-118.4081)
       "Los Angeles International Airport"
       "Los Angeles" "USA");
    ("BLR", mkAirportInfo "BLR" 12.9491 77.6678
       "Kempegowda International Airport"
       "Bangalore" "India");
    ("MAA", mkAirportInfo "MAA" 12.9941 80.1709
       "Chennai International Airport"
       "Chennai" "India");
    ("KNO", mkAirportInfo "KNO" 3.6422 98.8853
       "Kualanamu International Airport"
       "Medan" "Indonesia");
    ("BKK", mkAirportInfo "BKK" 13.69 100.7501
       "Suvarnabhumi Airport"
       "Bangkok" "Thailand");
    ("PEN", mkAirportInfo "PEN" 5.2971 100.2777
       "Penang International Airport"
       "Penang" "Malaysia");
    ("ICN", mkAirportInfo "ICN" 37.4602 126.4407
       "Incheon International Airport"
       "Seoul" "South Korea");
    ("TPA", mkAirportInfo "TPA" 27.9755 (-82.5332)
       "Tampa International Airport"
       "Tampa" "USA");
    ("ATL", mkAirportInfo "ATL" 33.6407 (-84.4277)
       "Hartsfield-Jackson Atlanta International Airport"
       "Atlanta" "USA");
    ("GRU", mkAirportInfo "GRU" (-23.4356) (-46.4731)
       "São Paulo/Guarulhos International Airport"
       "São Paulo" "Brazil");
    ("FCO", mkAirportInfo "FCO" 41.8003 12.2389
       "Leonardo da Vinci International Airport"
       "Rome" "Italy");
    ("FRA", mkAirportInfo "FRA" 50.0379 8.5622
       "Frankfurt Airport"
       "Frankfurt" "Germany");
    ("MUC", mkAirportInfo "MUC" 48.3537 11.775
       "Munich Airport"
       "Munich" "Germany");
    ("CDG", mkAirportInfo "CDG" 49.0097 2.5479
       "Charles de Gaulle Airport"
       "Paris" "France");
    ("TXL", mkAirportInfo "TXL" 52.5597 13.2877
       "Berlin Tegel Airport"
       "Berlin" "Germany");
    ("MXP", mkAirportInfo "MXP" 45.6306 8.7281
       "Milan Malpensa Airport"
       "Milan" "Italy");
    ("AMS", mkAirportInfo "AMS" 52.3105 4.7683
       "Amsterdam Airport Schiphol"
       "Amsterdam" "Netherlands");
    ("HNL", mkAirportInfo "HNL" 21.3099 (-157.8581)
       "Daniel K. Inouye International Airport"
       "Honolulu" "USA");
    ("NRT", mkAirportInfo "NRT" 35.7647 140.3864
       "Narita International Airport"
       "Tokyo" "Japan");
    ("TOY", mkAirportInfo "TOY" 36.6483 137.1875
       "Toyama Airport"
       "Toyama" "Japan") ].

(** [AIRPORT_COORDINATES[code]]: the entry stored under [code], if any. *)
Definition airportAt (code : string) : option AirportInfo :=
  StrMap.get code AIRPORT_COORDINATES.

(** *** Numbers *)

Definition Rltb (x y : R) : bool := if Rlt_dec x y then true else false.
Definition Rleb (x y : R) : bool := if Rle_dec x y then true else false.
Definition Rgtb (x y : R) : bool := Rltb y x.
Definition Rgeb (x y : R) : bool := Rleb y x.

(** [Math.max(...l)] and [Math.min(...l)].  JavaScript answers -Infinity and
    +Infinity on an empty list; every call below is guarded by a length check
    or adds an element, so the empty case is never read. *)
Definition Math_max (l : list R) : R :=
  match l with
  | [] => 0
  | x :: rest => fold_left Rmax rest x
  end.

Definition Math_min (l : list R) : R :=
  match l with
  | [] => 0
  | x :: rest => fold_left Rmin rest x
  end.

(** *** createCurvedPath

    The locals of the function are definitions of their own, so that the
    statements below can name them; [createCurvedPath] puts them together in
    the order of the source. *)

Definition shouldGoWestward (lng1 lng2 : R) : bool :=
  let eastwardDistance := Rabs (lng2 - lng1) in
  let westwardDistance := 360 - eastwardDistance in
  Rltb westwardDistance eastwardDistance.

Definition adjustedLng2 (lng1 lng2 : R) : R :=
  if shouldGoWestward lng1 lng2 then
    if Rgtb lng2 lng1 then lng2 - 360 else lng2 + 360
  else lng2.

Definition distance (from to : LatLng) : R :=
  let '(lat1, lng1) := from in
  let '(lat2, lng2) := to in
  sqrt ((lat2 - lat1) ^ 2 + (adjustedLng2 lng1 lng2 - lng1) ^ 2).

Definition curveFactor (from to : LatLng) : R :=
  Rmin (distance from to * 0.15) 20.

(** [Math.abs(adjustedLng2 - lng1) > Math.abs(lat2 - lat1)]. *)
Definition isEastWest (from to : LatLng) : bool :=
  let '(lat1, lng1) := from in
  let '(lat2, lng2) := to in
  Rgtb (Rabs (adjustedLng2 lng1 lng2 - lng1)) (Rabs (lat2 - lat1)).

Definition curveOffset (from to : LatLng) : R :=
  let midLat := (fst from + fst to) / 2 in
  if isEastWest from to then
    if Rgtb midLat 0 then curveFactor from to else - curveFactor from to
  else curveFactor from to * 0.3.

Definition controlLat (from to : LatLng) : R :=
  let midLat := (fst from + fst to) / 2 in
  midLat + (if isEastWest from to then curveOffset from to else 0).

Definition controlLng (from to : LatLng) : R :=
  let midLng := (snd from + adjustedLng2 (snd from) (snd to)) / 2 in
  midLng + (if isEastWest from to then 0 else curveOffset from to).

(** [Math.max(3, Math.min(Math.floor(distance / 10), 8))]. *)
Definition segments (from to : LatLng) : nat :=
  Z.to_nat (Z.max 3 (Z.min (Int_part (distance from to / 10)) 8)).

(** The body of the sampling loop at index [i]. *)
Definition curvePoint (from to : LatLng) (i : nat) : LatLng :=
  let '(lat1, lng1) := from in
  let '(lat2, lng2) := to in
  let t := INR i / INR (segments from to) in
  let t2 := t * t in
  let mt := 1 - t in
  let mt2 := mt * mt in
  (mt2 * lat1 + 2 * mt * t * controlLat from to + t2 * lat2,
   mt2 * lng1 + 2 * mt * t * controlLng from to
     + t2 * adjustedLng2 lng1 lng2).

Definition createCurvedPath (from to : LatLng) : list LatLng :=
  let adjustedTo := (fst to, adjustedLng2 (snd from) (snd to)) in
  if Rltb (distance from to) 5 then [from; adjustedTo]
  else
    let points := map (curvePoint from to) (seq 0 (S (segments from to))) in
    if (2 <? List.length points)%nat then points else [from; adjustedTo].

(** *** routes *)

Definition routeKeyOf (a b : string) : string := a ++ "-" ++ b.

(** The text handed to [console.warn] for a skipped flight. *)
Definition skipWarning (flight : FlightData) : string :=
  "Skipping flight with invalid airport codes: " ++ origin flight ++ " -> "
    ++ destination flight ++ " (Flight: " ++ flightNumber flight ++ ")".

(** [existingRoute.count++; existingRoute.flights.push(flight)]. *)
Definition addFlight (existingRoute : Route) (flight : FlightData) : Route :=
  mkRoute (key existingRoute) (from existingRoute) (to existingRoute)
    (S (count existingRoute)) (flights existingRoute ++ [flight])%list
    (coordinates existingRoute) (opacity existingRoute).

(** One turn of [props.flights.forEach] in [routes]: the route map and the
    console warnings so far, after [flight]. *)
Definition routesStep (acc : StrMap.t Route * list string)
    (flight : FlightData) : StrMap.t Route * list string :=
  let '(routeMap, warnings) := acc in
  match airportAt (origin flight), airportAt (destination flight) with
  | Some fromAirport, Some toAirport =>
      let routeKey := routeKeyOf (origin flight) (destination flight) in
      let reverseKey := routeKeyOf (destination flight) (origin flight) in
      match StrMap.get routeKey routeMap with
      | Some existingRoute =>
          (StrMap.set routeKey (addFlight existingRoute flight) routeMap,
           warnings)
      | None =>
          match StrMap.get reverseKey routeMap with
          | Some existingRoute =>
              (StrMap.set reverseKey (addFlight existingRoute flight) routeMap,
               warnings)
          | None =>
              (StrMap.set routeKey
                 (mkRoute routeKey (origin flight) (destination flight) 1
                    [flight]
                    (createCurvedPath
                       (info_lat fromAirport, info_lng fromAirport)
                       (info_lat toAirport, info_lng toAirport))
                    0.4)
                 routeMap,
               warnings)
          end
      end
  | _, _ => (routeMap, (warnings ++ [skipWarning flight])%list)
  end.

Definition routesLoop (flightList : list FlightData)
    : StrMap.t Route * list string :=
  fold_left routesStep flightList ([], []).

(** [Math.max(...routeArray.map(route => route.count), 1)]. *)
Definition maxCountOf (routeArray : list Route) : nat :=
  fold_left Nat.max (map count routeArray ++ [1%nat])%list 0%nat.

Definition withOpacity (maxCount : nat) (route : Route) : Route :=
  mkRoute (key route) (from route) (to route) (count route) (flights route)
    (coordinates route)
    (Rmin (0.3 + (INR (count route) / INR maxCount) * 0.7) 1).

Definition routes (flightList : list FlightData) : list Route :=
  let routeArray := StrMap.values (fst (routesLoop flightList)) in
  let maxCount := maxCountOf routeArray in
  map (withOpacity maxCount) routeArray.

(** What [routes] writes to the console. *)
Definition routesWarnings (flightList : list FlightData) : list string :=
  snd (routesLoop flightList).

(** *** zoomLevels and mapBounds, as functions of [routes.value] *)

Definition zoomLevels (routesValue : list Route) : ZoomLevels :=
  if (List.length routesValue =? 0)%nat then mkZoomLevels 2 18 2
  else
    let allRouteCoordinates := flat_map coordinates routesValue in
    if (List.length allRouteCoordinates =? 0)%nat then mkZoomLevels 2 18 2
    else
      let lats := map fst allRouteCoordinates in
      let lngs := map snd allRouteCoordinates in
      let latSpread := Math_max lats - Math_min lats in
      let lngSpread := Math_max lngs - Math_min lngs in
      let maxSpread := Rmax latSpread lngSpread in
      if Rgtb maxSpread 120 then mkZoomLevels 2 18 2
      else if Rgtb maxSpread 60 then mkZoomLevels 2 18 3
      else if Rgtb maxSpread 30 then mkZoomLevels 3 18 4
      else if Rgtb maxSpread 10 then mkZoomLevels 4 18 5
      else mkZoomLevels 5 18 6.

(** The start and end point a route contributes to [routeEndpoints]. *)
Definition endpointsOf (route : Route) : list LatLng :=
  let coords := coordinates route in
  if (2 <=? List.length coords)%nat then
    [nth 0 coords (0, 0); nth (List.length coords - 1) coords (0, 0)]
  else [].

Definition mapBounds (routesValue : list Route) : option (LatLng * LatLng) :=
  if (List.length routesValue =? 0)%nat then None
  else
    let routeEndpoints := flat_map endpointsOf routesValue in
    if (List.length routeEndpoints =? 0)%nat then None
    else
      let lats := map fst routeEndpoints in
      let lngs := map snd routeEndpoints in
      let normalLngs :=
        filter (fun lng => Rgeb lng (-180) && Rleb lng 180) lngs in
      let wrappedLngs :=
        filter (fun lng => Rltb lng (-180) || Rgtb lng 180) lngs in
      let '(minLng, maxLng) :=
        if (0 <? List.length wrappedLngs)%nat
           && (0 <? List.length normalLngs)%nat
        then
          let minNormal := Math_min normalLngs in
          let maxWrapped := Math_max wrappedLngs in
          (Rmax (minNormal - 10) (-180), Rmin (maxWrapped + 10) 360)
        else (Math_min lngs, Math_max lngs) in
      let latSpread := Math_max lats - Math_min lats in
      let latPadding := Rmax (Rmin (latSpread * 0.15) 8) 2 in
      let lngPadding := Rmax (Rmin ((maxLng - minLng) * 0.05) 5) 2 in
      Some ((Math_min lats - latPadding, minLng - lngPadding),
            (Math_max lats + latPadding, maxLng + lngPadding)).

(** *** airports *)

Definition processAirport (code : string) (airportMap : StrMap.t Airport)
    : StrMap.t Airport :=
  match airportAt code with
  | Some airportData =>
      match StrMap.get code airportMap with
      | Some existing =>
          StrMap.set code
            (mkAirport (FlightMap.code existing) (displayCode existing)
               (lat existing) (lng existing) (name existing) (city existing)
               (country existing) (S (flightCount existing)))
            airportMap
      | None =>
          StrMap.set code
            (mkAirport (info_code airportData) code (info_lat airportData)
               (info_lng airportData) (info_name airportData)
               (info_city airportData) (info_country airportData) 1)
            airportMap
      end
  | None => airportMap
  end.

(** [Set.prototype.add] on an insertion-ordered set of strings. *)
Definition setAdd (x : string) (s : list string) : list string :=
  if existsb (String.eqb x) s then s else (s ++ [x])%list.

(** One turn of the first pass of [airports]. *)
Definition airportsStep (acc : StrMap.t Airport * list string)
    (flight : FlightData) : StrMap.t Airport * list string :=
  let '(airportMap, wrappedAirports) := acc in
  let airportMap :=
    processAirport (destination flight)
      (processAirport (origin flight) airportMap) in
  match airportAt (origin flight), airportAt (destination flight) with
  | Some originData, Some destinationData =>
      if shouldGoWestward (info_lng originData) (info_lng destinationData)
      then (airportMap, setAdd (destination flight) wrappedAirports)
      else (airportMap, wrappedAirports)
  | _, _ => (airportMap, wrappedAirports)
  end.

(** The wrapped copy of an airport, when it falls inside the bounds. *)
Definition wrappedCopy (minLng maxLng : R) (originalAirport : Airport)
    : list Airport :=
  let originalLng := lng originalAirport in
  let wrappedLng :=
    if Rltb originalLng 0 then originalLng + 360 else originalLng - 360 in
  if Rgeb wrappedLng minLng && Rleb wrappedLng maxLng then
    [mkAirport (code originalAirport ++ "-wrapped") (code originalAirport)
       (lat originalAirport) wrappedLng (name originalAirport)
       (city originalAirport) (country originalAirport)
       (flightCount originalAirport)]
  else [].

Definition airports (flightList : list FlightData) : list Airport :=
  let '(airportMap, wrappedAirports) :=
    fold_left airportsStep flightList ([], []) in
  let allAirports := StrMap.values airportMap in
  let bounds := mapBounds (routes flightList) in
  match bounds with
  | Some (southwest, northeast) =>
      let minLng := snd southwest in
      let maxLng := snd northeast in
      let wrappedAirportData :=
        flat_map
          (fun airportCode =>
             match StrMap.get airportCode airportMap with
             | Some originalAirport => wrappedCopy minLng maxLng originalAirport
             | None => []
             end)
          wrappedAirports in
      let filteredOriginalAirports :=
        filter (fun airport =>
                  Rgeb (lng airport) minLng && Rleb (lng airport) maxLng)
          allAirports in
      (filteredOriginalAirports ++ wrappedAirportData)%list
  | None => allAirports
  end.

(** *** Vocabulary of the statements *)

(** [code] is a key of the airport table. *)
Definition known (code : string) : bool :=
  match airportAt code with Some _ => true | None => false end.

(** Both airport codes of [flight] are keys of the table. *)
Definition bothKnown (flight : FlightData) : bool :=
  known (origin flight) && known (destination flight).

(** The unordered pairs {a, b} and {c, d} are the same. *)
Definition samePair (a b c d : string) : bool :=
  (String.eqb a c && String.eqb b d) || (String.eqb a d && String.eqb b c).

(** [flight] goes from [A] to [B] or from [B] to [A]. *)
Definition between (A B : string) (flight : FlightData) : bool :=
  samePair A B (origin flight) (destination flight).

(** [route] joins [A] and [B], in either direction. *)
Definition connects (A B : string) (route : Route) : bool :=
  samePair A B (from route) (to route).

(** How often [code] is the origin or the destination of a flight. *)
Definition endpointUses (code : string) (flightList : list FlightData) : nat :=
  List.length (filter (fun flight => String.eqb (origin flight) code) flightList)
  + List.length
      (filter (fun flight => String.eqb (destination flight) code) flightList).

(** *** Sample data *)

Definition SIN_coord : LatLng := (1.3644, 103.9915).
Definition FRA_coord : LatLng := (50.0379, 8.5622).

Definition CGK_coord : LatLng := (-6.1256, 106.6559).

Definition flightOf (o d num : string) : FlightData :=
  mkFlight "2024-03-01" "09:30:00" o d num "2024-03-01T09:30:00"
    "2024-03-01T11:15:00" "Singapore Airlines" None None None.

Definition demoFlights : list FlightData :=
  [ flightOf "SIN" "CGK" "SQ950"; flightOf "CGK" "SIN" "SQ951";
    flightOf "SIN" "XXX" "SQ000"; flightOf "SIN" "HKG" "SQ890";
    flightOf "SIN" "CGK" "SQ952" ].

Definition strandedFlight : FlightData := flightOf "SIN" "XXX" "SQ000".

Definition withCoordinates (coords : list LatLng) (route : Route) : Route :=
  mkRoute (key route) (from route) (to route) (count route) (flights route)
    coords (opacity route).

Definition viewportFlights : list FlightData := [flightOf "SIN" "CGK" "SQ950"].

(** The single route of [viewportFlights] with its two curve samples removed,
    and with them replaced by one sample far to the north. *)
Definition straightenedRoutes : list Route :=
  map (fun route => withCoordinates (endpointsOf route) route)
    (routes viewportFlights).

Definition bentRoutes : list Route :=
  map (withCoordinates [SIN_coord; (60, 104); CGK_coord]) (routes viewportFlights).

(** *** Changing the samples of a polyline *)

(** [route'] is [route] with its intermediate samples changed or removed:
    at least two coordinates on both sides, the first and the last kept. *)
Definition resampled (route route' : Route) : Prop :=
  key route' = key route /\ from route' = from route /\ to route' = to route
  /\ count route' = count route /\ flights route' = flights route
  /\ opacity route' = opacity route
  /\ (2 <= List.length (coordinates route))%nat
  /\ (2 <= List.length (coordinates route'))%nat
  /\ hd (0, 0) (coordinates route') = hd (0, 0) (coordinates route)
  /\ last (coordinates route') (0, 0) = last (coordinates route) (0, 0).

(** Every coordinate of every polyline lies in the latitude and longitude
    range spanned by the route endpoints. *)
Definition withinEndpointBox (routesValue : list Route) : Prop :=
  let ends := flat_map endpointsOf routesValue in
  Forall (fun c =>
            Math_min (map fst ends) <= fst c <= Math_max (map fst ends)
            /\ Math_min (map snd ends) <= snd c <= Math_max (map snd ends))
    (flat_map coordinates routesValue).

(** The if-chain of [zoomLevels] on the spread. *)
Definition zoomTier (maxSpread : R) : ZoomLevels :=
  if Rgtb maxSpread 120 then mkZoomLevels 2 18 2
  else if Rgtb maxSpread 60 then mkZoomLevels 2 18 3
  else if Rgtb maxSpread 30 then mkZoomLevels 3 18 4
  else if Rgtb maxSpread 10 then mkZoomLevels 4 18 5
  else mkZoomLevels 5 18 6.

Definition spreadOf (coords : list LatLng) : R :=
  Rmax (Math_max (map fst coords) - Math_min (map fst coords))
       (Math_max (map snd coords) - Math_min (map snd coords)).

(** *** Invariants of the two aggregation loops *)

Definition endsOf (e : string * Route) : string * string :=
  (from (snd e), to (snd e)).

Fixpoint distinctEnds (l : list (string * string)) : Prop :=
  match l with
  | [] => True
  | p :: rest =>
      Forall (fun q => samePair (fst p) (snd p) (fst q) (snd q) = false) rest
      /\ distinctEnds rest
  end.

Definition entryOk (fl : list FlightData) (e : string * Route) : Prop :=
  fst e = routeKeyOf (from (snd e)) (to (snd e))
  /\ key (snd e) = fst e
  /\ known (from (snd e)) = true
  /\ known (to (snd e)) = true
  /\ flights (snd e) = filter (between (from (snd e)) (to (snd e))) fl
  /\ count (snd e) = List.length (flights (snd e))
  /\ flights (snd e) <> [].

Record routesInv (fl : list FlightData) (m : StrMap.t Route) : Prop := {
  inv_entries : Forall (entryOk fl) m;
  inv_distinct : distinctEnds (map endsOf m);
  inv_cover : forall f, In f fl -> bothKnown f = true ->
    exists e, In e m /\ connects (origin f) (destination f) (snd e) = true
}.

(** Invariant of the first pass of [airports]. *)
Definition airportOk (codes : list string) (e : string * Airport) : Prop :=
  code (snd e) = fst e
  /\ displayCode (snd e) = fst e
  /\ known (fst e) = true
  /\ flightCount (snd e) = count_occ string_dec codes (fst e).

Record airportsInv (codes : list string) (m : StrMap.t Airport) : Prop := {
  ainv_entries : Forall (airportOk codes) m;
  ainv_keys : NoDup (StrMap.keys m);
  ainv_absent : forall c, known c = true -> StrMap.get c m = None ->
                count_occ string_dec codes c = 0%nat
}.

Definition endpointCodes (fl : list FlightData) : list string :=
  flat_map (fun f => [origin f; destination f]) fl.

(** What every listed airport satisfies. *)
Definition listedOk (fl : list FlightData) (a : Airport) : Prop :=
  known (displayCode a) = true
  /\ flightCount a = endpointUses (displayCode a) fl.

(** *** Further vocabulary and sample data *)

(** The polyline of a stored route is the curve between its two airports. *)
Definition pathOk (e : string * Route) : Prop :=
  exists a b,
    airportAt (from (snd e)) = Some a /\ airportAt (to (snd e)) = Some b
    /\ coordinates (snd e)
       = createCurvedPath (info_lat a, info_lng a) (info_lat b, info_lng b).

(** The flights that a list of routes counts, all together. *)
Definition totalCount (rs : list Route) : nat := list_sum (map count rs).

(** The coordinates and names of a stored airport are those of the table. *)
Definition fromTable (e : string * Airport) : Prop :=
  exists data, airportAt (fst e) = Some data
    /\ lat (snd e) = info_lat data /\ lng (snd e) = info_lng data
    /\ name (snd e) = info_name data /\ city (snd e) = info_city data
    /\ country (snd e) = info_country data.

(** [flight] is drawn across the antimeridian. *)
Definition crossesDateLine (flight : FlightData) : bool :=
  match airportAt (origin flight), airportAt (destination flight) with
  | Some originData, Some destinationData =>
      shouldGoWestward (info_lng originData) (info_lng destinationData)
  | _, _ => false
  end.

(** Invariant of the set of wrapped airport codes in [airports]. *)
Definition wrappedOk (fl : list FlightData) (ws : list string) : Prop :=
  NoDup ws
  /\ forall k, In k ws <->
       exists f, In f fl /\ destination f = k /\ crossesDateLine f = true.

(** Singapore as [airports] lists it for one flight. *)
Definition changiAirport : Airport :=
  mkAirport "SIN" "SIN" 1.3644 103.9915 "Singapore Changi Airport" "Singapore"
    "Singapore" 1.

(** One flight across the Pacific, drawn westward past the date line. *)
Definition pacificFlights : list FlightData := [flightOf "SFO" "NRT" "NH107"].

(** *** statistics *)

Record Statistics := mkStatistics {
  totalFlights : nat;
  uniqueRoutes : nat;
  airportsVisited : nat;
  countriesVisited : nat
}.

(** [new Set(list).size] for strings. *)
Definition setSize (l : list string) : nat :=
  List.length (nodup string_dec l).

Definition statistics (flightList : list FlightData) : Statistics :=
  mkStatistics (List.length flightList) (List.length (routes flightList))
    (List.length (airports flightList))
    (setSize (map country (airports flightList))).

End FlightMap.

(** ** The flight map with straight routes

    The earlier variant of the component in the same file: straight
    polylines, a thickness per route, a size per airport, and zoom and bounds
    taken from the airports. *)

Module FlightMapPlain.

Import FlightMap.

Local Open Scope string_scope.
Local Open Scope R_scope.

Record Route := mkRoute {
  key : string;
  from : string;
  to : string;
  count : nat;
  flights : list FlightData;
  coordinates : list LatLng;
  thickness : nat;
  opacity : R
}.

Record Airport := mkAirport {
  code : string;
  lat : R;
  lng : R;
  name : string;
  city : string;
  country : string;
  flightCount : nat;
  size : R
}.

(** The table of this variant: the entries of the table above, in the same
    order, without the last two (NRT and TOY). *)
Definition AIRPORT_COORDINATES : list (string * AirportInfo) :=
  firstn 26 FlightMap.AIRPORT_COORDINATES.

Definition airportAt (code : string) : option AirportInfo :=
  StrMap.get code AIRPORT_COORDINATES.

(** [existingRoute.count++; existingRoute.flights.push(flight)], then the
    thickness and the opacity are recalculated. *)
Definition addFlight (existingRoute : Route) (flight : FlightData) : Route :=
  let count' := S (count existingRoute) in
  mkRoute (key existingRoute) (from existingRoute) (to existingRoute) count'
    (flights existingRoute ++ [flight])%list (coordinates existingRoute)
    (Nat.min (Nat.max count' 1) 10)
    (Rmin (0.3 + INR count' * 0.1) 0.9).

Definition routesStep (acc : StrMap.t Route * list string)
    (flight : FlightData) : StrMap.t Route * list string :=
  let '(routeMap, warnings) := acc in
  match airportAt (origin flight), airportAt (destination flight) with
  | Some fromAirport, Some toAirport =>
      let routeKey := routeKeyOf (origin flight) (destination flight) in
      let reverseKey := routeKeyOf (destination flight) (origin flight) in
      match StrMap.get routeKey routeMap with
      | Some existingRoute =>
          (StrMap.set routeKey (addFlight existingRoute flight) routeMap,
           warnings)
      | None =>
          match StrMap.get reverseKey routeMap with
          | Some existingRoute =>
              (StrMap.set reverseKey (addFlight existingRoute flight) routeMap,
               warnings)
          | None =>
              (StrMap.set routeKey
                 (mkRoute routeKey (origin flight) (destination flight) 1
                    [flight]
                    [(info_lat fromAirport, info_lng fromAirport);
                     (info_lat toAirport, info_lng toAirport)]
                    1 0.4)
                 routeMap,
               warnings)
          end
      end
  | _, _ => (routeMap, (warnings ++ [skipWarning flight])%list)
  end.

Definition routes (flightList : list FlightData) : list Route :=
  StrMap.values (fst (fold_left routesStep flightList ([], []))).

(** The two [if (AIRPORT_COORDINATES[code])] blocks of [airports]. *)
Definition processAirport (code : string) (airportMap : StrMap.t Airport)
    : StrMap.t Airport :=
  match airportAt code with
  | Some airportData =>
      match StrMap.get code airportMap with
      | Some existing =>
          StrMap.set code
            (mkAirport (FlightMapPlain.code existing) (lat existing)
               (lng existing) (name existing) (city existing)
               (country existing) (S (flightCount existing)) (size existing))
            airportMap
      | None =>
          StrMap.set code
            (mkAirport (info_code airportData) (info_lat airportData)
               (info_lng airportData) (info_name airportData)
               (info_city airportData) (info_country airportData) 1 0)
            airportMap
      end
  | None => airportMap
  end.

Definition airportsStep (airportMap : StrMap.t Airport) (flight : FlightData)
    : StrMap.t Airport :=
  processAirport (destination flight) (processAirport (origin flight) airportMap).

(** [Math.min(Math.max(airport.flightCount * 0.5, 3), 12)]. *)
Definition withSize (airport : Airport) : Airport :=
  mkAirport (code airport) (lat airport) (lng airport) (name airport)
    (city airport) (country airport) (flightCount airport)
    (Rmin (Rmax (INR (flightCount airport) * 0.5) 3) 12).

Definition airports (flightList : list FlightData) : list Airport :=
  map withSize (StrMap.values (fold_left airportsStep flightList [])).

Definition mapBounds (airportsValue : list Airport)
    : option (LatLng * LatLng) :=
  if (List.length airportsValue =? 0)%nat then None
  else
    let lats := map lat airportsValue in
    let lngs := map lng airportsValue in
    let latSpread := Math_max lats - Math_min lats in
    let lngSpread := Math_max lngs - Math_min lngs in
    let padding := Rmax (Rmin (Rmax latSpread lngSpread * 0.2) 10) 2 in
    Some ((Math_min lats - padding, Math_min lngs - padding),
          (Math_max lats + padding, Math_max lngs + padding)).

(** *** Vocabulary *)

Definition known (code : string) : bool :=
  match airportAt code with Some _ => true | None => false end.

Definition bothKnown (flight : FlightData) : bool :=
  known (origin flight) && known (destination flight).

(** What both variants keep of a route. *)
Definition summary (route : Route)
    : string * string * string * nat * list FlightData :=
  (key route, from route, to route, count route, flights route).

Definition curvedSummary (route : FlightMap.Route)
    : string * string * string * nat * list FlightData :=
  (FlightMap.key route, FlightMap.from route, FlightMap.to route,
   FlightMap.count route, FlightMap.flights route).

(** [route] joins [A] and [B], in either direction. *)
Definition connects (A B : string) (route : Route) : bool :=
  samePair A B (from route) (to route).

(** The derived fields of a stored route follow from its count, and its
    polyline joins its two airports. *)
Definition styleOk (e : string * Route) : Prop :=
  (1 <= count (snd e))%nat
  /\ thickness (snd e) = Nat.min (count (snd e)) 10
  /\ opacity (snd e) = Rmin (0.3 + INR (count (snd e)) * 0.1) 0.9
  /\ exists a b,
       airportAt (from (snd e)) = Some a /\ airportAt (to (snd e)) = Some b
       /\ coordinates (snd e)
          = [(info_lat a, info_lng a); (info_lat b, info_lng b)].

(** The two route maps hold the same keys and summaries. *)
Definition relatedBy {V1 V2 : Type} (R : V1 -> V2 -> Prop)
    (m1 : StrMap.t V1) (m2 : StrMap.t V2) : Prop :=
  Forall2 (fun e1 e2 => fst e1 = fst e2 /\ R (snd e1) (snd e2)) m1 m2.

Definition alike : StrMap.t FlightMap.Route -> StrMap.t Route -> Prop :=
  relatedBy (fun r1 r2 => curvedSummary r1 = summary r2).

(** An airport of this variant, before its size is set, and the airport the
    curved variant stores under the same code. *)
Definition sameAirport (a1 : FlightMap.Airport) (a2 : Airport) : Prop :=
  FlightMap.code a1 = code a2 /\ FlightMap.lat a1 = lat a2
  /\ FlightMap.lng a1 = lng a2 /\ FlightMap.name a1 = name a2
  /\ FlightMap.city a1 = city a2 /\ FlightMap.country a1 = country a2
  /\ FlightMap.flightCount a1 = flightCount a2.

End FlightMapPlain.

(** ** The chat widget

    Strings hold UTF-8 text; splitting on the newline byte and testing for
    white space agree with the same operations on JavaScript strings.  The
    platform is a parameter: [JSON.parse], the string JavaScript makes of a
    value that is no string, and [JSON.stringify] on a message list.  The
    clock and the random source are read from an [Oracle]. *)

Module Chat.

Local Open Scope nat_scope.
Local Open Scope string_scope.

Inductive Role := user | assistant | system.

Record ChatMessage := mkMessage {
  role : Role;
  content : string;
  timestamp : option N
}.

Definition Role_eqb (a b : Role) : bool :=
  match a, b with
  | user, user | assistant, assistant | system, system => true
  | _, _ => false
  end.

(** [===] on the optional timestamps of two messages. *)
Definition timestamp_eqb (a b : option N) : bool :=
  match a, b with
  | Some x, Some y => N.eqb x y
  | None, None => true
  | _, _ => false
  end.

Definition WITTY_MESSAGES : list string :=
  [ "Oh my, looks like something is wrong with Advocado 🥑. You can [read about Steve here](/about) or try again later!";
    "Oops! Advocado seems to have taken a little nap 😴. While you wait, why not [learn about Steve](/about)? Or try again in a moment!";
    "Looks like Advocado is having a bad hair day! 🌪️ Try again soon, or [check out Steve's profile](/about)!";
    "Advocado is feeling a bit under the weather today 🤒. Please try again later, or [read about Steve](/about)!";
    "Advocado is currently doing some avocado yoga to recover 🧘‍♂️. [Browse Steve's info](/about) or try again in a bit!";
    "Looks like Advocado spilled its guacamole! 🥑💦 While we clean up, [learn about Steve](/about) or try again later!";
    "Advocado is currently on a quick coffee break ☕. [Read Steve's story](/about) or try again in a moment!";
    "Looks like Advocado is having a moment... 🤔 Try again soon, or [discover more about Steve](/about)!";
    "Advocado is practicing its avocado meditation 🧘‍♀️. Please try again later, or [explore Steve's background](/about)!";
    "Looks like Advocado is doing some emergency guac maintenance! 🛠️ [Check out Steve's profile](/about) or try again in a bit!" ].

(** [Array.prototype.includes] on strings. *)
Definition includes (l : list string) (s : string) : bool :=
  existsb (String.eqb s) l.

(** [WITTY_MESSAGES[Math.floor(Math.random() * WITTY_MESSAGES.length)]]:
    [Math.random()] lies in [0, 1), so the index ranges over the whole table
    and nothing else; [draw] stands for the random source. *)
Definition getRandomWittyMessage (draw : nat) : string :=
  nth (draw mod List.length WITTY_MESSAGES) WITTY_MESSAGES "".

(** *** White space

    [isBlank s] is [!s.trim()]: every character of [s] is a WhiteSpace or a
    LineTerminator code point of ECMAScript, read off its UTF-8 bytes. *)

Definition isAsciiSpace (c : ascii) : bool :=
  let n := nat_of_ascii c in
  (((9 <=? n) && (n <=? 13)) || (n =? 32))%nat.

(** The third byte of U+2000..U+200A, U+2028, U+2029 and U+202F. *)
Definition isGeneralSpaceTail (c : ascii) : bool :=
  let n := nat_of_ascii c in
  (((128 <=? n) && (n <=? 138)) || (n =? 168) || (n =? 169) || (n =? 175))%nat.

Fixpoint isBlank (s : string) : bool :=
  match s with
  | EmptyString => true
  | String c rest =>
      if isAsciiSpace c then isBlank rest
      else
        match nat_of_ascii c, rest with
        | 194, String c1 r =>
            (nat_of_ascii c1 =? 160)%nat && isBlank r
        | 225, String c1 (String c2 r) =>
            (nat_of_ascii c1 =? 154)%nat && (nat_of_ascii c2 =? 128)%nat && isBlank r
        | 226, String c1 (String c2 r) =>
            (((nat_of_ascii c1 =? 128)%nat && isGeneralSpaceTail c2)
             || ((nat_of_ascii c1 =? 129)%nat && (nat_of_ascii c2 =? 159)%nat))
            && isBlank r
        | 227, String c1 (String c2 r) =>
            (nat_of_ascii c1 =? 128)%nat && (nat_of_ascii c2 =? 128)%nat && isBlank r
        | 239, String c1 (String c2 r) =>
            (nat_of_ascii c1 =? 187)%nat && (nat_of_ascii c2 =? 191)%nat && isBlank r
        | _, _ => false
        end
  end.

(** *** Lines *)

Definition newline : ascii := ascii_of_nat 10.

(** [s.split("\n")]. *)
Fixpoint splitLines (s : string) : list string :=
  match s with
  | EmptyString => [EmptyString]
  | String c rest =>
      if Ascii.eqb c newline then EmptyString :: splitLines rest
      else
        match splitLines rest with
        | line :: lines => String c line :: lines
        | [] => [String c EmptyString]
        end
  end.

(** *** JSON values and the accesses the stream reader makes *)

#[warnings="-register-all"]
Inductive json :=
| JNull
| JBool (b : bool)
| JNumber (q : Q)
| JString (s : string)
| JArray (items : list json)
| JObject (fields : StrMap.t json).

(** A JavaScript value read out of a parsed document. *)
Inductive jsval :=
| Undefined
| Val (v : json).

(** A value, or a thrown [TypeError]. *)
Inductive access :=
| Got (v : jsval)
| Throws.

Definition truthy (v : jsval) : bool :=
  match v with
  | Undefined => false
  | Val JNull => false
  | Val (JBool b) => b
  | Val (JNumber q) => negb (Qeq_bool q 0)
  | Val (JString s) => negb (String.eqb s "")
  | Val (JArray _) => true
  | Val (JObject _) => true
  end.

Definition fieldOf (name : string) (fields : StrMap.t json) : jsval :=
  match StrMap.get name fields with
  | Some v => Val v
  | None => Undefined
  end.

(** [x.name] for the names read here ([choices], [delta], [content]), which
    no prototype defines: reading a property of [null] or [undefined]
    throws, an object answers its own field, any other value [undefined]. *)
Definition getProp (x : jsval) (name : string) : access :=
  match x with
  | Undefined => Throws
  | Val JNull => Throws
  | Val (JObject fields) => Got (fieldOf name fields)
  | Val _ => Got Undefined
  end.

(** [x[0]]. *)
Definition getIndex0 (x : jsval) : access :=
  match x with
  | Undefined => Throws
  | Val JNull => Throws
  | Val (JArray items) =>
      Got (match items with v :: _ => Val v | [] => Undefined end)
  | Val (JObject fields) => Got (fieldOf "0" fields)
  | Val (JString s) =>
      Got (match s with
           | EmptyString => Undefined
           | String c _ => Val (JString (String c EmptyString))
           end)
  | Val _ => Got Undefined
  end.

(** [x?.name]. *)
Definition optProp (x : jsval) (name : string) : jsval :=
  match getProp x name with
  | Got v => v
  | Throws => Undefined
  end.

(** [parsed.choices[0]?.delta?.content], the value the reader tests and
    appends. *)
Definition deltaContent (parsed : json) : access :=
  match getProp (Val parsed) "choices" with
  | Throws => Throws
  | Got choices =>
      match getIndex0 choices with
      | Throws => Throws
      | Got first => Got (optProp (optProp first "delta") "content")
      end
  end.

(** *** Component state *)

Inductive Feedback := good | bad.

Record ChatState := mkChatState {
  messages : list ChatMessage;
  loading : bool;
  isClient : bool;
  isEndingChat : bool;
  showFeedbackModal : bool;
  feedback : option Feedback;
  threadId : option string;
  isChatOpen : bool;
  userInput : string;
  isCompactMode : bool;
  hasStartedChat : bool;
  localStorage : StrMap.t string
}.

Definition setMessages (v : list ChatMessage) (s : ChatState) : ChatState :=
  mkChatState v (loading s) (isClient s) (isEndingChat s)
    (showFeedbackModal s) (feedback s) (threadId s) (isChatOpen s)
    (userInput s) (isCompactMode s) (hasStartedChat s) (localStorage s).

Definition setLoading (v : bool) (s : ChatState) : ChatState :=
  mkChatState (messages s) v (isClient s) (isEndingChat s)
    (showFeedbackModal s) (feedback s) (threadId s) (isChatOpen s)
    (userInput s) (isCompactMode s) (hasStartedChat s) (localStorage s).

Definition setIsEndingChat (v : bool) (s : ChatState) : ChatState :=
  mkChatState (messages s) (loading s) (isClient s) v
    (showFeedbackModal s) (feedback s) (threadId s) (isChatOpen s)
    (userInput s) (isCompactMode s) (hasStartedChat s) (localStorage s).

Definition setShowFeedbackModal (v : bool) (s : ChatState) : ChatState :=
  mkChatState (messages s) (loading s) (isClient s) (isEndingChat s)
    v (feedback s) (threadId s) (isChatOpen s)
    (userInput s) (isCompactMode s) (hasStartedChat s) (localStorage s).

Definition setFeedback (v : option Feedback) (s : ChatState) : ChatState :=
  mkChatState (messages s) (loading s) (isClient s) (isEndingChat s)
    (showFeedbackModal s) v (threadId s) (isChatOpen s)
    (userInput s) (isCompactMode s) (hasStartedChat s) (localStorage s).

Definition setThreadId (v : option string) (s : ChatState) : ChatState :=
  mkChatState (messages s) (loading s) (isClient s) (isEndingChat s)
    (showFeedbackModal s) (feedback s) v (isChatOpen s)
    (userInput s) (isCompactMode s) (hasStartedChat s) (localStorage s).

Definition setIsChatOpen (v : bool) (s : ChatState) : ChatState :=
  mkChatState (messages s) (loading s) (isClient s) (isEndingChat s)
    (showFeedbackModal s) (feedback s) (threadId s) v
    (userInput s) (isCompactMode s) (hasStartedChat s) (localStorage s).

Definition setUserInput (v : string) (s : ChatState) : ChatState :=
  mkChatState (messages s) (loading s) (isClient s) (isEndingChat s)
    (showFeedbackModal s) (feedback s) (threadId s) (isChatOpen s)
    v (isCompactMode s) (hasStartedChat s) (localStorage s).

Definition setIsCompactMode (v : bool) (s : ChatState) : ChatState :=
  mkChatState (messages s) (loading s) (isClient s) (isEndingChat s)
    (showFeedbackModal s) (feedback s) (threadId s) (isChatOpen s)
    (userInput s) v (hasStartedChat s) (localStorage s).

Definition setHasStartedChat (v : bool) (s : ChatState) : ChatState :=
  mkChatState (messages s) (loading s) (isClient s) (isEndingChat s)
    (showFeedbackModal s) (feedback s) (threadId s) (isChatOpen s)
    (userInput s) (isCompactMode s) v (localStorage s).

Definition setLocalStorage (v : StrMap.t string) (s : ChatState) : ChatState :=
  mkChatState (messages s) (loading s) (isClient s) (isEndingChat s)
    (showFeedbackModal s) (feedback s) (threadId s) (isChatOpen s)
    (userInput s) (isCompactMode s) (hasStartedChat s) v.

(** [localStorage.setItem] and [localStorage.removeItem]. *)
Definition setItem (k v : string) (s : ChatState) : ChatState :=
  setLocalStorage (StrMap.set k v (localStorage s)) s.

Definition removeItem (k : string) (s : ChatState) : ChatState :=
  setLocalStorage
    (filter (fun e => negb (String.eqb (fst e) k)) (localStorage s)) s.

Definition getItem (k : string) (s : ChatState) : option string :=
  StrMap.get k (localStorage s).

(** *** Transport and oracles *)

(** How a response body ends: [reader.read()] answers [done], or rejects. *)
Inductive StreamEnd := StreamDone | StreamError.

(** The body as the reader sees it: the decoded text of each read, in
    order, and how the stream ends after them. *)
Record ResponseBody := mkBody {
  chunks : list string;
  ending : StreamEnd
}.

(** What [fetch] does: it rejects, or resolves to a response. *)
Inductive FetchResult :=
| FetchRejected
| FetchResponse (ok : bool) (status : nat) (threadIdHeader : option string)
    (body : option ResponseBody).

(** The values [Date.now()] and [Math.random()] take during one call. *)
Record Oracle := mkOracle {
  nowUser : N;
  nowAssistant : N;
  nowFallback : N;
  randomDraw : nat
}.

(** The locals of [sendMessage] that the read loop and the [catch] share,
    with the component state. *)
Record Sending := mkSending {
  state : ChatState;
  buffer : string;
  currentAssistantContent : string;
  assistantMessageAdded : bool
}.

(** [messages.value[messages.value.length - 1].content = text]. *)
Fixpoint setLastContent (text : string) (l : list ChatMessage)
    : list ChatMessage :=
  match l with
  | [] => []
  | [m] => [mkMessage (role m) text (timestamp m)]
  | m :: rest => m :: setLastContent text rest
  end.

(** What [JSON.parse(event.newValue)] followed by [Array.isArray] finds in a
    value of the [chatMessages] key: the parse throws, the value is no
    array, or it is an array of messages. *)
Inductive StoredParse :=
| ParseThrows
| NotAnArray
| MessageArray (l : list ChatMessage).

(** A storage event: the key that changed and its new value. *)
Record StorageEvent := mkStorageEvent {
  eventKey : option string;
  newValue : option string
}.

Section Platform.

(** [JSON.parse] on one line of the stream; [None] is a thrown SyntaxError. *)
Variable JSON_parse : string -> option json.

(** The string that [+=] makes of a value that is no string. *)
Variable coerceToString : json -> string.

(** [JSON.stringify] on the message list that is persisted. *)
Variable JSON_stringify : list ChatMessage -> string.

(** [JSON.parse] and [Array.isArray] on a stored message list. *)
Variable parseStored : string -> StoredParse.

Definition toText (v : jsval) : string :=
  match v with
  | Val (JString s) => s
  | Val other => coerceToString other
  | Undefined => "undefined"
  end.

(** **** Storage functions *)

Definition isWittyMessage (s : ChatState) (msg : ChatMessage) (index : nat)
    : bool :=
  if Role_eqb (role msg) assistant && includes WITTY_MESSAGES (content msg)
  then true
  else if Role_eqb (role msg) user
          && (index <? List.length (messages s) - 1)%nat
  then
    match nth_error (messages s) (index + 1) with
    | Some nextMessage =>
        Role_eqb (role nextMessage) assistant
        && includes WITTY_MESSAGES (content nextMessage)
    | None => false
    end
  else false.

(** [l.filter((x, index) => keep(x, index))], counting from [start]. *)
Fixpoint filterIndexed {A : Type} (keep : A -> nat -> bool) (start : nat)
    (l : list A) : list A :=
  match l with
  | [] => []
  | x :: rest =>
      if keep x start then x :: filterIndexed keep (S start) rest
      else filterIndexed keep (S start) rest
  end.

Definition messagesToSave (s : ChatState) : list ChatMessage :=
  filterIndexed (fun msg index => negb (isWittyMessage s msg index)) 0
    (messages s).

Definition saveMessagesToStorage (s : ChatState) : ChatState :=
  if negb (isClient s) then s
  else setItem "chatMessages" (JSON_stringify (messagesToSave s)) s.

(** **** handleStorageChange *)

(** [newMessages.some(msg => msg.role === "user" && !messages.value.some(...))]. *)
Definition hasNewUserMessages (known newMessages : list ChatMessage) : bool :=
  existsb
    (fun msg =>
       Role_eqb (role msg) user
       && negb
            (existsb
               (fun existingMsg =>
                  Role_eqb (role existingMsg) (role msg)
                  && String.eqb (content existingMsg) (content msg)
                  && timestamp_eqb (timestamp existingMsg) (timestamp msg))
               known))
    newMessages.

(** [event.newValue || fallback]. *)
Definition valueOr (v : option string) (fallback : string) : string :=
  match v with
  | Some s => if String.eqb s "" then fallback else s
  | None => fallback
  end.

(** [event.newValue === "true"]. *)
Definition isTrueText (v : option string) : bool :=
  match v with
  | Some s => String.eqb s "true"
  | None => false
  end.

(** [!event.newValue]. *)
Definition isFalsyText (v : option string) : bool :=
  match v with
  | Some s => String.eqb s ""
  | None => true
  end.

Definition keyIs (event : StorageEvent) (k : string) : bool :=
  match eventKey event with
  | Some k' => String.eqb k' k
  | None => false
  end.

Definition handleStorageChange (event : StorageEvent) (s : ChatState)
    : ChatState :=
  if negb (isClient s) then s
  else if keyIs event "miniChatOpen" then
    setIsChatOpen (isTrueText (newValue event)) s
  else if keyIs event "chatMessages" then
    match parseStored (valueOr (newValue event) "[]") with
    | MessageArray newMessages =>
        let s :=
          if hasNewUserMessages (messages s) newMessages then
            setItem "miniChatOpen" "true" (setIsChatOpen true s)
          else s in
        let s := setMessages newMessages s in
        if (0 <? List.length newMessages)%nat then
          setHasStartedChat true (setIsCompactMode false s)
        else
          setHasStartedChat false (setIsCompactMode true s)
    | NotAnArray => s
    | ParseThrows =>
        setHasStartedChat false (setIsCompactMode true (setMessages [] s))
    end
  else if keyIs event "hadChatInteraction" then
    if isTrueText (newValue event) then
      setItem "miniChatOpen" "true" (setIsChatOpen true s)
    else s
  else if keyIs event "chatEnding" then
    if isTrueText (newValue event) && showFeedbackModal s then
      setFeedback None (setShowFeedbackModal false s)
    else s
  else if keyIs event "threadId" then
    let s := setThreadId (newValue event) s in
    if isFalsyText (newValue event) then
      removeItem "chatEnding"
        (setHasStartedChat false (setIsCompactMode true (setMessages [] s)))
    else s
  else s.

(** **** sendMessage *)

(** The body of [for (const line of lines)]. *)
Definition processLine (now : N) (acc : Sending) (line : string) : Sending :=
  if isBlank line then acc
  else
    match JSON_parse line with
    | None => acc
    | Some parsed =>
        match deltaContent parsed with
        | Throws => acc
        | Got value =>
            if truthy value then
              let pushed :=
                if assistantMessageAdded acc then messages (state acc)
                else (messages (state acc)
                        ++ [mkMessage assistant "" (Some now)])%list in
              let text := currentAssistantContent acc ++ toText value in
              mkSending
                (setMessages (setLastContent text pushed) (state acc))
                (buffer acc) text true
            else acc
        end
    end.

(** One turn of the read loop on the text of one read. *)
Definition readChunk (now : N) (acc : Sending) (chunk : string) : Sending :=
  let lines := splitLines (buffer acc ++ chunk) in
  let rest := last lines "" in
  let acc :=
    mkSending (state acc) rest (currentAssistantContent acc)
      (assistantMessageAdded acc) in
  fold_left (processLine now) (removelast lines) acc.

Definition readAll (now : N) (acc : Sending) (texts : list string) : Sending :=
  fold_left (readChunk now) texts acc.

(** The [catch] block. *)
Definition onSendError (oracle : Oracle) (acc : Sending) : ChatState :=
  let s := state acc in
  if negb (assistantMessageAdded acc) then
    setMessages
      (messages s
         ++ [mkMessage assistant (getRandomWittyMessage (randomDraw oracle))
               (Some (nowFallback oracle))])%list
      s
  else if isBlank (currentAssistantContent acc) then
    setMessages
      (setLastContent (getRandomWittyMessage (randomDraw oracle)) (messages s))
      s
  else s.

(** [expandToFullMode]. *)
Definition expandToFullMode (s : ChatState) : ChatState :=
  setHasStartedChat true (setIsCompactMode false s).

(** The [try] block, then the [catch] block when it throws. *)
Definition exchange (oracle : Oracle) (response : FetchResult) (s : ChatState)
    : ChatState :=
  let start := mkSending s "" "" false in
  match response with
  | FetchRejected => onSendError oracle start
  | FetchResponse ok status threadIdHeader body =>
      if negb ok then onSendError oracle start
      else
        match body with
        | None => onSendError oracle start
        | Some stream =>
            let s :=
              match threadIdHeader with
              | Some header =>
                  if negb (String.eqb header "") && isClient s then
                    setThreadId (Some header) (setItem "threadId" header s)
                  else s
              | None => s
              end in
            let acc :=
              readAll (nowAssistant oracle) (mkSending s "" "" false)
                (chunks stream) in
            match ending stream with
            | StreamDone => state acc
            | StreamError => onSendError oracle acc
            end
        end
  end.

Definition sendMessage (oracle : Oracle) (response : FetchResult)
    (s : ChatState) : ChatState :=
  if isBlank (userInput s) then s
  else
    let isFirstMessage := (List.length (messages s) =? 0)%nat in
    let userMessage :=
      mkMessage user (userInput s) (Some (nowUser oracle)) in
    let s := setMessages (messages s ++ [userMessage])%list s in
    let s := if isFirstMessage then expandToFullMode s else s in
    let s := if isClient s then setItem "hadChatInteraction" "true" s else s in
    let s := setLoading true s in
    let s := setUserInput "" s in
    setLoading false (exchange oracle response s).

(** **** The stream as the specification words it

    The complete lines of the stream are the newline-terminated ones; each
    carries at most one delta; the assembled text is their concatenation. *)

Definition completeLines (text : string) : list string :=
  removelast (splitLines text).

Definition lineDelta (line : string) : option string :=
  if isBlank line then None
  else
    match JSON_parse line with
    | None => None
    | Some parsed =>
        match deltaContent parsed with
        | Throws => None
        | Got value => if truthy value then Some (toText value) else None
        end
    end.

(** The deltas of a list of lines, in order. *)
Definition deltasOf (lines : list string) : list string :=
  flat_map
    (fun line => match lineDelta line with Some d => [d] | None => [] end)
    lines.

Definition streamDeltas (text : string) : list string :=
  deltasOf (completeLines text).

Definition assembledText (text : string) : string :=
  String.concat "" (streamDeltas text).

(** What the transport delivered before it failed or finished. *)
Definition receivedText (response : FetchResult) : string :=
  match response with
  | FetchResponse true _ _ (Some stream) =>
      assembledText (String.concat "" (chunks stream))
  | _ => ""
  end.

(** The request does not complete: [fetch] rejects, the status is not OK,
    the body is missing, or a read rejects. *)
Definition transportFails (response : FetchResult) : bool :=
  match response with
  | FetchRejected => true
  | FetchResponse ok _ _ body =>
      negb ok
      || match body with
         | None => true
         | Some stream =>
             match ending stream with
             | StreamError => true
             | StreamDone => false
             end
         end
  end.

End Platform.

(** *** Vocabulary of the statements and the proofs *)

(** [acc] with another buffer. *)
Definition withBuffer (b : string) (acc : Sending) : Sending :=
  mkSending (state acc) b (currentAssistantContent acc)
    (assistantMessageAdded acc).

(** What the reader does with one delta. *)
Definition pushDelta (now : N) (acc : Sending) (d : string) : Sending :=
  let pushed :=
    if assistantMessageAdded acc then messages (state acc)
    else (messages (state acc) ++ [mkMessage assistant "" (Some now)])%list in
  let text := currentAssistantContent acc ++ d in
  mkSending (setMessages (setLastContent text pushed) (state acc))
    (buffer acc) text true.

(** The state of the loop once an assistant message holds [text]. *)
Definition streaming (now : N) (s : ChatState) (b text : string) : Sending :=
  mkSending
    (setMessages (messages s ++ [mkMessage assistant text (Some now)])%list s)
    b text true.

(** The fallback reply, stamped [time]. *)
Definition fallbackReply (oracle : Oracle) (time : N) : ChatMessage :=
  mkMessage assistant (getRandomWittyMessage (randomDraw oracle)) (Some time).

(** An assistant message whose text is one of the fallback messages. *)
Definition isFallback (m : ChatMessage) : bool :=
  Role_eqb (role m) assistant && includes WITTY_MESSAGES (content m).

(** The persisted list as the specification words it: a fallback message is
    dropped, and so is a user message that a fallback message follows. *)
Fixpoint persistable (l : list ChatMessage) : list ChatMessage :=
  match l with
  | [] => []
  | m :: rest =>
      if isFallback m then persistable rest
      else if Role_eqb (role m) user
              && match rest with
                 | next :: _ => isFallback next
                 | [] => false
                 end
      then persistable rest
      else m :: persistable rest
  end.

(** *** A sample exchange *)

(** The double quote, which a string literal here cannot hold. *)
Definition dq : string := String (ascii_of_nat 34) EmptyString.

Definition nl : string := String newline EmptyString.

(** The line the server sends for the delta [text]. *)
Definition deltaLine (text : string) : string :=
  "{" ++ dq ++ "choices" ++ dq ++ ":[{" ++ dq ++ "delta" ++ dq ++ ":{" ++ dq
    ++ "content" ++ dq ++ ":" ++ dq ++ text ++ dq ++ "}}]}".

(** What [JSON.parse] makes of [deltaLine text]. *)
Definition deltaDoc (text : string) : json :=
  JObject
    [("choices",
      JArray [JObject [("delta", JObject [("content", JString text)])]])].

(** [JSON.parse] on the lines of the sample stream; any other line of the
    sample is no JSON. *)
Definition sampleParse (line : string) : option json :=
  if String.eqb line (deltaLine "Hel") then Some (deltaDoc "Hel")
  else if String.eqb line (deltaLine "lo") then Some (deltaDoc "lo")
  else if String.eqb line (deltaLine " ") then Some (deltaDoc " ")
  else None.

Definition sampleCoerce (v : json) : string := "".

Definition sampleOracle : Oracle := mkOracle 1000 1200 1500 13.

Definition sampleState : ChatState :=
  mkChatState [] false true false false None None false "Hi there" true false [].

(** Two deltas, the first line cut in two by the transport, then the start
    of a third line that never ends. *)
Definition sampleChunks : list string :=
  [ "{" ++ dq ++ "choices" ++ dq ++ ":[{" ++ dq ++ "del";
    "ta" ++ dq ++ ":{" ++ dq ++ "content" ++ dq ++ ":" ++ dq ++ "Hel" ++ dq
      ++ "}}]}" ++ nl ++ deltaLine "lo";
    nl ++ "{" ++ dq ++ "choi" ].

Definition sampleStoredText : string :=
  "[{" ++ dq ++ "role" ++ dq ++ ":" ++ dq ++ "user" ++ dq ++ "," ++ dq
    ++ "content" ++ dq ++ ":" ++ dq ++ "Hi there" ++ dq ++ "," ++ dq
    ++ "timestamp" ++ dq ++ ":1000}]".

(** [JSON.parse] on the stored values of the sample. *)
Definition sampleParseStored (text : string) : StoredParse :=
  if String.eqb text sampleStoredText then
    MessageArray [mkMessage user "Hi there" (Some 1000%N)]
  else if String.eqb text "[]" then MessageArray []
  else if String.eqb text "{}" then NotAnArray
  else ParseThrows.

Definition sampleEvent : StorageEvent :=
  mkStorageEvent (Some "chatMessages") (Some sampleStoredText).

Definition sampleReceiver : ChatState :=
  mkChatState [] false true false false None None false "" true false [].

(** *** Ending a chat *)

(** What the request to [/thread/resolve] does: [fetch] rejects, or resolves
    to a response that is OK or not. *)
Inductive ResolveResult := ResolveRejected | ResolveResponse (ok : bool).

Definition endChat (s : ChatState) : ChatState :=
  if isEndingChat s || showFeedbackModal s || isFalsyText (threadId s) then s
  else
    let s := setFeedback None (setShowFeedbackModal true s) in
    if isClient s then setItem "chatEnding" "true" s else s.

(** The notice [submitFeedback] pushes when the request fails. *)
Definition endChatFailure (now : N) : ChatMessage :=
  mkMessage assistant "Failed to end chat session. Please try again." (Some now).

Definition submitFeedback (now : N) (result : ResolveResult) (s : ChatState)
    : ChatState :=
  if match feedback s with None => true | Some _ => false end
     || isEndingChat s || isFalsyText (threadId s)
  then s
  else
    let s := setIsEndingChat true s in
    let s :=
      match result with
      | ResolveResponse true =>
          setHasStartedChat false
            (setIsCompactMode true
               (setMessages []
                  (setThreadId None
                     (removeItem "chatMessages" (removeItem "threadId" s)))))
      | _ => setMessages (messages s ++ [endChatFailure now])%list s
      end in
    setFeedback None (setShowFeedbackModal false (setIsEndingChat false s)).

(** [b.toString()]. *)
Definition boolText (b : bool) : string := if b then "true" else "false".

Definition toggleChat (s : ChatState) : ChatState :=
  let s := setIsChatOpen (negb (isChatOpen s)) s in
  if isClient s then setItem "miniChatOpen" (boolText (isChatOpen s)) s else s.

(** The refs that neither [sendMessage] nor a storage event touches. *)
Definition sameSession (s s' : ChatState) : Prop :=
  isClient s' = isClient s /\ isEndingChat s' = isEndingChat s
  /\ showFeedbackModal s' = showFeedbackModal s /\ feedback s' = feedback s
  /\ isChatOpen s' = isChatOpen s.

(** The state in which [exchange] starts to read: [s], with the thread id of
    the response header recorded when there is one. *)
Definition withThread (response : FetchResult) (s : ChatState) : ChatState :=
  match response with
  | FetchResponse true _ (Some header) (Some _) =>
      if negb (String.eqb header "") && isClient s then
        setThreadId (Some header) (setItem "threadId" header s)
      else s
  | _ => s
  end.

Section Replies.

Variable JSON_parse : string -> option json.
Variable coerceToString : json -> string.

(** The assistant messages an exchange leaves behind: none, the text
    received, or a fallback reply. *)
Definition replyOf (oracle : Oracle) (response : FetchResult)
    : list ChatMessage :=
  match response with
  | FetchResponse true _ _ (Some stream) =>
      let whole := String.concat "" (chunks stream) in
      let text := assembledText JSON_parse coerceToString whole in
      match streamDeltas JSON_parse coerceToString whole, ending stream with
      | [], StreamDone => []
      | [], StreamError => [fallbackReply oracle (nowFallback oracle)]
      | _ :: _, StreamDone =>
          [mkMessage assistant text (Some (nowAssistant oracle))]
      | _ :: _, StreamError =>
          [if isBlank text then fallbackReply oracle (nowAssistant oracle)
           else mkMessage assistant text (Some (nowAssistant oracle))]
      end
  | _ => [fallbackReply oracle (nowFallback oracle)]
  end.

(** [sendMessage] of the mini chat: the same exchange, without compact
    mode, and with the input cleared at the end. *)
Definition sendMessageMini (oracle : Oracle) (response : FetchResult)
    (s : ChatState) : ChatState :=
  if isBlank (userInput s) then s
  else
    let userMessage :=
      mkMessage user (userInput s) (Some (nowUser oracle)) in
    let s := setMessages (messages s ++ [userMessage])%list s in
    let s := if isClient s then setItem "hadChatInteraction" "true" s else s in
    let s := setLoading true s in
    setUserInput ""
      (setLoading false (exchange JSON_parse coerceToString oracle response s)).

End Replies.

(** *** The mini chat's filter of what is persisted *)

(** [s.split(" ")[0]]. *)
Fixpoint firstWord (s : string) : string :=
  match s with
  | EmptyString => EmptyString
  | String c rest =>
      if Ascii.eqb c " " then EmptyString else String c (firstWord rest)
  end.

(** [s.includes(sub)]. *)
Fixpoint includesText (s sub : string) : bool :=
  String.prefix sub s
  || match s with
     | EmptyString => false
     | String _ rest => includesText rest sub
     end.

(** An assistant message that holds the first word of a fallback message. *)
Definition isWittyMini (msg : ChatMessage) : bool :=
  Role_eqb (role msg) assistant
  && existsb (fun wittyMsg => includesText (content msg) (firstWord wittyMsg))
       WITTY_MESSAGES.

(** The callback of [messages.value.filter] in the mini chat. *)
Definition keepMini (s : ChatState) (msg : ChatMessage) (index : nat) : bool :=
  if isWittyMini msg then false
  else if Role_eqb (role msg) user
          && (index <? List.length (messages s) - 1)%nat
  then
    match nth_error (messages s) (index + 1) with
    | Some nextMessage => negb (isWittyMini nextMessage)
    | None => true
    end
  else true.

(** The list that [saveMessagesToStorage] of the mini chat hands to
    [JSON.stringify]. *)
Definition messagesToSaveMini (s : ChatState) : list ChatMessage :=
  filterIndexed (keepMini s) 0 (messages s).

(** The storage event another tab receives when [s] has written [k]. *)
Definition eventFor (k : string) (s : ChatState) : StorageEvent :=
  mkStorageEvent (Some k) (getItem k s).

(** *** Further sample data *)

(** A tab with one saved exchange and an open feedback dialog. *)
Definition sampleEnding : ChatState :=
  mkChatState [mkMessage user "Hi there" (Some 1000%N)] false true false true
    (Some good) (Some "thread-1") true "" false true
    [("threadId", "thread-1"); ("chatEnding", "true")].

(** [JSON.stringify] on the message lists of the sample. *)
Definition sampleStringify (l : list ChatMessage) : string :=
  match l with
  | [] => "[]"
  | _ :: _ => sampleStoredText
  end.

Definition sampleSender : ChatState :=
  mkChatState [mkMessage user "Hi there" (Some 1000%N)] false true false false
    None None true "" false true [].

End Chat.

(** * Facts about insertion-ordered maps *)

Module StrMapFacts.

(** StrMap facts *)
Section Generic.
Context {V : Type}.
Implicit Types (m : StrMap.t V) (k : string) (v : V).

Lemma get_app_None k m1 m2 :
  StrMap.get k m1 = None -> StrMap.get k (m1 ++ m2) = StrMap.get k m2.
Proof.
  induction m1 as [|[k' v'] m1 IH]; simpl; [reflexivity|].
  destruct (String.eqb k' k); [discriminate | exact IH].
Qed.

Lemma get_Some_split k v m :
  StrMap.get k m = Some v ->
  exists m1 m2, m = m1 ++ (k, v) :: m2 /\ StrMap.get k m1 = None.
Proof.
  induction m as [|[k' v'] m IH]; simpl; [discriminate|].
  destruct (String.eqb_spec k' k) as [->|Hne].
  - intros [= ->]. exists [], m. split; reflexivity.
  - intros H. destruct (IH H) as (m1 & m2 & -> & Hn).
    exists ((k', v') :: m1), m2. split; [reflexivity|].
    simpl. destruct (String.eqb_spec k' k); [contradiction | exact Hn].
Qed.

Lemma set_fresh k v m :
  StrMap.get k m = None -> StrMap.set k v m = m ++ [(k, v)].
Proof.
  induction m as [|[k' v'] m IH]; simpl; [reflexivity|].
  destruct (String.eqb k' k); [discriminate|].
  intros H. now rewrite IH.
Qed.

Lemma set_split k v v' m1 m2 :
  StrMap.get k m1 = None ->
  StrMap.set k v' (m1 ++ (k, v) :: m2) = m1 ++ (k, v') :: m2.
Proof.
  induction m1 as [|[k1 v1] m1 IH]; simpl.
  - now rewrite String.eqb_refl.
  - destruct (String.eqb k1 k); [discriminate|].
    intros H. now rewrite IH.
Qed.

Lemma get_None_keys k m :
  StrMap.get k m = None -> ~ In k (StrMap.keys m).
Proof.
  induction m as [|[k' v'] m IH]; simpl; [tauto|].
  destruct (String.eqb_spec k' k) as [->|Hne]; [discriminate|].
  intros H [E|E]; [contradiction | exact (IH H E)].
Qed.

Lemma get_Some_In k v m : StrMap.get k m = Some v -> In (k, v) m.
Proof.
  intros H. destruct (get_Some_split _ _ _ H) as (m1 & m2 & -> & _).
  apply in_elt.
Qed.

End Generic.

Lemma keys_app {V} (m1 m2 : StrMap.t V) :
  StrMap.keys (m1 ++ m2) = (StrMap.keys m1 ++ StrMap.keys m2)%list.
Proof. apply map_app. Qed.

Lemma get_app_Some {V} k (v : V) m1 m2 :
  StrMap.get k m1 = None -> StrMap.get k (m1 ++ (k, v) :: m2) = Some v.
Proof.
  intros H. rewrite get_app_None by exact H. simpl. now rewrite String.eqb_refl.
Qed.

Lemma keys_None {V} k (m : StrMap.t V) :
  ~ In k (StrMap.keys m) -> StrMap.get k m = None.
Proof.
  induction m as [|[k' v] m IH]; simpl; [reflexivity|].
  intros H. destruct (String.eqb_spec k' k) as [->|Hne]; [tauto|].
  apply IH. tauto.
Qed.

(** Whether a key is absent depends on the keys alone. *)
Lemma get_None_same_keys {V} k (m m' : StrMap.t V) :
  StrMap.keys m = StrMap.keys m' ->
  StrMap.get k m' = None -> StrMap.get k m = None.
Proof.
  intros E H. apply keys_None. rewrite E. now apply get_None_keys.
Qed.

End StrMapFacts.

(** * The flight map component: proofs *)

Module FlightMapTheory.

Import FlightMap StrMapFacts.

Section RouteKeys.

(** Keys of the table *)
Lemma known_airportAt c : known c = true <-> exists a, airportAt c = Some a.
Proof.
  unfold known. destruct (airportAt c); split; intros H; eauto; try discriminate.
  destruct H as [? [=]].
Qed.

Lemma table_keys_length :
  Forall (fun k => String.length k = 3%nat) (StrMap.keys AIRPORT_COORDINATES).
Proof. repeat constructor. Qed.

Lemma known_length c : known c = true -> String.length c = 3%nat.
Proof.
  intros H. apply known_airportAt in H as [a H].
  apply get_Some_In in H.
  pose proof table_keys_length as F. rewrite Forall_forall in F.
  apply F. unfold StrMap.keys. change c with (fst (c, a)). now apply in_map.
Qed.

Lemma append_inj_length (a c b d : string) :
  String.length a = String.length c -> (a ++ b)%string = (c ++ d)%string -> a = c /\ b = d.
Proof.
  revert c. induction a as [|x a IH]; intros [|y c]; simpl; try discriminate.
  - auto.
  - intros [= Hl] [= -> H]. destruct (IH c Hl H) as [-> ->]. auto.
Qed.

Lemma routeKeyOf_inj a b c d :
  known a = true -> known c = true ->
  routeKeyOf a b = routeKeyOf c d -> a = c /\ b = d.
Proof.
  intros Ha Hc H. unfold routeKeyOf in H.
  apply append_inj_length in H.
  - destruct H as [-> H]. simpl in H. now injection H as ->.
  - now rewrite !known_length.
Qed.

End RouteKeys.

Section RouteLoop.

Lemma samePair_true_iff a b c d :
  samePair a b c d = true <-> (a = c /\ b = d) \/ (a = d /\ b = c).
Proof.
  unfold samePair.
  destruct (String.eqb_spec a c), (String.eqb_spec b d),
    (String.eqb_spec a d), (String.eqb_spec b c); simpl; intuition congruence.
Qed.

Lemma samePair_false_iff a b c d :
  samePair a b c d = false <-> ~ ((a = c /\ b = d) \/ (a = d /\ b = c)).
Proof.
  rewrite <- samePair_true_iff. destruct (samePair a b c d); intuition congruence.
Qed.

Lemma samePair_refl a b : samePair a b a b = true.
Proof. apply samePair_true_iff. auto. Qed.

Lemma samePair_swap a b : samePair a b b a = true.
Proof. apply samePair_true_iff. auto. Qed.

Lemma samePair_flip a b c d : samePair a b c d = samePair b a c d.
Proof.
  unfold samePair.
  destruct (String.eqb a c), (String.eqb b d), (String.eqb a d),
    (String.eqb b c); reflexivity.
Qed.

Lemma samePair_sym a b c d : samePair a b c d = samePair c d a b.
Proof.
  unfold samePair.
  rewrite (String.eqb_sym c a), (String.eqb_sym d b), (String.eqb_sym c b),
    (String.eqb_sym d a).
  destruct (String.eqb a c), (String.eqb b d), (String.eqb a d),
    (String.eqb b c); reflexivity.
Qed.

Lemma samePair_trans a b c d e f :
  samePair a b c d = true -> samePair a b e f = samePair c d e f.
Proof.
  intros H. apply samePair_true_iff in H as [[-> ->]|[-> ->]].
  - reflexivity.
  - apply samePair_flip.
Qed.

(** Both ends of a pair that matches a flight with both codes known are known. *)
Lemma samePair_known a b c d :
  samePair a b c d = true -> known a = true -> known b = true ->
  known c = true /\ known d = true.
Proof.
  intros H Ha Hb. apply samePair_true_iff in H. intuition congruence.
Qed.

Lemma distinctEnds_snoc l p :
  distinctEnds l ->
  Forall (fun q => samePair (fst q) (snd q) (fst p) (snd p) = false) l ->
  distinctEnds (l ++ [p]).
Proof.
  induction l as [|q l IH]; simpl.
  - auto.
  - intros [Hq Hl] Hp. inversion Hp as [|? ? Hqp Hlp]; subst. split.
    + apply Forall_app. split; [exact Hq|]. constructor; [exact Hqp | constructor].
    + now apply IH.
Qed.

Lemma distinctEnds_others l1 p l2 :
  distinctEnds (l1 ++ p :: l2) ->
  Forall (fun q => samePair (fst q) (snd q) (fst p) (snd p) = false) (l1 ++ l2).
Proof.
  induction l1 as [|q l1 IH]; simpl.
  - intros [Hp _]. eapply Forall_impl; [|exact Hp].
    intros q Hq. simpl in Hq. now rewrite samePair_sym.
  - intros [Hq Hl]. constructor.
    + apply Forall_app in Hq as [_ Hq]. now inversion Hq.
    + now apply IH.
Qed.

Lemma bothKnown_iff f :
  bothKnown f = true <-> known (origin f) = true /\ known (destination f) = true.
Proof. unfold bothKnown. apply andb_true_iff. Qed.

Lemma bothKnown_airports f :
  bothKnown f = true ->
  exists a b, airportAt (origin f) = Some a /\ airportAt (destination f) = Some b.
Proof.
  intros H. apply bothKnown_iff in H as [Ho Hd].
  apply known_airportAt in Ho as [a Ha]. apply known_airportAt in Hd as [b Hb].
  exists a, b. split; assumption.
Qed.

Lemma routesStep_skip m w f :
  bothKnown f = false -> routesStep (m, w) f = (m, (w ++ [skipWarning f])%list).
Proof.
  unfold bothKnown, known, routesStep.
  destruct (airportAt (origin f)), (airportAt (destination f));
    intros H; first [discriminate H | reflexivity].
Qed.

Lemma filter_snoc {A} (p : A -> bool) l x :
  filter p (l ++ [x]) = (filter p l ++ if p x then [x] else [])%list.
Proof. rewrite filter_app. simpl. now destruct (p x). Qed.

Lemma filter_none {A} (p : A -> bool) l :
  (forall x, In x l -> p x = false) -> filter p l = [].
Proof.
  induction l as [|x l IH]; simpl; [reflexivity|].
  intros H. rewrite (H x) by now left. apply IH. intros y Hy. apply H. now right.
Qed.

(** An entry whose ends are not those of [f] keeps its flights. *)
Lemma entryOk_other fl f e :
  entryOk fl e ->
  between (from (snd e)) (to (snd e)) f = false ->
  entryOk (fl ++ [f]) e.
Proof.
  intros (Hk & Hkey & Hf & Ht & Hfl & Hc & Hne) Hb.
  repeat split; try assumption.
  rewrite filter_snoc, Hb, app_nil_r. exact Hfl.
Qed.

Lemma entryOk_bump fl f k r :
  entryOk fl (k, r) ->
  between (from r) (to r) f = true ->
  entryOk (fl ++ [f]) (k, addFlight r f).
Proof.
  intros (Hk & Hkey & Hf & Ht & Hfl & Hc & Hne) Hb. simpl in *.
  repeat split; simpl; try assumption.
  - rewrite filter_snoc, Hb. now rewrite Hfl.
  - rewrite length_app. simpl. lia.
  - intros E. now apply app_eq_nil in E as [_ E].
Qed.

Lemma entry_key_in fl m e :
  Forall (entryOk fl) m -> In e m ->
  In (routeKeyOf (from (snd e)) (to (snd e))) (StrMap.keys m).
Proof.
  intros F Hin. rewrite Forall_forall in F.
  destruct (F e Hin) as (Hk & _). rewrite <- Hk.
  unfold StrMap.keys. now apply in_map.
Qed.

(** When neither key is present, no stored route joins the two airports. *)
Lemma absent_no_connect fl m o d e :
  Forall (entryOk fl) m ->
  StrMap.get (routeKeyOf o d) m = None ->
  StrMap.get (routeKeyOf d o) m = None ->
  In e m -> samePair (from (snd e)) (to (snd e)) o d = false.
Proof.
  intros F H1 H2 Hin.
  destruct (samePair (from (snd e)) (to (snd e)) o d) eqn:E; [|reflexivity].
  exfalso. pose proof (entry_key_in fl m e F Hin) as Hk.
  apply samePair_true_iff in E as [[E1 E2]|[E1 E2]]; rewrite E1, E2 in Hk.
  - exact (get_None_keys _ _ H1 Hk).
  - exact (get_None_keys _ _ H2 Hk).
Qed.

Lemma routesInv_nil : routesInv [] [].
Proof.
  split; simpl; auto. intros f [].
Qed.

Lemma routesInv_found fl m1 m2 k r f :
  routesInv fl (m1 ++ (k, r) :: m2) ->
  bothKnown f = true ->
  between (from r) (to r) f = true ->
  routesInv (fl ++ [f]) (m1 ++ (k, addFlight r f) :: m2).
Proof.
  intros [He Hd Hc] Hv Hb.
  pose proof (distinctEnds_others (map endsOf m1) (endsOf (k, r)) (map endsOf m2)) as Ho.
  rewrite map_app in Hd. simpl in Hd. specialize (Ho Hd).
  rewrite <- map_app, Forall_map in Ho. simpl in Ho.
  assert (Hoth : forall e, In e (m1 ++ m2) -> between (from (snd e)) (to (snd e)) f = false).
  { intros e Hin. rewrite Forall_forall in Ho. specialize (Ho e Hin).
    unfold between in *.
    rewrite samePair_sym, <- (samePair_trans _ _ _ _ _ _ Hb), samePair_sym.
    exact Ho. }
  apply Forall_app in He as [He1 He2]. inversion He2 as [|? ? Her He2']; subst.
  split.
  - apply Forall_app. split.
    + rewrite Forall_forall in *. intros e Hin. apply entryOk_other; auto.
      apply Hoth. apply in_or_app. now left.
    + constructor.
      * now apply entryOk_bump.
      * rewrite Forall_forall in *. intros e Hin. apply entryOk_other; auto.
        apply Hoth. apply in_or_app. now right.
  - rewrite map_app. simpl. exact Hd.
  - intros f' Hin Hv'. apply in_app_or in Hin as [Hin|[<-|[]]].
    + destruct (Hc f' Hin Hv') as (e & Hine & Hcon).
      apply in_app_or in Hine as [Hine|[<-|Hine]].
      * exists e. split; [apply in_or_app; now left | exact Hcon].
      * exists (k, addFlight r f). split; [apply in_elt | exact Hcon].
      * exists e. split; [apply in_or_app; right; now right | exact Hcon].
    + exists (k, addFlight r f). split; [apply in_elt|].
      unfold connects. simpl. unfold between in Hb. now rewrite samePair_sym.
Qed.

Lemma routesInv_fresh fl m f r :
  routesInv fl m ->
  bothKnown f = true ->
  StrMap.get (routeKeyOf (origin f) (destination f)) m = None ->
  StrMap.get (routeKeyOf (destination f) (origin f)) m = None ->
  key r = routeKeyOf (origin f) (destination f) ->
  from r = origin f -> to r = destination f ->
  count r = 1%nat -> flights r = [f] ->
  routesInv (fl ++ [f]) (m ++ [(routeKeyOf (origin f) (destination f), r)]).
Proof.
  intros [He Hd Hc] Hv H1 H2 Hkey Hfrom Hto Hcount Hfl.
  assert (Hno : forall e, In e m ->
            samePair (from (snd e)) (to (snd e)) (origin f) (destination f) = false).
  { intros e. now apply (absent_no_connect fl m). }
  apply bothKnown_iff in Hv as [Hko Hkd].
  split.
  - apply Forall_app. split.
    + rewrite Forall_forall in *. intros e Hin. apply entryOk_other; auto.
      unfold between. now apply Hno.
    + constructor; [|constructor]. unfold entryOk. simpl.
      rewrite Hfrom, Hto, Hkey, Hcount, Hfl. repeat split; auto; try discriminate.
      rewrite filter_snoc. unfold between at 2. rewrite samePair_refl.
      replace (filter (between (origin f) (destination f)) fl) with (@nil FlightData);
        [reflexivity|].
      symmetry. apply filter_none. intros f' Hin'.
      destruct (between (origin f) (destination f) f') eqn:Hb; [|reflexivity].
      exfalso.
      assert (Hv' : bothKnown f' = true).
      { unfold between in Hb. apply samePair_known in Hb as [? ?]; auto.
        now apply bothKnown_iff. }
      destruct (Hc f' Hin' Hv') as (e & Hine & Hcon).
      specialize (Hno e Hine). unfold connects in Hcon, Hb. unfold between in Hb.
      rewrite samePair_sym in Hno.
      rewrite (samePair_trans _ _ _ _ _ _ Hb) in Hno. congruence.
  - rewrite map_app. simpl. apply distinctEnds_snoc; [exact Hd|].
    rewrite Forall_map. rewrite Forall_forall. intros e Hin. simpl.
    rewrite Hfrom, Hto. now apply Hno.
  - intros f' Hin Hv'. apply in_app_or in Hin as [Hin|[<-|[]]].
    + destruct (Hc f' Hin Hv') as (e & Hine & Hcon).
      exists e. split; [apply in_or_app; now left | exact Hcon].
    + eexists. split; [apply in_or_app; right; left; reflexivity|].
      unfold connects. simpl. rewrite Hfrom, Hto. apply samePair_refl.
Qed.

Lemma routesInv_skip fl m f :
  routesInv fl m -> bothKnown f = false -> routesInv (fl ++ [f]) m.
Proof.
  intros [He Hd Hc] Hv. split.
  - rewrite Forall_forall in *. intros e Hin.
    pose proof (He e Hin) as Hok. apply entryOk_other; [exact Hok|].
    destruct Hok as (_ & _ & Hf & Ht & _).
    destruct (between (from (snd e)) (to (snd e)) f) eqn:Hb; [|reflexivity].
    unfold between in Hb. apply samePair_known in Hb as [Ho Hd']; auto.
    assert (bothKnown f = true) by now apply bothKnown_iff.
    congruence.
  - exact Hd.
  - intros f' Hin Hv'. apply in_app_or in Hin as [Hin|[<-|[]]].
    + now apply Hc.
    + congruence.
Qed.

Lemma routesInv_step fl m w f :
  routesInv fl m -> routesInv (fl ++ [f]) (fst (routesStep (m, w) f)).
Proof.
  intros Hinv. destruct (bothKnown f) eqn:Hv.
  - destruct (bothKnown_airports f Hv) as (a & b & Ha & Hb).
    pose proof (proj1 (bothKnown_iff f) Hv) as [Hko Hkd].
    unfold routesStep. rewrite Ha, Hb.
    destruct (StrMap.get (routeKeyOf (origin f) (destination f)) m) as [r|] eqn:G1.
    + unfold fst.
      destruct (get_Some_split _ _ _ G1) as (m1 & m2 & -> & Hn).
      rewrite set_split by exact Hn.
      apply routesInv_found; [exact Hinv | exact Hv |].
      destruct Hinv as [He _ _]. apply Forall_app in He as [_ He].
      inversion He as [|? ? (Hk & _ & Hf & _) _]; subst. simpl in Hk, Hf.
      symmetry in Hk. apply routeKeyOf_inj in Hk as [-> ->]; auto.
      unfold between. apply samePair_refl.
    + destruct (StrMap.get (routeKeyOf (destination f) (origin f)) m) as [r|] eqn:G2.
      * unfold fst.
        destruct (get_Some_split _ _ _ G2) as (m1 & m2 & -> & Hn).
        rewrite set_split by exact Hn.
        apply routesInv_found; [exact Hinv | exact Hv |].
        destruct Hinv as [He _ _]. apply Forall_app in He as [_ He].
        inversion He as [|? ? (Hk & _ & Hf & _) _]; subst. simpl in Hk, Hf.
        symmetry in Hk. apply routeKeyOf_inj in Hk as [-> ->]; auto.
        unfold between. apply samePair_swap.
      * unfold fst. rewrite set_fresh by exact G1.
        now apply routesInv_fresh.
  - rewrite routesStep_skip by exact Hv. unfold fst.
    now apply routesInv_skip.
Qed.

Lemma routesLoop_snoc fl f :
  routesLoop (fl ++ [f]) = routesStep (routesLoop fl) f.
Proof. unfold routesLoop. now rewrite fold_left_app. Qed.

Lemma routesInv_loop fl : routesInv fl (fst (routesLoop fl)).
Proof.
  induction fl as [|f fl IH] using rev_ind.
  - apply routesInv_nil.
  - rewrite routesLoop_snoc. destruct (routesLoop fl) as [m w].
    now apply routesInv_step.
Qed.

(** Consequences on the stored routes. *)
Lemma connects_same_pair A B r r' :
  connects A B r = true ->
  connects A B r' = samePair (from r) (to r) (from r') (to r').
Proof. intros H. unfold connects in *. now apply samePair_trans. Qed.

Lemma at_most_one_connecting A B (m : StrMap.t Route) :
  distinctEnds (map endsOf m) ->
  (List.length (filter (connects A B) (StrMap.values m)) <= 1)%nat.
Proof.
  induction m as [|[k r] m IH]; simpl; [lia|].
  intros [Hr Hm]. destruct (connects A B r) eqn:Hc.
  - rewrite filter_none; [simpl; lia|].
    intros r' Hin. unfold StrMap.values in Hin. apply in_map_iff in Hin as (e & <- & Hin).
    rewrite (connects_same_pair _ _ _ _ Hc).
    rewrite Forall_map in Hr. rewrite Forall_forall in Hr. exact (Hr e Hin).
  - now apply IH.
Qed.

Lemma connecting_route_flights fl (m : StrMap.t Route) A B r :
  Forall (entryOk fl) m -> In r (StrMap.values m) -> connects A B r = true ->
  flights r = filter (between A B) fl
  /\ count r = List.length (filter (between A B) fl).
Proof.
  intros F Hin Hc. unfold StrMap.values in Hin.
  apply in_map_iff in Hin as (e & <- & Hin).
  rewrite Forall_forall in F. destruct (F e Hin) as (_ & _ & _ & _ & Hfl & Hcount & _).
  assert (E : filter (between (from (snd e)) (to (snd e))) fl = filter (between A B) fl).
  { apply filter_ext. intros f. unfold between. symmetry.
    now apply samePair_trans. }
  rewrite Hcount, Hfl, E. auto.
Qed.

Lemma some_route_connects fl (m : StrMap.t Route) A B :
  routesInv fl m -> known A = true -> known B = true ->
  filter (between A B) fl <> [] ->
  exists r, In r (StrMap.values m) /\ connects A B r = true.
Proof.
  intros [_ _ Hc] HA HB Hne.
  destruct (filter (between A B) fl) as [|f rest] eqn:E; [contradiction|].
  assert (Hin : In f (filter (between A B) fl)) by (rewrite E; now left).
  apply filter_In in Hin as [Hin Hb].
  assert (Hv : bothKnown f = true).
  { unfold between in Hb. apply samePair_known in Hb as [? ?]; auto.
    now apply bothKnown_iff. }
  destruct (Hc f Hin Hv) as (e & Hine & Hcon).
  exists (snd e). split; [unfold StrMap.values; now apply in_map|].
  unfold connects in *. unfold between in Hb.
  now rewrite (samePair_trans _ _ _ _ _ _ Hb).
Qed.

(** [withOpacity] only rewrites the opacity. *)
Lemma filter_map_withOpacity (p : string -> string -> bool) mc rs :
  filter (fun r => p (from r) (to r)) (map (withOpacity mc) rs)
  = map (withOpacity mc) (filter (fun r => p (from r) (to r)) rs).
Proof.
  induction rs as [|r rs IH]; simpl; [reflexivity|].
  destruct (p (from r) (to r)); simpl; now rewrite IH.
Qed.

Lemma routes_connecting fl A B :
  filter (connects A B) (routes fl)
  = map (withOpacity (maxCountOf (StrMap.values (fst (routesLoop fl)))))
      (filter (connects A B) (StrMap.values (fst (routesLoop fl)))).
Proof. unfold routes. cbv zeta. apply (filter_map_withOpacity (samePair A B)). Qed.

(** C1.  For every flight list and every two airports [A] and [B] of the
    table, [routes] holds at most one route that joins them; that route
    carries exactly the submitted flights between [A] and [B], in either
    direction and in their order, its count is their number, and it exists
    as soon as one such flight was submitted. *)
Theorem bidirectional_routes_merge (flightList : list FlightData) (A B : string) :
  known A = true -> known B = true ->
  let merged := filter (connects A B) (routes flightList) in
  let submitted := filter (between A B) flightList in
  (List.length merged <= 1)%nat
  /\ (forall route, In route merged ->
        flights route = submitted /\ count route = List.length submitted)
  /\ (submitted <> [] -> List.length merged = 1%nat).
Proof.
  intros HA HB merged submitted. subst merged submitted.
  pose proof (routesInv_loop flightList) as Hinv.
  rewrite routes_connecting, length_map.
  pose proof (at_most_one_connecting A B _ (inv_distinct _ _ Hinv)) as Hle.
  split; [exact Hle|]. split.
  - intros route Hin. apply in_map_iff in Hin as (r & <- & Hin).
    apply filter_In in Hin as [Hin Hc]. simpl.
    exact (connecting_route_flights _ _ A B r (inv_entries _ _ Hinv) Hin Hc).
  - intros Hne.
    destruct (some_route_connects _ _ A B Hinv HA HB Hne) as (r & Hin & Hc).
    assert (In r (filter (connects A B) (StrMap.values (fst (routesLoop flightList)))))
      as Hf by (apply filter_In; auto).
    destruct (filter (connects A B) (StrMap.values (fst (routesLoop flightList))));
      [destruct Hf | simpl in *; lia].
Qed.

End RouteLoop.

Section RouteExamples.

Local Open Scope string_scope.

Example demo_known : known "SIN" = true /\ known "XXX" = false.
Proof. split; reflexivity. Qed.

Example demo_counts :
  map (fun r => (from r, to r, count r)) (routes demoFlights)
  = [("SIN", "CGK", 3%nat); ("SIN", "HKG", 1%nat)].
Proof. reflexivity. Qed.

Example demo_warnings :
  routesWarnings demoFlights
  = ["Skipping flight with invalid airport codes: SIN -> XXX (Flight: SQ000)"].
Proof. reflexivity. Qed.

Lemma bidirectional_routes_merge_witness :
  (known "SIN" = true /\ known "CGK" = true)
  /\ ((List.length (filter (connects "SIN" "CGK") (routes demoFlights)) <= 1)%nat
      /\ (forall route, In route (filter (connects "SIN" "CGK") (routes demoFlights)) ->
            flights route = filter (between "SIN" "CGK") demoFlights
            /\ count route = List.length (filter (between "SIN" "CGK") demoFlights))
      /\ (filter (between "SIN" "CGK") demoFlights <> [] ->
          List.length (filter (connects "SIN" "CGK") (routes demoFlights)) = 1%nat)).
Proof.
  split; [split; reflexivity|].
  apply (bidirectional_routes_merge demoFlights "SIN" "CGK"); reflexivity.
Defined.

End RouteExamples.

Section AirportLoop.

(** The route map does not depend on the warnings gathered so far. *)
Lemma routesStep_fst m w w' f :
  fst (routesStep (m, w) f) = fst (routesStep (m, w') f).
Proof.
  unfold routesStep.
  destruct (airportAt (origin f)), (airportAt (destination f)); try reflexivity.
  destruct (StrMap.get (routeKeyOf (origin f) (destination f)) m); [reflexivity|].
  destruct (StrMap.get (routeKeyOf (destination f) (origin f)) m); reflexivity.
Qed.

Lemma routesStep_snd_known m w f :
  bothKnown f = true -> snd (routesStep (m, w) f) = w.
Proof.
  intros Hv. destruct (bothKnown_airports f Hv) as (a & b & Ha & Hb).
  unfold routesStep. rewrite Ha, Hb.
  destruct (StrMap.get (routeKeyOf (origin f) (destination f)) m); [reflexivity|].
  destruct (StrMap.get (routeKeyOf (destination f) (origin f)) m); reflexivity.
Qed.

Lemma routes_fold_skips_unknown fl : forall m w w',
  fst (fold_left routesStep fl (m, w))
  = fst (fold_left routesStep (filter bothKnown fl) (m, w')).
Proof.
  induction fl as [|f fl IH]; intros m w w'; [reflexivity|].
  cbn [filter fold_left].
  destruct (bothKnown f) eqn:Hv.
  - cbn [fold_left].
    rewrite (surjective_pairing (routesStep (m, w) f)).
    rewrite (surjective_pairing (routesStep (m, w') f)).
    rewrite (routesStep_fst m w w' f). apply IH.
  - rewrite routesStep_skip by exact Hv. apply IH.
Qed.

Lemma routes_fold_warnings fl : forall m w,
  snd (fold_left routesStep fl (m, w))
  = (w ++ map skipWarning (filter (fun f => negb (bothKnown f)) fl))%list.
Proof.
  induction fl as [|f fl IH]; intros m w; [cbn; now rewrite app_nil_r|].
  cbn [filter fold_left].
  destruct (bothKnown f) eqn:Hv; cbn [negb map].
  - rewrite (surjective_pairing (routesStep (m, w) f)).
    rewrite (routesStep_snd_known m w f Hv). apply IH.
  - rewrite routesStep_skip by exact Hv. rewrite IH.
    now rewrite <- app_assoc.
Qed.

Lemma routes_skip_unknown fl : routes fl = routes (filter bothKnown fl).
Proof.
  assert (E : fst (routesLoop fl) = fst (routesLoop (filter bothKnown fl)))
    by apply (routes_fold_skips_unknown fl [] [] []).
  unfold routes. now rewrite E.
Qed.

Lemma count_occ_snoc (codes : list string) c k :
  count_occ string_dec (codes ++ [c]) k
  = (count_occ string_dec codes k + if string_dec c k then 1 else 0)%nat.
Proof. rewrite count_occ_app. simpl. destruct (string_dec c k); reflexivity. Qed.

Lemma airportOk_other codes c e :
  airportOk codes e -> fst e <> c -> airportOk (codes ++ [c]) e.
Proof.
  intros (H1 & H2 & H3 & H4) Hne. repeat split; try assumption.
  rewrite count_occ_snoc, H4. destruct (string_dec c (fst e)); [congruence | lia].
Qed.

Lemma table_codes :
  Forall (fun e => info_code (snd e) = fst e) AIRPORT_COORDINATES.
Proof. repeat constructor. Qed.

(** Every entry of the table carries its own key as [code]. *)
Lemma airportAt_code c data : airportAt c = Some data -> info_code data = c.
Proof.
  intros H. apply get_Some_In in H.
  pose proof table_codes as F. rewrite Forall_forall in F.
  exact (F (c, data) H).
Qed.

Lemma processAirport_inv codes m c :
  airportsInv codes m -> airportsInv (codes ++ [c]) (processAirport c m).
Proof.
  intros [He Hk Ha]. unfold processAirport.
  destruct (airportAt c) as [data|] eqn:Hc.
  - assert (Hkc : known c = true) by (apply known_airportAt; now exists data).
    destruct (StrMap.get c m) as [existing|] eqn:G.
    + destruct (get_Some_split _ _ _ G) as (m1 & m2 & -> & Hn).
      rewrite set_split by exact Hn.
      rewrite keys_app in Hk. simpl in Hk.
      pose proof (NoDup_remove_2 _ _ _ Hk) as Hnotin.
      apply Forall_app in He as [He1 He2].
      inversion He2 as [|? ? (E1 & E2 & E3 & E4) He2']; subst. simpl in *.
      split.
      * apply Forall_app. split; [|constructor].
        -- rewrite Forall_forall in *. intros e Hin. apply airportOk_other; auto.
           intros <-. apply Hnotin. apply in_or_app. left.
           unfold StrMap.keys. now apply in_map.
        -- repeat split; simpl; auto.
           rewrite count_occ_snoc, E4. destruct (string_dec c c); [lia | congruence].
        -- rewrite Forall_forall in *. intros e Hin. apply airportOk_other; auto.
           intros <-. apply Hnotin. apply in_or_app. right.
           unfold StrMap.keys. now apply in_map.
      * rewrite keys_app. simpl. exact Hk.
      * intros c' Hk' Hg. rewrite count_occ_snoc.
        destruct (string_dec c c') as [<-|Hne].
        -- rewrite get_app_Some in Hg by exact Hn. discriminate.
        -- rewrite Nat.add_0_r. apply Ha; [exact Hk'|].
           revert Hg. apply get_None_same_keys.
           rewrite !keys_app. reflexivity.
    + rewrite set_fresh by exact G. split.
      * apply Forall_app. split.
        -- rewrite Forall_forall in *. intros e Hin. apply airportOk_other; auto.
           intros <-. apply (get_None_keys _ _ G).
           unfold StrMap.keys. now apply in_map.
        -- constructor; [|constructor].
           unfold airportOk. cbn [fst snd code displayCode flightCount].
           repeat split; auto.
           ++ now apply airportAt_code.
           ++ rewrite count_occ_snoc, (Ha c Hkc G).
              destruct (string_dec c c); [lia | congruence].
      * rewrite keys_app. simpl. apply NoDup_app.
        -- exact Hk.
        -- constructor; [intros [] | constructor].
        -- intros x Hx [<-|[]]. exact (get_None_keys _ _ G Hx).
      * intros c' Hk' Hg. rewrite count_occ_snoc.
        destruct (string_dec c c') as [<-|Hne].
        -- rewrite get_app_None in Hg by exact G. simpl in Hg.
           rewrite String.eqb_refl in Hg. discriminate.
        -- rewrite Nat.add_0_r. apply Ha; [exact Hk'|].
           apply keys_None. intros Hin. apply (get_None_keys _ _ Hg).
           rewrite keys_app. apply in_or_app. now left.
  - split.
    + rewrite Forall_forall in *. intros e Hin. pose proof (He e Hin) as Hok.
      apply airportOk_other; [exact Hok|].
      destruct Hok as (_ & _ & Hke & _). intros <-.
      apply known_airportAt in Hke as [a Hke]. congruence.
    + exact Hk.
    + intros c' Hk' Hg. rewrite count_occ_snoc.
      destruct (string_dec c c') as [<-|Hne].
      * apply known_airportAt in Hk' as [a Hk']. congruence.
      * rewrite Nat.add_0_r. now apply Ha.
Qed.

End AirportLoop.

Section UnknownAirports.

Local Open Scope string_scope.

Lemma endpointUses_count c fl :
  endpointUses c fl = count_occ string_dec (endpointCodes fl) c.
Proof.
  unfold endpointUses, endpointCodes.
  induction fl as [|f fl IH]; [reflexivity|].
  cbn [filter flat_map app count_occ].
  destruct (string_dec (origin f) c) as [Eo|Eo], (string_dec (destination f) c) as [Ed|Ed];
    try (apply String.eqb_eq in Eo as Eo'; rewrite Eo');
    try (apply String.eqb_neq in Eo as Eo'; rewrite Eo');
    try (apply String.eqb_eq in Ed as Ed'; rewrite Ed');
    try (apply String.eqb_neq in Ed as Ed'; rewrite Ed');
    cbn [List.length]; lia.
Qed.

Lemma airportsStep_fst m ws f :
  fst (airportsStep (m, ws) f)
  = processAirport (destination f) (processAirport (origin f) m).
Proof.
  unfold airportsStep.
  destruct (airportAt (origin f)) as [o|], (airportAt (destination f)) as [d|];
    try reflexivity.
  destruct (shouldGoWestward (info_lng o) (info_lng d)); reflexivity.
Qed.

Lemma airports_fold_inv fl : forall codes m ws,
  airportsInv codes m ->
  airportsInv (codes ++ endpointCodes fl) (fst (fold_left airportsStep fl (m, ws))).
Proof.
  induction fl as [|f fl IH]; intros codes m ws Hinv.
  - cbn. now rewrite app_nil_r.
  - cbn [fold_left]. rewrite (surjective_pairing (airportsStep (m, ws) f)).
    rewrite airportsStep_fst.
    replace (codes ++ endpointCodes (f :: fl))%list
      with (((codes ++ [origin f]) ++ [destination f]) ++ endpointCodes fl)%list
      by (unfold endpointCodes; cbn [flat_map]; now rewrite <- !app_assoc).
    apply IH. now do 2 apply processAirport_inv.
Qed.

Lemma airportsInv_nil : airportsInv [] [].
Proof. split; [constructor | constructor | reflexivity]. Qed.

Lemma values_listedOk fl (m : StrMap.t Airport) :
  Forall (airportOk (endpointCodes fl)) m -> Forall (listedOk fl) (StrMap.values m).
Proof.
  intros F. unfold StrMap.values. rewrite Forall_map.
  eapply Forall_impl; [|exact F].
  intros e (H1 & H2 & H3 & H4). unfold listedOk.
  rewrite H2, endpointUses_count. auto.
Qed.

Lemma wrappedCopy_listedOk fl lo hi k (m : StrMap.t Airport) a :
  Forall (airportOk (endpointCodes fl)) m -> StrMap.get k m = Some a ->
  Forall (listedOk fl) (wrappedCopy lo hi a).
Proof.
  intros F G. apply get_Some_In in G. rewrite Forall_forall in F.
  destruct (F _ G) as (H1 & H2 & H3 & H4). simpl in *.
  unfold wrappedCopy. cbv zeta.
  destruct (_ && _); constructor; [|constructor].
  unfold listedOk. cbn [displayCode flightCount].
  rewrite H1, endpointUses_count. auto.
Qed.

Lemma airports_listedOk fl : Forall (listedOk fl) (airports fl).
Proof.
  unfold airports.
  pose proof (airports_fold_inv fl [] [] [] airportsInv_nil) as [He0 _ _].
  destruct (fold_left airportsStep fl ([], [])) as [m ws] eqn:Efold.
  assert (He : Forall (airportOk (endpointCodes fl)) m).
  { assert (E : fst (fold_left airportsStep fl ([], [])) = m) by now rewrite Efold.
    rewrite <- E. exact He0. }
  pose proof (values_listedOk fl m He) as Hall.
  destruct (mapBounds (routes fl)) as [[sw ne]|]; [|exact Hall].
  apply Forall_app. split.
  - rewrite Forall_forall in *. intros a Hin. apply filter_In in Hin as [Hin _]. auto.
  - apply Forall_flat_map. rewrite Forall_forall. intros k _.
    destruct (StrMap.get k m) as [a|] eqn:G; [|constructor].
    now apply (wrappedCopy_listedOk fl _ _ k m).
Qed.



End UnknownAirports.

Section CurveGeometry.

Local Open Scope R_scope.

Lemma Rltb_true x y : Rltb x y = true <-> x < y.
Proof. unfold Rltb. destruct (Rlt_dec x y); split; intros; try easy. Qed.

Lemma Rltb_false x y : Rltb x y = false <-> y <= x.
Proof. unfold Rltb. destruct (Rlt_dec x y); split; intros; try easy; lra. Qed.

Lemma Rleb_true x y : Rleb x y = true <-> x <= y.
Proof. unfold Rleb. destruct (Rle_dec x y); split; intros; try easy. Qed.

Lemma Rleb_false x y : Rleb x y = false <-> y < x.
Proof. unfold Rleb. destruct (Rle_dec x y); split; intros; try easy; lra. Qed.

Lemma segments_bounds from to : (3 <= segments from to <= 8)%nat.
Proof. unfold segments. lia. Qed.

Lemma createCurvedPath_curved from to :
  5 <= distance from to ->
  createCurvedPath from to = map (curvePoint from to) (seq 0 (S (segments from to))).
Proof.
  intros Hd. unfold createCurvedPath.
  assert (Hf : Rltb (distance from to) 5 = false) by (apply Rltb_false; exact Hd).
  rewrite Hf. cbv zeta.
  rewrite length_map, length_seq.
  pose proof (segments_bounds from to) as [Hlo _].
  destruct (Nat.ltb_spec 2 (S (segments from to))) as [_|Hc]; [reflexivity|lia].
Qed.

Lemma createCurvedPath_straight from to :
  distance from to < 5 ->
  createCurvedPath from to = [from; (fst to, adjustedLng2 (snd from) (snd to))].
Proof.
  intros Hd. unfold createCurvedPath.
  assert (Hf : Rltb (distance from to) 5 = true) by (apply Rltb_true; exact Hd).
  now rewrite Hf.
Qed.

Lemma segments_of_distance from to (k : Z) :
  (3 <= k <= 8)%Z -> IZR k * 10 <= distance from to < (IZR k + 1) * 10 ->
  segments from to = Z.to_nat k.
Proof.
  intros Hk [Hlo Hhi]. unfold segments.
  assert (Int_part (distance from to / 10) = k) as ->.
  { symmetry. apply Int_part_spec. lra. }
  f_equal. lia.
Qed.

Lemma segments_short from to : distance from to < 40 -> segments from to = 3%nat.
Proof.
  intros H. unfold segments.
  assert (Int_part (distance from to / 10) <= 3)%Z.
  { destruct (base_Int_part (distance from to / 10)) as [Hlo _].
    assert (IZR (Int_part (distance from to / 10)) < 4) by lra.
    apply lt_IZR in H0. lia. }
  lia.
Qed.

Lemma segments_long from to : 80 <= distance from to -> segments from to = 8%nat.
Proof.
  intros H. unfold segments.
  assert (8 <= Int_part (distance from to / 10))%Z.
  { destruct (base_Int_part (distance from to / 10)) as [_ Hhi].
    assert (7 < IZR (Int_part (distance from to / 10))) by lra.
    apply lt_IZR in H0. lia. }
  lia.
Qed.

Lemma createCurvedPath_length from to :
  5 <= distance from to ->
  List.length (createCurvedPath from to) = S (segments from to).
Proof.
  intros Hd. rewrite createCurvedPath_curved by exact Hd.
  now rewrite length_map, length_seq.
Qed.

(** C5, as amended.  For endpoints at least 5 apart, [createCurvedPath]
    returns one point more than it has segments: between 4 and 9 points,
    namely 4 below a distance of 40, [floor (distance / 10) + 1] from 40 up
    to 80, and 9 from 80 on. *)
Theorem curved_path_sample_count from to :
  5 <= distance from to ->
  List.length (createCurvedPath from to) = S (segments from to)
  /\ (4 <= List.length (createCurvedPath from to) <= 9)%nat
  /\ (distance from to < 40 -> List.length (createCurvedPath from to) = 4%nat)
  /\ (forall k : Z, (3 <= k <= 8)%Z ->
        IZR k * 10 <= distance from to < (IZR k + 1) * 10 ->
        List.length (createCurvedPath from to) = S (Z.to_nat k))
  /\ (80 <= distance from to -> List.length (createCurvedPath from to) = 9%nat).
Proof.
  intros Hd.
  pose proof (createCurvedPath_length from to Hd) as Hlen.
  pose proof (segments_bounds from to) as Hb.
  repeat split; try lia.
  - intros H. rewrite Hlen, segments_short by exact H. reflexivity.
  - intros k Hk H. rewrite Hlen. f_equal. now apply segments_of_distance.
  - intros H. rewrite Hlen, segments_long by exact H. reflexivity.
Qed.

Lemma adjustedLng2_plain lng1 lng2 :
  Rabs (lng2 - lng1) <= 180 -> adjustedLng2 lng1 lng2 = lng2.
Proof.
  intros H. unfold adjustedLng2, shouldGoWestward. cbv zeta.
  assert (Rltb (360 - Rabs (lng2 - lng1)) (Rabs (lng2 - lng1)) = false) as ->
    by (apply Rltb_false; lra).
  reflexivity.
Qed.

Lemma sqrt_ge x y : 0 <= y -> y * y <= x -> y <= sqrt x.
Proof.
  intros Hy H. rewrite <- (sqrt_square y) by exact Hy. now apply sqrt_le_1_alt.
Qed.

Lemma sqrt_lt x y : 0 <= x -> 0 < y -> x < y * y -> sqrt x < y.
Proof.
  intros Hx Hy H. rewrite <- (sqrt_square y) by lra. apply sqrt_lt_1_alt. lra.
Qed.

Lemma distance_SIN_FRA : 80 <= distance SIN_coord FRA_coord.
Proof.
  unfold distance, SIN_coord, FRA_coord.
  rewrite adjustedLng2_plain.
  - apply sqrt_ge; lra.
  - unfold Rabs. destruct (Rcase_abs _); lra.
Qed.

(** C5, counterexample.  From Singapore to Frankfurt the path has 9 points,
    which is outside 3..8. *)
Lemma long_haul_path_has_nine_points :
  5 <= distance SIN_coord FRA_coord
  /\ List.length (createCurvedPath SIN_coord FRA_coord) = 9%nat
  /\ ~ (3 <= List.length (createCurvedPath SIN_coord FRA_coord) <= 8)%nat.
Proof.
  pose proof distance_SIN_FRA as H.
  assert (H5 : 5 <= distance SIN_coord FRA_coord) by lra.
  rewrite (createCurvedPath_length _ _ H5), (segments_long _ _ H).
  repeat split; [exact H5 | lia].
Qed.

Lemma Rabs_le_between x b : Rabs x <= b <-> - b <= x <= b.
Proof. unfold Rabs. destruct (Rcase_abs x); lra. Qed.

Lemma adjustedLng2_cases lng1 lng2 :
  (Rabs (lng2 - lng1) <= 180 /\ adjustedLng2 lng1 lng2 = lng2)
  \/ (180 < lng2 - lng1 /\ adjustedLng2 lng1 lng2 = lng2 - 360)
  \/ (180 < lng1 - lng2 /\ adjustedLng2 lng1 lng2 = lng2 + 360).
Proof.
  unfold adjustedLng2, shouldGoWestward, Rgtb. cbv zeta.
  destruct (Rltb (360 - Rabs (lng2 - lng1)) (Rabs (lng2 - lng1))) eqn:Hw.
  - apply Rltb_true in Hw.
    destruct (Rltb lng1 lng2) eqn:Hg.
    + apply Rltb_true in Hg. right; left. split; [|reflexivity].
      rewrite Rabs_right in Hw by lra. lra.
    + apply Rltb_false in Hg. right; right. split; [|reflexivity].
      rewrite Rabs_left1 in Hw by lra. lra.
  - apply Rltb_false in Hw. left. split; [lra | reflexivity].
Qed.

Lemma adjusted_delta_bound lng1 lng2 :
  -180 <= lng1 <= 180 -> -180 <= lng2 <= 180 ->
  Rabs (adjustedLng2 lng1 lng2 - lng1) <= 180.
Proof.
  intros H1 H2.
  destruct (adjustedLng2_cases lng1 lng2) as [[H ->] | [[H ->] | [H ->]]].
  - exact H.
  - apply Rabs_le_between. lra.
  - apply Rabs_le_between. lra.
Qed.

Lemma distance_nonneg from to : 0 <= distance from to.
Proof. destruct from, to. unfold distance. apply sqrt_pos. Qed.

Lemma curveFactor_bounds from to : 0 <= curveFactor from to <= 20.
Proof.
  unfold curveFactor. pose proof (distance_nonneg from to).
  split.
  - apply Rmin_glb; lra.
  - apply Rmin_r.
Qed.

Lemma controlLng_offset from to :
  0 <= controlLng from to - (snd from + adjustedLng2 (snd from) (snd to)) / 2 <= 6.
Proof.
  unfold controlLng, curveOffset. cbv zeta.
  pose proof (curveFactor_bounds from to).
  destruct (isEastWest from to); lra.
Qed.

Lemma last_map_seq {A} (f : nat -> A) (n : nat) (d : A) :
  last (map f (seq 0 (S n))) d = f n.
Proof.
  rewrite seq_S, map_app. simpl. apply last_last.
Qed.

Lemma curvePoint_first from to :
  curvePoint from to 0 = from.
Proof.
  destruct from as [lat1 lng1], to as [lat2 lng2]. unfold curvePoint.
  cbv zeta. simpl INR. f_equal; unfold Rdiv; ring.
Qed.

Lemma curvePoint_last from to :
  curvePoint from to (segments from to) = (fst to, adjustedLng2 (snd from) (snd to)).
Proof.
  destruct from as [lat1 lng1], to as [lat2 lng2]. unfold curvePoint.
  cbv zeta.
  assert (Hn : INR (segments (lat1, lng1) (lat2, lng2)) <> 0).
  { apply not_0_INR. pose proof (segments_bounds (lat1, lng1) (lat2, lng2)). lia. }
  replace (INR (segments (lat1, lng1) (lat2, lng2)) / INR (segments (lat1, lng1) (lat2, lng2))) with 1
    by (field; exact Hn).
  simpl. f_equal; ring.
Qed.

Lemma createCurvedPath_last from to :
  last (createCurvedPath from to) from = (fst to, adjustedLng2 (snd from) (snd to)).
Proof.
  destruct (Rlt_dec (distance from to) 5) as [H|H].
  - rewrite createCurvedPath_straight by exact H. reflexivity.
  - rewrite createCurvedPath_curved by lra.
    rewrite last_map_seq. apply curvePoint_last.
Qed.

Lemma createCurvedPath_first from to :
  hd from (createCurvedPath from to) = from.
Proof.
  destruct (Rlt_dec (distance from to) 5) as [H|H].
  - rewrite createCurvedPath_straight by exact H. reflexivity.
  - rewrite createCurvedPath_curved by lra. simpl. apply curvePoint_first.
Qed.

(** C7.  For longitudes in [-180, 180]: when the westward delta is the
    shorter one, the destination longitude used by the curve is the given
    one minus 360 or plus 360, and otherwise the given one; the path ends at
    that shifted destination; the shifted destination is at most 180 from
    the origin longitude and the control point at most 360. *)
Theorem westward_shift_and_control_point lat1 lng1 lat2 lng2 :
  -180 <= lng1 <= 180 -> -180 <= lng2 <= 180 ->
  (360 - Rabs (lng2 - lng1) < Rabs (lng2 - lng1) ->
     adjustedLng2 lng1 lng2 = lng2 - 360 \/ adjustedLng2 lng1 lng2 = lng2 + 360)
  /\ (Rabs (lng2 - lng1) <= 360 - Rabs (lng2 - lng1) ->
     adjustedLng2 lng1 lng2 = lng2)
  /\ last (createCurvedPath (lat1, lng1) (lat2, lng2)) (lat1, lng1)
     = (lat2, adjustedLng2 lng1 lng2)
  /\ Rabs (adjustedLng2 lng1 lng2 - lng1) <= 180
  /\ Rabs (controlLng (lat1, lng1) (lat2, lng2) - lng1) <= 360.
Proof.
  intros H1 H2.
  pose proof (adjusted_delta_bound lng1 lng2 H1 H2) as Hd.
  repeat split.
  - intros Hw.
    destruct (adjustedLng2_cases lng1 lng2) as [[H _] | [[_ ->] | [_ ->]]];
      [lra | now left | now right].
  - intros Hw. apply adjustedLng2_plain. lra.
  - apply createCurvedPath_last.
  - exact Hd.
  - pose proof (controlLng_offset (lat1, lng1) (lat2, lng2)) as Ho. simpl in Ho.
    apply Rabs_le_between in Hd. apply Rabs_le_between. lra.
Qed.

Lemma westward_shift_and_control_point_witness :
  (-180 <= 103.9915 <= 180 /\ -180 <= -122.379 <= 180)
  /\ ((360 - Rabs (-122.379 - 103.9915) < Rabs (-122.379 - 103.9915) ->
        adjustedLng2 103.9915 (-122.379) = -122.379 - 360
        \/ adjustedLng2 103.9915 (-122.379) = -122.379 + 360)
      /\ (Rabs (-122.379 - 103.9915) <= 360 - Rabs (-122.379 - 103.9915) ->
        adjustedLng2 103.9915 (-122.379) = -122.379)
      /\ last (createCurvedPath (1.3644, 103.9915) (37.6213, -122.379))
              (1.3644, 103.9915)
         = (37.6213, adjustedLng2 103.9915 (-122.379))
      /\ Rabs (adjustedLng2 103.9915 (-122.379) - 103.9915) <= 180
      /\ Rabs (controlLng (1.3644, 103.9915) (37.6213, -122.379) - 103.9915)
         <= 360).
Proof.
  assert (H1 : -180 <= 103.9915 <= 180) by lra.
  assert (H2 : -180 <= -122.379 <= 180) by lra.
  split; [split; assumption|].
  exact (westward_shift_and_control_point 1.3644 103.9915 37.6213 (-122.379) H1 H2).
Defined.

Lemma curved_path_sample_count_witness :
  5 <= distance SIN_coord FRA_coord
  /\ List.length (createCurvedPath SIN_coord FRA_coord)
     = S (segments SIN_coord FRA_coord)
  /\ (4 <= List.length (createCurvedPath SIN_coord FRA_coord) <= 9)%nat
  /\ (distance SIN_coord FRA_coord < 40 ->
      List.length (createCurvedPath SIN_coord FRA_coord) = 4%nat)
  /\ (forall k : Z, (3 <= k <= 8)%Z ->
        IZR k * 10 <= distance SIN_coord FRA_coord < (IZR k + 1) * 10 ->
        List.length (createCurvedPath SIN_coord FRA_coord) = S (Z.to_nat k))
  /\ (80 <= distance SIN_coord FRA_coord ->
      List.length (createCurvedPath SIN_coord FRA_coord) = 9%nat).
Proof.
  assert (H5 : 5 <= distance SIN_coord FRA_coord)
    by (pose proof distance_SIN_FRA; lra).
  split; [exact H5|].
  exact (curved_path_sample_count SIN_coord FRA_coord H5).
Defined.

End CurveGeometry.

Section Opacity.

Local Open Scope R_scope.

Lemma fold_max_ge (l : list nat) (a : nat) : (a <= fold_left Nat.max l a)%nat.
Proof.
  revert a. induction l as [|x l IH]; simpl; intros a; [lia|].
  specialize (IH (Nat.max a x)). lia.
Qed.

Lemma fold_max_In (l : list nat) (a x : nat) :
  In x l -> (x <= fold_left Nat.max l a)%nat.
Proof.
  revert a. induction l as [|y l IH]; simpl; intros a; [tauto|].
  intros [->|H].
  - pose proof (fold_max_ge l (Nat.max a x)). lia.
  - now apply IH.
Qed.

Lemma maxCountOf_pos rs : (1 <= maxCountOf rs)%nat.
Proof. unfold maxCountOf. apply fold_max_In. apply in_or_app. right. now left. Qed.

Lemma maxCountOf_ge rs r : In r rs -> (count r <= maxCountOf rs)%nat.
Proof.
  intros H. unfold maxCountOf. apply fold_max_In. apply in_or_app. left.
  now apply in_map.
Qed.

Lemma routes_opacity fl r :
  In r (routes fl) ->
  opacity r
  = Rmin (0.3 + INR (count r)
                / INR (maxCountOf (StrMap.values (fst (routesLoop fl)))) * 0.7) 1.
Proof.
  unfold routes. cbv zeta. intros H.
  apply in_map_iff in H as (r0 & <- & _). reflexivity.
Qed.

Lemma opacity_formula_bounds (c mc : nat) :
  (1 <= mc)%nat -> 0.3 <= Rmin (0.3 + INR c / INR mc * 0.7) 1 <= 1.
Proof.
  intros H. assert (0 < INR mc) by (apply lt_0_INR; lia).
  assert (0 <= INR c) by apply pos_INR.
  assert (0 <= INR c / INR mc).
  { unfold Rdiv. apply Rmult_le_pos; [assumption|].
    left. now apply Rinv_0_lt_compat. }
  split; [apply Rmin_glb; lra | apply Rmin_r].
Qed.

Lemma opacity_formula_mono (c1 c2 mc : nat) :
  (1 <= mc)%nat -> (c1 <= c2)%nat ->
  Rmin (0.3 + INR c1 / INR mc * 0.7) 1 <= Rmin (0.3 + INR c2 / INR mc * 0.7) 1.
Proof.
  intros H Hc. assert (0 < INR mc) by (apply lt_0_INR; lia).
  assert (INR c1 <= INR c2) by now apply le_INR.
  assert (INR c1 / INR mc <= INR c2 / INR mc).
  { unfold Rdiv. apply Rmult_le_compat_r; [|assumption].
    left. now apply Rinv_0_lt_compat. }
  apply Rle_min_compat_r. lra.
Qed.

(** C2.  Every route of an aggregation has an opacity between 0.3 and 1, and
    within one aggregation a route with at least as many flights as another
    has at least its opacity. *)
Theorem route_opacity_bounded_and_monotone (flightList : list FlightData) :
  (forall route, In route (routes flightList) ->
     0.3 <= opacity route <= 1)
  /\ (forall route1 route2,
        In route1 (routes flightList) -> In route2 (routes flightList) ->
        (count route1 <= count route2)%nat ->
        opacity route1 <= opacity route2).
Proof.
  pose proof (maxCountOf_pos (StrMap.values (fst (routesLoop flightList)))) as Hmc.
  split.
  - intros route Hin. rewrite (routes_opacity _ _ Hin).
    now apply opacity_formula_bounds.
  - intros route1 route2 H1 H2 Hc.
    rewrite (routes_opacity _ _ H1), (routes_opacity _ _ H2).
    now apply opacity_formula_mono.
Qed.

End Opacity.

Section ViewportBounds.

Local Open Scope R_scope.

Lemma fold_Rmax_ge (l : list R) (a : R) : a <= fold_left Rmax l a.
Proof.
  revert a. induction l as [|x l IH]; intros a; cbn [fold_left]; [lra|].
  eapply Rle_trans; [apply (Rmax_l a x) | apply IH].
Qed.

Lemma fold_Rmax_upper (l : list R) (a x : R) :
  In x l -> x <= fold_left Rmax l a.
Proof.
  revert a. induction l as [|y l IH]; intros a; cbn [fold_left]; [intros []|].
  intros [->|H].
  - eapply Rle_trans; [apply (Rmax_r a x) | apply fold_Rmax_ge].
  - now apply IH.
Qed.

Lemma fold_Rmax_In (l : list R) (a : R) : In (fold_left Rmax l a) (a :: l).
Proof.
  revert a. induction l as [|x l IH]; intros a; cbn [fold_left]; [now left|].
  destruct (IH (Rmax a x)) as [E|H].
  - rewrite <- E. unfold Rmax. destruct (Rle_dec a x); [right; now left | now left].
  - right. now right.
Qed.

Lemma fold_Rmin_le (l : list R) (a : R) : fold_left Rmin l a <= a.
Proof.
  revert a. induction l as [|x l IH]; intros a; cbn [fold_left]; [lra|].
  eapply Rle_trans; [apply IH | apply Rmin_l].
Qed.

Lemma fold_Rmin_lower (l : list R) (a x : R) :
  In x l -> fold_left Rmin l a <= x.
Proof.
  revert a. induction l as [|y l IH]; intros a; cbn [fold_left]; [intros []|].
  intros [->|H].
  - eapply Rle_trans; [apply fold_Rmin_le | apply Rmin_r].
  - now apply IH.
Qed.

Lemma fold_Rmin_In (l : list R) (a : R) : In (fold_left Rmin l a) (a :: l).
Proof.
  revert a. induction l as [|x l IH]; intros a; cbn [fold_left]; [now left|].
  destruct (IH (Rmin a x)) as [E|H].
  - rewrite <- E. unfold Rmin. destruct (Rle_dec a x); [now left | right; now left].
  - right. now right.
Qed.

Lemma Math_max_upper l x : In x l -> x <= Math_max l.
Proof.
  destruct l as [|a l]; [intros []|]. cbn [Math_max].
  intros [->|H]; [apply fold_Rmax_ge | now apply fold_Rmax_upper].
Qed.

Lemma Math_max_In l : l <> [] -> In (Math_max l) l.
Proof. destruct l as [|a l]; [congruence|]. intros _. apply fold_Rmax_In. Qed.

Lemma Math_min_lower l x : In x l -> Math_min l <= x.
Proof.
  destruct l as [|a l]; [intros []|]. cbn [Math_min].
  intros [->|H]; [apply fold_Rmin_le | now apply fold_Rmin_lower].
Qed.

Lemma Math_min_In l : l <> [] -> In (Math_min l) l.
Proof. destruct l as [|a l]; [congruence|]. intros _. apply fold_Rmin_In. Qed.

(** The maximum of a list is the one element that bounds all others. *)
Lemma Math_max_unique l b : In b l -> (forall x, In x l -> x <= b) -> Math_max l = b.
Proof.
  intros Hb Hub. apply Rle_antisym.
  - apply Hub. apply Math_max_In. intros ->. destruct Hb.
  - now apply Math_max_upper.
Qed.

Lemma Math_min_unique l b : In b l -> (forall x, In x l -> b <= x) -> Math_min l = b.
Proof.
  intros Hb Hlb. apply Rle_antisym.
  - now apply Math_min_lower.
  - apply Hlb. apply Math_min_In. intros ->. destruct Hb.
Qed.

Lemma zoomLevels_spread rs :
  flat_map coordinates rs <> [] ->
  zoomLevels rs = zoomTier (spreadOf (flat_map coordinates rs)).
Proof.
  intros Hne. unfold zoomLevels.
  destruct rs as [|r rs]; [now destruct Hne|].
  cbn [List.length Nat.eqb].
  destruct (flat_map coordinates (r :: rs)) as [|c cs]; [now destruct Hne|].
  reflexivity.
Qed.

Lemma nth_pred_last {A} (l : list A) d :
  nth (List.length l - 1) l d = last l d.
Proof.
  induction l as [|x l IH]; [reflexivity|].
  destruct l as [|y l]; [reflexivity|].
  change (last (x :: y :: l) d) with (last (y :: l) d). rewrite <- IH.
  cbn [List.length].
  replace (S (S (List.length l)) - 1)%nat with (S (List.length l)) by lia.
  replace (S (List.length l) - 1)%nat with (List.length l) by lia.
  reflexivity.
Qed.

Lemma endpointsOf_hd_last r :
  (2 <= List.length (coordinates r))%nat ->
  endpointsOf r = [hd (0, 0) (coordinates r); last (coordinates r) (0, 0)].
Proof.
  intros H. unfold endpointsOf. cbv zeta.
  destruct (Nat.leb_spec 2 (List.length (coordinates r))); [|lia].
  rewrite nth_pred_last. destruct (coordinates r); reflexivity.
Qed.

Lemma endpointsOf_incl r c : In c (endpointsOf r) -> In c (coordinates r).
Proof.
  unfold endpointsOf. cbv zeta.
  destruct (Nat.leb_spec 2 (List.length (coordinates r))); [|intros []].
  intros [<-|[<-|[]]]; apply nth_In; lia.
Qed.

Lemma resampled_endpoints r r' : resampled r r' -> endpointsOf r' = endpointsOf r.
Proof.
  intros (_ & _ & _ & _ & _ & _ & H2 & H2' & Hh & Hl).
  rewrite !endpointsOf_hd_last by assumption. now rewrite Hh, Hl.
Qed.

Lemma resampled_all_endpoints rs rs' :
  Forall2 resampled rs rs' ->
  flat_map endpointsOf rs' = flat_map endpointsOf rs.
Proof.
  induction 1 as [|r r' rs rs' Hr _ IH]; [reflexivity|].
  cbn [flat_map]. now rewrite IH, (resampled_endpoints r r').
Qed.

Lemma mapBounds_resampled rs rs' :
  Forall2 resampled rs rs' -> mapBounds rs' = mapBounds rs.
Proof.
  intros H. unfold mapBounds.
  rewrite (resampled_all_endpoints rs rs' H), (Forall2_length H). reflexivity.
Qed.

Lemma ends_in_coordinates rs c :
  In c (flat_map endpointsOf rs) -> In c (flat_map coordinates rs).
Proof.
  rewrite !in_flat_map. intros (r & Hr & Hc). exists r. split; [exact Hr|].
  now apply endpointsOf_incl.
Qed.

(** Inside the endpoint box, the spread of all samples is the spread of the
    endpoints. *)
Lemma spread_within_box rs :
  flat_map endpointsOf rs <> [] -> withinEndpointBox rs ->
  spreadOf (flat_map coordinates rs) = spreadOf (flat_map endpointsOf rs).
Proof.
  intros Hne Hbox. unfold withinEndpointBox in Hbox. cbv zeta in Hbox.
  rewrite Forall_forall in Hbox.
  set (E := flat_map endpointsOf rs) in *. set (C := flat_map coordinates rs) in *.
  assert (HE1 : map fst E <> []) by (destruct E; [congruence | discriminate]).
  assert (HE2 : map snd E <> []) by (destruct E; [congruence | discriminate]).
  assert (Hsub : forall A (f : LatLng -> A) x, In x (map f E) -> In x (map f C)).
  { intros A f x Hin. apply in_map_iff in Hin as (c & <- & Hc).
    apply in_map. now apply ends_in_coordinates. }
  unfold spreadOf. f_equal; f_equal.
  - apply Math_max_unique; [apply Hsub; now apply Math_max_In|].
    intros x Hx. apply in_map_iff in Hx as (c & <- & Hc). now apply Hbox.
  - apply Math_min_unique; [apply Hsub; now apply Math_min_In|].
    intros x Hx. apply in_map_iff in Hx as (c & <- & Hc). now apply Hbox.
  - apply Math_max_unique; [apply Hsub; now apply Math_max_In|].
    intros x Hx. apply in_map_iff in Hx as (c & <- & Hc). now apply Hbox.
  - apply Math_min_unique; [apply Hsub; now apply Math_min_In|].
    intros x Hx. apply in_map_iff in Hx as (c & <- & Hc). now apply Hbox.
Qed.

Lemma resampled_nonempty_ends rs rs' :
  Forall2 resampled rs rs' -> rs <> [] -> flat_map endpointsOf rs <> [].
Proof.
  intros H Hne. destruct H as [|r r' rs rs' Hr _]; [congruence|].
  destruct Hr as (_ & _ & _ & _ & _ & _ & H2 & _).
  cbn [flat_map]. rewrite endpointsOf_hd_last by exact H2. discriminate.
Qed.


Lemma Rgtb_true x y : Rgtb x y = true <-> y < x.
Proof. apply Rltb_true. Qed.

Lemma Rgtb_false x y : Rgtb x y = false <-> x <= y.
Proof. apply Rltb_false. Qed.

Lemma SIN_CGK_adjusted : adjustedLng2 (snd SIN_coord) (snd CGK_coord) = snd CGK_coord.
Proof.
  apply adjustedLng2_plain. cbn [snd SIN_coord CGK_coord].
  apply Rabs_le_between. lra.
Qed.

Lemma SIN_CGK_distance : 5 <= distance SIN_coord CGK_coord < 8.
Proof.
  unfold distance. cbn [SIN_coord CGK_coord].
  pose proof SIN_CGK_adjusted as E. cbn [snd SIN_coord CGK_coord] in E. rewrite E.
  split.
  - apply sqrt_ge; lra.
  - apply sqrt_lt; lra.
Qed.

Lemma SIN_CGK_northSouth : isEastWest SIN_coord CGK_coord = false.
Proof.
  unfold isEastWest. cbn [SIN_coord CGK_coord].
  pose proof SIN_CGK_adjusted as E. cbn [snd SIN_coord CGK_coord] in E. rewrite E.
  apply Rgtb_false.
  rewrite Rabs_right by lra. rewrite Rabs_left by lra. lra.
Qed.

Lemma SIN_CGK_segments : segments SIN_coord CGK_coord = 3%nat.
Proof. apply segments_short. pose proof SIN_CGK_distance. lra. Qed.

Lemma SIN_CGK_curveFactor : 0 <= curveFactor SIN_coord CGK_coord <= 1.2.
Proof.
  pose proof SIN_CGK_distance as [Hlo Hhi].
  unfold curveFactor. split.
  - apply Rmin_glb; lra.
  - eapply Rle_trans; [apply Rmin_l | lra].
Qed.

Lemma SIN_CGK_path :
  exists e : R, 0 <= e <= 0.36 /\
  createCurvedPath SIN_coord CGK_coord
  = [ SIN_coord;
      (1.3644 + (1 / 3) * (-6.1256 - 1.3644),
       103.9915 + (1 / 3) * (106.6559 - 103.9915) + (4 / 9) * e);
      (1.3644 + (2 / 3) * (-6.1256 - 1.3644),
       103.9915 + (2 / 3) * (106.6559 - 103.9915) + (4 / 9) * e);
      CGK_coord ].
Proof.
  exists (curveFactor SIN_coord CGK_coord * 0.3). split.
  { pose proof SIN_CGK_curveFactor. lra. }
  pose proof SIN_CGK_distance as [Hlo _].
  rewrite createCurvedPath_curved by exact Hlo.
  rewrite SIN_CGK_segments. cbn [seq map].
  rewrite curvePoint_first.
  pose proof curvePoint_last SIN_coord CGK_coord as Hl.
  rewrite SIN_CGK_segments, SIN_CGK_adjusted in Hl. rewrite Hl.
  f_equal. f_equal.
  - unfold curvePoint. rewrite SIN_CGK_segments.
    unfold controlLat, controlLng, curveOffset. rewrite SIN_CGK_northSouth, SIN_CGK_adjusted.
    cbn [SIN_coord CGK_coord fst snd].
    pose proof SIN_CGK_adjusted as E. cbn [snd SIN_coord CGK_coord] in E. rewrite E.
    cbn [INR]. f_equal; field.
  - f_equal.
    unfold curvePoint. rewrite SIN_CGK_segments.
    unfold controlLat, controlLng, curveOffset. rewrite SIN_CGK_northSouth, SIN_CGK_adjusted.
    cbn [SIN_coord CGK_coord fst snd].
    pose proof SIN_CGK_adjusted as E. cbn [snd SIN_coord CGK_coord] in E. rewrite E.
    cbn [INR]. f_equal; field.
Qed.

End ViewportBounds.

Section ViewportExample.

Local Open Scope string_scope.
Local Open Scope R_scope.

Lemma viewportFlights_routes :
  exists route, routes viewportFlights = [route]
    /\ coordinates route = createCurvedPath SIN_coord CGK_coord.
Proof. eexists. split; reflexivity. Qed.

Lemma zoomTier_local s : s <= 10 -> zoomTier s = mkZoomLevels 5 18 6.
Proof.
  intros H. unfold zoomTier.
  rewrite !(proj2 (Rgtb_false _ _)) by lra. reflexivity.
Qed.

Lemma zoomTier_continental s : 60 < s <= 120 -> zoomTier s = mkZoomLevels 2 18 3.
Proof.
  intros H. unfold zoomTier.
  rewrite (proj2 (Rgtb_false s 120)) by lra.
  rewrite (proj2 (Rgtb_true s 60)) by lra. reflexivity.
Qed.

Lemma resampled_withCoordinates route coords :
  (2 <= List.length (coordinates route))%nat -> (2 <= List.length coords)%nat ->
  hd (0, 0) coords = hd (0, 0) (coordinates route) ->
  last coords (0, 0) = last (coordinates route) (0, 0) ->
  resampled route (withCoordinates coords route).
Proof. intros. unfold resampled. cbn. repeat split; assumption. Qed.

Lemma bentRoutes_resampled : Forall2 resampled (routes viewportFlights) bentRoutes.
Proof.
  unfold bentRoutes.
  destruct viewportFlights_routes as (route & -> & Hc).
  destruct SIN_CGK_path as (e & _ & Hp). rewrite Hp in Hc.
  constructor; [|constructor].
  apply resampled_withCoordinates; try rewrite Hc; cbn; (lia || reflexivity).
Qed.

Lemma straightenedRoutes_resampled :
  Forall2 resampled (routes viewportFlights) straightenedRoutes.
Proof.
  unfold straightenedRoutes.
  destruct viewportFlights_routes as (route & -> & Hc).
  destruct SIN_CGK_path as (e & _ & Hp). rewrite Hp in Hc.
  constructor; [|constructor].
  assert (He : endpointsOf route = [SIN_coord; CGK_coord]).
  { rewrite endpointsOf_hd_last; rewrite Hc; cbn; (lia || reflexivity). }
  rewrite He.
  apply resampled_withCoordinates; try rewrite Hc; cbn; (lia || reflexivity).
Qed.

(** Closes [forall x, In x l -> x <= b] (or [b <= x]) on an explicit list. *)
Ltac list_bound :=
  let x := fresh "x" in let Hx := fresh "Hx" in
  intros x Hx; cbn [In] in Hx;
  repeat (destruct Hx as [<-|Hx]; [lra|]); destruct Hx.

Ltac list_member := cbn [In]; auto 10.

Lemma viewportFlights_zoom : zoomLevels (routes viewportFlights) = mkZoomLevels 5 18 6.
Proof.
  destruct viewportFlights_routes as (route & -> & Hc).
  destruct SIN_CGK_path as (e & He & Hp). rewrite Hp in Hc.
  rewrite zoomLevels_spread by (cbn [flat_map]; rewrite Hc; discriminate).
  apply zoomTier_local. unfold spreadOf. cbn [flat_map]. rewrite Hc.
  cbn [app map fst snd SIN_coord CGK_coord].
  rewrite (Math_max_unique _ 1.3644) by first [solve [list_member] | list_bound].
  rewrite (Math_min_unique _ (-6.1256)) by first [solve [list_member] | list_bound].
  rewrite (Math_max_unique _ 106.6559) by first [solve [list_member] | list_bound].
  rewrite (Math_min_unique _ 103.9915) by first [solve [list_member] | list_bound].
  apply Rmax_lub; lra.
Qed.

Lemma bentRoutes_zoom : zoomLevels bentRoutes = mkZoomLevels 2 18 3.
Proof.
  unfold bentRoutes. destruct viewportFlights_routes as (route & -> & _).
  cbn [map].
  rewrite zoomLevels_spread by (cbn; discriminate).
  apply zoomTier_continental. unfold spreadOf.
  cbn [flat_map withCoordinates coordinates app map fst snd SIN_coord CGK_coord].
  rewrite (Math_max_unique _ 60) by first [solve [list_member] | list_bound].
  rewrite (Math_min_unique _ (-6.1256)) by first [solve [list_member] | list_bound].
  rewrite (Math_max_unique _ 106.6559) by first [solve [list_member] | list_bound].
  rewrite (Math_min_unique _ 103.9915) by first [solve [list_member] | list_bound].
  split.
  - eapply Rlt_le_trans; [|apply Rmax_l]. lra.
  - apply Rmax_lub; lra.
Qed.


Lemma SIN_CGK_box (coords : list LatLng) :
  Forall (fun c => -6.1256 <= fst c <= 1.3644 /\ 103.9915 <= snd c <= 106.6559) coords ->
  Forall (fun c =>
            Math_min (map fst [SIN_coord; CGK_coord]) <= fst c
              <= Math_max (map fst [SIN_coord; CGK_coord])
            /\ Math_min (map snd [SIN_coord; CGK_coord]) <= snd c
              <= Math_max (map snd [SIN_coord; CGK_coord]))
    coords.
Proof.
  cbn [map fst snd SIN_coord CGK_coord].
  rewrite (Math_max_unique _ 1.3644) by first [solve [list_member] | list_bound].
  rewrite (Math_min_unique _ (-6.1256)) by first [solve [list_member] | list_bound].
  rewrite (Math_max_unique _ 106.6559) by first [solve [list_member] | list_bound].
  rewrite (Math_min_unique _ 103.9915) by first [solve [list_member] | list_bound].
  auto.
Qed.

Lemma viewportFlights_within_box : withinEndpointBox (routes viewportFlights).
Proof.
  unfold withinEndpointBox. cbv zeta.
  destruct viewportFlights_routes as (route & -> & Hc).
  destruct SIN_CGK_path as (e & He & Hp). rewrite Hp in Hc.
  assert (Hends : endpointsOf route = [SIN_coord; CGK_coord]).
  { rewrite endpointsOf_hd_last; rewrite Hc; cbn; (lia || reflexivity). }
  cbn [flat_map]. rewrite Hends, Hc, !app_nil_r.
  apply SIN_CGK_box.
  repeat (apply Forall_cons; [cbn [fst snd SIN_coord CGK_coord]; lra|]).
  apply Forall_nil.
Qed.

Lemma straightenedRoutes_within_box : withinEndpointBox straightenedRoutes.
Proof.
  unfold withinEndpointBox, straightenedRoutes. cbv zeta.
  destruct viewportFlights_routes as (route & -> & Hc).
  destruct SIN_CGK_path as (e & He & Hp). rewrite Hp in Hc.
  assert (Hends : endpointsOf route = [SIN_coord; CGK_coord]).
  { rewrite endpointsOf_hd_last; rewrite Hc; cbn; (lia || reflexivity). }
  cbn [map flat_map]. rewrite Hends.
  assert (Hends' : endpointsOf (withCoordinates [SIN_coord; CGK_coord] route)
                   = [SIN_coord; CGK_coord]) by reflexivity.
  rewrite Hends'. cbn [withCoordinates coordinates]. rewrite !app_nil_r.
  apply SIN_CGK_box.
  repeat (apply Forall_cons; [cbn [fst snd SIN_coord CGK_coord]; lra|]).
  apply Forall_nil.
Qed.


End ViewportExample.

Section RouteTotals.

Lemma routesStep_paths m w f :
  Forall pathOk m -> Forall pathOk (fst (routesStep (m, w) f)).
Proof.
  intros F. unfold routesStep.
  destruct (airportAt (origin f)) as [a|] eqn:Ha; [|exact F].
  destruct (airportAt (destination f)) as [b|] eqn:Hb; [|exact F].
  destruct (StrMap.get (routeKeyOf (origin f) (destination f)) m) as [r|] eqn:G1.
  - unfold fst. destruct (get_Some_split _ _ _ G1) as (m1 & m2 & -> & Hn).
    rewrite set_split by exact Hn.
    apply Forall_app in F as [F1 F2]. inversion F2 as [|? ? Hr F2']; subst.
    apply Forall_app. split; [exact F1|]. constructor; [|exact F2'].
    exact Hr.
  - destruct (StrMap.get (routeKeyOf (destination f) (origin f)) m) as [r|] eqn:G2.
    + unfold fst. destruct (get_Some_split _ _ _ G2) as (m1 & m2 & -> & Hn).
      rewrite set_split by exact Hn.
      apply Forall_app in F as [F1 F2]. inversion F2 as [|? ? Hr F2']; subst.
      apply Forall_app. split; [exact F1|]. constructor; [|exact F2'].
      exact Hr.
    + unfold fst. rewrite set_fresh by exact G1.
      apply Forall_app. split; [exact F|]. constructor; [|constructor].
      exists a, b. cbn [snd from to coordinates]. auto.
Qed.

Lemma routesLoop_paths fl : Forall pathOk (fst (routesLoop fl)).
Proof.
  induction fl as [|f fl IH] using rev_ind; [constructor|].
  rewrite routesLoop_snoc. destruct (routesLoop fl) as [m w].
  now apply routesStep_paths.
Qed.

Lemma totalCount_app rs1 rs2 : totalCount (rs1 ++ rs2) = totalCount rs1 + totalCount rs2.
Proof. unfold totalCount. now rewrite map_app, list_sum_app. Qed.

Lemma values_app {V} (m1 m2 : StrMap.t V) :
  StrMap.values (m1 ++ m2) = StrMap.values m1 ++ StrMap.values m2.
Proof. apply map_app. Qed.

Lemma routesStep_total m w f :
  totalCount (StrMap.values (fst (routesStep (m, w) f)))
  = totalCount (StrMap.values m) + (if bothKnown f then 1 else 0).
Proof.
  destruct (bothKnown f) eqn:Hv.
  - destruct (bothKnown_airports f Hv) as (a & b & Ha & Hb).
    unfold routesStep. rewrite Ha, Hb.
    destruct (StrMap.get (routeKeyOf (origin f) (destination f)) m) as [r|] eqn:G1.
    + unfold fst. destruct (get_Some_split _ _ _ G1) as (m1 & m2 & -> & Hn).
      rewrite set_split by exact Hn.
      rewrite !values_app, !totalCount_app. unfold totalCount. cbn. lia.
    + destruct (StrMap.get (routeKeyOf (destination f) (origin f)) m) as [r|] eqn:G2.
      * unfold fst. destruct (get_Some_split _ _ _ G2) as (m1 & m2 & -> & Hn).
        rewrite set_split by exact Hn.
        rewrite !values_app, !totalCount_app. unfold totalCount. cbn. lia.
      * unfold fst. rewrite set_fresh by exact G1.
        rewrite values_app, totalCount_app. unfold totalCount. cbn. lia.
  - rewrite routesStep_skip by exact Hv. cbn [fst]. lia.
Qed.

Lemma routesLoop_total fl :
  totalCount (StrMap.values (fst (routesLoop fl))) = List.length (filter bothKnown fl).
Proof.
  induction fl as [|f fl IH] using rev_ind; [reflexivity|].
  rewrite routesLoop_snoc. destruct (routesLoop fl) as [m w].
  rewrite routesStep_total. cbn [fst] in IH. rewrite IH.
  rewrite filter_app, length_app. cbn [filter].
  destruct (bothKnown f); reflexivity.
Qed.

Lemma totalCount_withOpacity mc rs :
  totalCount (map (withOpacity mc) rs) = totalCount rs.
Proof.
  unfold totalCount. rewrite map_map. reflexivity.
Qed.

Lemma totalCount_ge_length rs :
  Forall (fun r => 1 <= count r) rs -> List.length rs <= totalCount rs.
Proof.
  induction 1 as [|r rs Hr _ IH]; [reflexivity|].
  unfold totalCount, list_sum in *. cbn [map fold_right List.length]. lia.
Qed.

Lemma route_counts_nil (flightList : list FlightData) :
  (routes flightList = [] -> filter bothKnown flightList = [])
  /\ (filter bothKnown flightList = [] -> routes flightList = []).
Proof.
  split.
  - intros E. pose proof (routesLoop_total flightList) as H.
    assert (Hr : routes flightList = map (withOpacity (maxCountOf (StrMap.values (fst (routesLoop flightList))))) (StrMap.values (fst (routesLoop flightList)))) by reflexivity.
    rewrite E in Hr. symmetry in Hr. apply map_eq_nil in Hr. rewrite Hr in H.
    cbn in H. destruct (filter bothKnown flightList); [reflexivity | discriminate].
  - intros E. rewrite routes_skip_unknown, E. reflexivity.
Qed.

Lemma routes_count_pos fl : Forall (fun r => 1 <= count r) (routes fl).
Proof.
  unfold routes. cbv zeta. rewrite Forall_map.
  pose proof (inv_entries _ _ (routesInv_loop fl)) as F.
  unfold StrMap.values. rewrite Forall_map.
  eapply Forall_impl; [|exact F].
  intros e (_ & _ & _ & _ & _ & Hc & Hne). cbn [count withOpacity].
  rewrite Hc. destruct (flights (snd e)); [congruence | cbn; lia].
Qed.

Lemma routes_total fl : totalCount (routes fl) = List.length (filter bothKnown fl).
Proof.
  unfold routes. cbv zeta. rewrite totalCount_withOpacity. apply routesLoop_total.
Qed.

Lemma routes_count_le fl :
  List.length (routes fl) <= List.length (filter bothKnown fl).
Proof.
  rewrite <- routes_total. apply totalCount_ge_length, routes_count_pos.
Qed.


End RouteTotals.

Section RouteShape.
Local Open Scope R_scope.

Lemma createCurvedPath_ends from to :
  hd (0, 0) (createCurvedPath from to) = from
  /\ last (createCurvedPath from to) (0, 0)
     = (fst to, adjustedLng2 (snd from) (snd to))
  /\ (2 <= List.length (createCurvedPath from to))%nat.
Proof.
  destruct (Rlt_dec (distance from to) 5) as [H|H].
  - rewrite createCurvedPath_straight by exact H. cbn. auto.
  - assert (H5 : 5 <= distance from to) by lra.
    rewrite createCurvedPath_curved by exact H5.
    split; [|split].
    + cbn [seq map hd]. apply curvePoint_first.
    + rewrite last_map_seq. apply curvePoint_last.
    + rewrite length_map, length_seq.
      pose proof (segments_bounds from to). lia.
Qed.

Lemma routes_from_loop fl route :
  In route (routes fl) ->
  exists e, In e (fst (routesLoop fl))
    /\ route = withOpacity (maxCountOf (StrMap.values (fst (routesLoop fl)))) (snd e).
Proof.
  unfold routes. cbv zeta. intros H.
  apply in_map_iff in H as (r & <- & H).
  unfold StrMap.values in H. apply in_map_iff in H as (e & <- & H).
  now exists e.
Qed.

Lemma route_facts fl route :
  In route (routes fl) ->
  (1 <= count route)%nat /\ (2 <= List.length (coordinates route))%nat.
Proof.
  intros Hin. destruct (routes_from_loop _ _ Hin) as (e & He & ->).
  pose proof (inv_entries _ _ (routesInv_loop fl)) as F.
  rewrite Forall_forall in F.
  destruct (F e He) as (_ & _ & _ & _ & _ & Hc & Hne).
  pose proof (routesLoop_paths fl) as P. rewrite Forall_forall in P.
  destruct (P e He) as (a & b & _ & _ & Hp).
  cbn [withOpacity count coordinates]. split.
  - rewrite Hc. destruct (flights (snd e)); [congruence | cbn; lia].
  - rewrite Hp. apply createCurvedPath_ends.
Qed.



Lemma fold_max_value (l : list nat) (a : nat) :
  fold_left Nat.max l a = a \/ In (fold_left Nat.max l a) l.
Proof.
  revert a. induction l as [|x l IH]; intros a; cbn [fold_left]; [now left|].
  destruct (IH (Nat.max a x)) as [E|H].
  - rewrite E. destruct (Nat.max_dec a x) as [->| ->]; [now left | right; now left].
  - right. now right.
Qed.

(** X3.  When there is a route at all, a route with the largest count is drawn
    with opacity 1. *)
Theorem busiest_route_is_opaque (flightList : list FlightData) :
  routes flightList <> [] ->
  exists route,
    In route (routes flightList)
    /\ opacity route = 1
    /\ forall other, In other (routes flightList) ->
         (count other <= count route)%nat.
Proof.
  intros Hne.
  set (rs := StrMap.values (fst (routesLoop flightList))).
  assert (Hr : routes flightList = map (withOpacity (maxCountOf rs)) rs) by reflexivity.
  assert (Hcount : forall r, In r (routes flightList) ->
            (1 <= count r <= maxCountOf rs)%nat).
  { intros r Hin. split; [apply (route_facts flightList r Hin)|].
    rewrite Hr in Hin. apply in_map_iff in Hin as (r0 & <- & Hin).
    cbn [withOpacity count]. now apply maxCountOf_ge. }
  assert (Hmax : exists r, In r (routes flightList) /\ count r = maxCountOf rs).
  { pose proof (maxCountOf_pos rs) as Hpos.
    destruct (fold_max_value (map count rs ++ [1%nat]) 0%nat) as [E|H].
    - unfold maxCountOf in Hpos. lia.
    - fold (maxCountOf rs) in H. apply in_app_or in H as [H|[H|[]]].
      + apply in_map_iff in H as (r0 & E & Hin).
        exists (withOpacity (maxCountOf rs) r0). split; [|exact E].
        rewrite Hr. now apply in_map.
      + destruct (routes flightList) as [|r rest] eqn:E; [congruence|].
        exists r. split; [now left|].
        specialize (Hcount r (or_introl eq_refl)). lia. }
  destruct Hmax as (r & Hin & Hc). exists r. split; [exact Hin|]. split.
  - rewrite (routes_opacity _ _ Hin). fold rs. rewrite Hc.
    assert (0 < INR (maxCountOf rs)) by (apply lt_0_INR; pose proof (maxCountOf_pos rs); lia).
    replace (INR (maxCountOf rs) / INR (maxCountOf rs)) with 1 by (field; lra).
    replace (0.3 + 1 * 0.7) with 1 by lra. apply Rmin_left. lra.
  - intros other Ho. rewrite Hc. apply (Hcount other Ho).
Qed.

Lemma busiest_route_is_opaque_witness :
  routes demoFlights <> []
  /\ exists route,
       In route (routes demoFlights)
       /\ opacity route = 1
       /\ forall other, In other (routes demoFlights) ->
            (count other <= count route)%nat.
Proof.
  assert (H : routes demoFlights <> []) by discriminate.
  split; [exact H|]. exact (busiest_route_is_opaque demoFlights H).
Defined.

End RouteShape.

Section ViewportLimits.
Local Open Scope R_scope.

Lemma zoomTier_limits s :
  maxZoom (zoomTier s) = 18%nat
  /\ (2 <= minZoom (zoomTier s) <= 5)%nat
  /\ (minZoom (zoomTier s) <= initialZoom (zoomTier s)
      <= minZoom (zoomTier s) + 1)%nat.
Proof.
  unfold zoomTier.
  destruct (Rgtb s 120); [cbn; lia|].
  destruct (Rgtb s 60); [cbn; lia|].
  destruct (Rgtb s 30); [cbn; lia|].
  destruct (Rgtb s 10); cbn; lia.
Qed.

Lemma zoomTier_eq s :
  zoomTier s =
  if Rlt_dec 120 s then mkZoomLevels 2 18 2
  else if Rlt_dec 60 s then mkZoomLevels 2 18 3
  else if Rlt_dec 30 s then mkZoomLevels 3 18 4
  else if Rlt_dec 10 s then mkZoomLevels 4 18 5
  else mkZoomLevels 5 18 6.
Proof.
  unfold zoomTier, Rgtb, Rltb.
  destruct (Rlt_dec 120 s); [reflexivity|].
  destruct (Rlt_dec 60 s); [reflexivity|].
  destruct (Rlt_dec 30 s); [reflexivity|].
  destruct (Rlt_dec 10 s); reflexivity.
Qed.

Lemma zoomTier_antitone s1 s2 :
  s1 <= s2 ->
  (initialZoom (zoomTier s2) <= initialZoom (zoomTier s1))%nat
  /\ (minZoom (zoomTier s2) <= minZoom (zoomTier s1))%nat.
Proof.
  intros H. rewrite !zoomTier_eq.
  destruct (Rlt_dec 120 s1), (Rlt_dec 120 s2); try lra; try (cbn; lia);
  destruct (Rlt_dec 60 s1), (Rlt_dec 60 s2); try lra; try (cbn; lia);
  destruct (Rlt_dec 30 s1), (Rlt_dec 30 s2); try lra; try (cbn; lia);
  destruct (Rlt_dec 10 s1), (Rlt_dec 10 s2); try lra; try (cbn; lia).
Qed.

Lemma zoomLevels_no_coordinates rs :
  flat_map coordinates rs = [] -> zoomLevels rs = mkZoomLevels 2 18 2.
Proof.
  intros H. unfold zoomLevels. destruct rs as [|r rs]; [reflexivity|].
  cbn [List.length Nat.eqb]. rewrite H. reflexivity.
Qed.

(** X4.  For every list of routes the zoom limits are well-formed: the
    maximum is 18, the minimum lies between 2 and 5, and the initial zoom is
    the minimum or one more, hence below the maximum. *)
Theorem zoom_levels_limits (routesValue : list Route) :
  maxZoom (zoomLevels routesValue) = 18%nat
  /\ (2 <= minZoom (zoomLevels routesValue) <= 5)%nat
  /\ (minZoom (zoomLevels routesValue) <= initialZoom (zoomLevels routesValue)
      <= minZoom (zoomLevels routesValue) + 1)%nat
  /\ (initialZoom (zoomLevels routesValue) < maxZoom (zoomLevels routesValue))%nat.
Proof.
  assert (H : maxZoom (zoomLevels routesValue) = 18%nat
    /\ (2 <= minZoom (zoomLevels routesValue) <= 5)%nat
    /\ (minZoom (zoomLevels routesValue) <= initialZoom (zoomLevels routesValue)
        <= minZoom (zoomLevels routesValue) + 1)%nat).
  { destruct (flat_map coordinates routesValue) as [|c cs] eqn:E.
    - rewrite zoomLevels_no_coordinates by exact E. cbn. lia.
    - rewrite zoomLevels_spread by (rewrite E; discriminate).
      apply zoomTier_limits. }
  destruct H as (H1 & H2 & H3). repeat split; try lia.
Qed.

(** X5.  Of two non-empty sets of route coordinates, the one with the wider
    spread gets an initial zoom and a minimum zoom that are no larger. *)
Theorem wider_spread_never_zooms_in (near far : list Route) :
  flat_map coordinates near <> [] -> flat_map coordinates far <> [] ->
  spreadOf (flat_map coordinates near) <= spreadOf (flat_map coordinates far) ->
  (initialZoom (zoomLevels far) <= initialZoom (zoomLevels near))%nat
  /\ (minZoom (zoomLevels far) <= minZoom (zoomLevels near))%nat.
Proof.
  intros Hn Hf Hs. rewrite !zoomLevels_spread by assumption.
  now apply zoomTier_antitone.
Qed.

Ltac list_bound' :=
  let x := fresh "x" in let Hx := fresh "Hx" in
  intros x Hx; cbn [In] in Hx;
  repeat (destruct Hx as [<-|Hx]; [lra|]); destruct Hx.

Ltac list_member' := cbn [In]; auto 10.

Lemma viewportFlights_spread :
  flat_map coordinates (routes viewportFlights) <> []
  /\ spreadOf (flat_map coordinates (routes viewportFlights)) <= 10.
Proof.
  destruct viewportFlights_routes as (route & -> & Hc).
  destruct SIN_CGK_path as (e & He & Hp). rewrite Hp in Hc.
  cbn [flat_map]. rewrite Hc. split; [discriminate|].
  unfold spreadOf.
  cbn [app map fst snd SIN_coord CGK_coord].
  rewrite (Math_max_unique _ 1.3644) by first [solve [list_member'] | list_bound'].
  rewrite (Math_min_unique _ (-6.1256)) by first [solve [list_member'] | list_bound'].
  rewrite (Math_max_unique _ 106.6559) by first [solve [list_member'] | list_bound'].
  rewrite (Math_min_unique _ 103.9915) by first [solve [list_member'] | list_bound'].
  apply Rmax_lub; lra.
Qed.

Lemma bentRoutes_spread :
  flat_map coordinates bentRoutes <> []
  /\ 60 < spreadOf (flat_map coordinates bentRoutes).
Proof.
  unfold bentRoutes. destruct viewportFlights_routes as (route & -> & _).
  cbn [map]. split; [cbn; discriminate|].
  unfold spreadOf.
  cbn [flat_map withCoordinates coordinates app map fst snd SIN_coord CGK_coord].
  rewrite (Math_max_unique _ 60) by first [solve [list_member'] | list_bound'].
  rewrite (Math_min_unique _ (-6.1256)) by first [solve [list_member'] | list_bound'].
  rewrite (Math_max_unique _ 106.6559) by first [solve [list_member'] | list_bound'].
  rewrite (Math_min_unique _ 103.9915) by first [solve [list_member'] | list_bound'].
  eapply Rlt_le_trans; [|apply Rmax_l]. lra.
Qed.

Lemma wider_spread_never_zooms_in_witness :
  (initialZoom (zoomLevels bentRoutes)
     <= initialZoom (zoomLevels (routes viewportFlights)))%nat
  /\ (minZoom (zoomLevels bentRoutes)
     <= minZoom (zoomLevels (routes viewportFlights)))%nat.
Proof.
  destruct viewportFlights_spread as [Hn Hs].
  destruct bentRoutes_spread as [Hf Hb].
  apply (wider_spread_never_zooms_in (routes viewportFlights) bentRoutes Hn Hf).
  lra.
Defined.

End ViewportLimits.

Section BoundsBox.
Local Open Scope R_scope.

Lemma mapBounds_None rs :
  mapBounds rs = None <-> flat_map endpointsOf rs = [].
Proof.
  unfold mapBounds. destruct rs as [|r rs]; [now split|].
  cbn [List.length Nat.eqb].
  destruct (flat_map endpointsOf (r :: rs)) as [|c cs] eqn:E; [now split|].
  cbn [List.length Nat.eqb]. cbv zeta.
  destruct (_ && _); cbv beta iota; split; discriminate.
Qed.

Lemma endpointsOf_route flightList route :
  In route (routes flightList) -> endpointsOf route <> [].
Proof.
  intros Hin. destruct (route_facts flightList route Hin) as [_ Hlen].
  unfold endpointsOf. cbv zeta.
  destruct (2 <=? List.length (coordinates route))%nat eqn:E; [discriminate|].
  apply Nat.leb_gt in E. lia.
Qed.


(** The two longitude classes of [mapBounds] split every longitude. *)
Lemma wrapped_or_normal lng :
  (Rltb lng (-180) || Rgtb lng 180) = negb (Rgeb lng (-180) && Rleb lng 180).
Proof.
  unfold Rgeb, Rgtb.
  destruct (Rltb lng (-180)) eqn:A, (Rleb (-180) lng) eqn:B,
           (Rltb 180 lng) eqn:C, (Rleb lng 180) eqn:D; try reflexivity;
  try apply Rltb_true in A; try apply Rltb_false in A;
  try apply Rleb_true in B; try apply Rleb_false in B;
  try apply Rltb_true in C; try apply Rltb_false in C;
  try apply Rleb_true in D; try apply Rleb_false in D; lra.
Qed.

Lemma nonempty_length {A} (l : list A) :
  (0 <? List.length l)%nat = true <-> l <> [].
Proof.
  destruct l; cbn; split; intros; try congruence; try discriminate; auto.
Qed.

Lemma padding_bounds x : 2 <= Rmax (Rmin x 5) 2 <= 5.
Proof.
  split; [apply Rmax_r|]. apply Rmax_lub; [apply Rmin_r | lra].
Qed.

Lemma latPadding_bounds x : 2 <= Rmax (Rmin x 8) 2 <= 8.
Proof.
  split; [apply Rmax_r|]. apply Rmax_lub; [apply Rmin_r | lra].
Qed.

(** What [mapBounds] returns, with the locals named. *)
Lemma mapBounds_Some rs sw ne :
  mapBounds rs = Some (sw, ne) ->
  let ends := flat_map endpointsOf rs in
  let lngs := map snd ends in
  let normalLngs := filter (fun lng => Rgeb lng (-180) && Rleb lng 180) lngs in
  let wrappedLngs := filter (fun lng => Rltb lng (-180) || Rgtb lng 180) lngs in
  ends <> []
  /\ (exists latPadding, 2 <= latPadding <= 8
        /\ fst sw = Math_min (map fst ends) - latPadding
        /\ fst ne = Math_max (map fst ends) + latPadding)
  /\ (exists minLng maxLng lngPadding, 2 <= lngPadding <= 5
        /\ snd sw = minLng - lngPadding /\ snd ne = maxLng + lngPadding
        /\ ((wrappedLngs <> [] /\ normalLngs <> []
             /\ minLng = Rmax (Math_min normalLngs - 10) (-180)
             /\ maxLng = Rmin (Math_max wrappedLngs + 10) 360)
            \/ ((wrappedLngs = [] \/ normalLngs = [])
                /\ minLng = Math_min lngs /\ maxLng = Math_max lngs))).
Proof.
  intros Hb ends lngs normalLngs wrappedLngs.
  unfold mapBounds in Hb. destruct rs as [|r rs]; [discriminate|].
  cbn [List.length Nat.eqb] in Hb. fold ends in Hb.
  destruct (List.length ends =? 0)%nat eqn:E; [discriminate|].
  cbv zeta in Hb. fold lngs in Hb. fold normalLngs in Hb. fold wrappedLngs in Hb.
  split; [intros E0; rewrite E0 in E; discriminate|].
  destruct (0 <? List.length wrappedLngs)%nat eqn:Hw;
  destruct (0 <? List.length normalLngs)%nat eqn:Hn;
  cbv beta iota in Hb; cbn [andb] in Hb; cbv beta iota in Hb;
  injection Hb as <- <-; cbn [fst snd];
  (split; [eexists; split; [apply latPadding_bounds | split; reflexivity]|]);
  do 3 eexists; (split; [apply padding_bounds|]);
  (split; [reflexivity|]); (split; [reflexivity|]).
  - left. apply nonempty_length in Hw, Hn. auto.
  - right. split; [right|auto].
    destruct normalLngs; [reflexivity | discriminate].
  - right. split; [left|auto].
    destruct wrappedLngs; [reflexivity | discriminate].
  - right. split; [left|auto].
    destruct wrappedLngs; [reflexivity | discriminate].
Qed.

Lemma route_endpoints fl route :
  In route (routes fl) ->
  exists a b,
    airportAt (from route) = Some a /\ airportAt (to route) = Some b
    /\ endpointsOf route
       = [(info_lat a, info_lng a);
          (info_lat b, adjustedLng2 (info_lng a) (info_lng b))].
Proof.
  intros Hin. destruct (routes_from_loop _ _ Hin) as (e & He & ->).
  pose proof (routesLoop_paths fl) as P. rewrite Forall_forall in P.
  destruct (P e He) as (a & b & Ha & Hb & Hp).
  exists a, b. cbn [withOpacity from to]. split; [exact Ha|]. split; [exact Hb|].
  destruct (createCurvedPath_ends (info_lat a, info_lng a) (info_lat b, info_lng b))
    as (H1 & H2 & H3).
  rewrite endpointsOf_hd_last; cbn [withOpacity coordinates]; rewrite Hp;
    [|exact H3].
  now rewrite H1, H2.
Qed.

Lemma in_normal lngs x :
  In x lngs -> -180 <= x <= 180 ->
  In x (filter (fun lng => Rgeb lng (-180) && Rleb lng 180) lngs).
Proof.
  intros Hin Hx. apply filter_In. split; [exact Hin|].
  unfold Rgeb. apply andb_true_iff. split; apply Rleb_true; lra.
Qed.

Lemma in_wrapped lngs x :
  In x lngs -> x < -180 \/ 180 < x ->
  In x (filter (fun lng => Rltb lng (-180) || Rgtb lng 180) lngs).
Proof.
  intros Hin Hx. apply filter_In. split; [exact Hin|].
  unfold Rgtb. apply orb_true_iff.
  destruct Hx; [left | right]; apply Rltb_true; lra.
Qed.

Lemma normal_range lngs x :
  In x (filter (fun lng => Rgeb lng (-180) && Rleb lng 180) lngs) ->
  In x lngs /\ -180 <= x <= 180.
Proof.
  intros H. apply filter_In in H as [Hin H]. split; [exact Hin|].
  unfold Rgeb in H. apply andb_true_iff in H as [H1 H2].
  apply Rleb_true in H1, H2. lra.
Qed.

Lemma wrapped_range lngs x :
  In x (filter (fun lng => Rltb lng (-180) || Rgtb lng 180) lngs) ->
  In x lngs /\ (x < -180 \/ 180 < x).
Proof.
  intros H. apply filter_In in H as [Hin H]. split; [exact Hin|].
  unfold Rgtb in H. apply orb_true_iff in H as [H|H]; apply Rltb_true in H; auto.
Qed.

Lemma bounds_hold_latitude rs sw ne c :
  mapBounds rs = Some (sw, ne) -> In c (flat_map endpointsOf rs) ->
  fst sw + 2 <= fst c <= fst ne - 2.
Proof.
  intros Hb Hc.
  destruct (mapBounds_Some _ _ _ Hb) as (_ & (lp & Hlp & Hs & Hn) & _).
  assert (Hlat : In (fst c) (map fst (flat_map endpointsOf rs))) by now apply in_map.
  pose proof (Math_min_lower _ _ Hlat). pose proof (Math_max_upper _ _ Hlat).
  lra.
Qed.

Lemma bounds_hold_longitude rs sw ne :
  mapBounds rs = Some (sw, ne) ->
  (forall c, In c (flat_map endpointsOf rs) -> -180 <= snd c <= 360) ->
  forall c, In c (flat_map endpointsOf rs) ->
    snd sw + 2 <= snd c <= snd ne - 2.
Proof.
  intros Hb Hrange c Hc.
  destruct (mapBounds_Some _ _ _ Hb)
    as (Hne & _ & (lo & hi & gp & Hgp & Hw & He & Hcase)).
  set (ends := flat_map endpointsOf rs) in *.
  assert (Hlng : In (snd c) (map snd ends)) by now apply in_map.
  rewrite Hw, He.
  destruct Hcase as [(Hwne & Hnne & -> & ->) | (_ & -> & ->)].
  - pose proof (Math_min_In _ Hnne) as Hmin. apply normal_range in Hmin as [_ Hmin].
    pose proof (Math_max_In _ Hwne) as Hmax. apply wrapped_range in Hmax as [Hmaxin Hmax].
    apply in_map_iff in Hmaxin as (d & Hd & Hdin).
    pose proof (Hrange d Hdin) as Hdr. rewrite Hd in Hdr.
    assert (Hhi : 180 < Math_max (filter (fun lng => Rltb lng (-180) || Rgtb lng 180)
                                     (map snd ends)) <= 360) by lra.
    pose proof (Hrange c Hc) as Hcr.
    assert (Hwest : Rmax (Math_min (filter (fun lng => Rgeb lng (-180) && Rleb lng 180)
                                      (map snd ends)) - 10) (-180) <= snd c).
    { apply Rmax_lub; [|lra].
      destruct (Rle_dec (snd c) 180) as [Hn180|Hn180].
      - assert (Hin : In (snd c) (filter (fun lng => Rgeb lng (-180) && Rleb lng 180)
                                    (map snd ends)))
          by (apply in_normal; [exact Hlng | lra]).
        pose proof (Math_min_lower _ _ Hin). lra.
      - lra. }
    assert (Heast : snd c <= Rmin (Math_max (filter (fun lng => Rltb lng (-180) || Rgtb lng 180)
                                      (map snd ends)) + 10) 360).
    { apply Rmin_glb; [|lra].
      destruct (Rle_dec (snd c) 180) as [Hn180|Hn180]; [lra|].
      assert (Hin : In (snd c) (filter (fun lng => Rltb lng (-180) || Rgtb lng 180)
                                  (map snd ends)))
        by (apply in_wrapped; [exact Hlng | right; lra]).
      pose proof (Math_max_upper _ _ Hin). lra. }
    lra.
  - pose proof (Math_min_lower _ _ Hlng). pose proof (Math_max_upper _ _ Hlng). lra.
Qed.


(** X8.  A route endpoint whose longitude was shifted below -185 lies west of
    the bounds as soon as some endpoint has a longitude in [-180, 180]: the
    west edge is never below -185 then. *)
Theorem west_shifted_endpoint_outside_bounds
    (routesValue : list Route) (southwest northeast shifted plain : LatLng) :
  mapBounds routesValue = Some (southwest, northeast) ->
  In shifted (flat_map endpointsOf routesValue) ->
  In plain (flat_map endpointsOf routesValue) ->
  snd shifted < -185 -> -180 <= snd plain <= 180 ->
  snd shifted < snd southwest.
Proof.
  intros Hb Hs Hp Hlow Hmid.
  destruct (mapBounds_Some _ _ _ Hb)
    as (Hne & _ & (lo & hi & gp & Hgp & Hw & He & Hcase)).
  set (ends := flat_map endpointsOf routesValue) in *.
  assert (Hsl : In (snd shifted) (map snd ends)) by now apply in_map.
  assert (Hpl : In (snd plain) (map snd ends)) by now apply in_map.
  assert (Hwin : In (snd shifted)
                   (filter (fun lng => Rltb lng (-180) || Rgtb lng 180) (map snd ends)))
    by (apply in_wrapped; [exact Hsl | left; lra]).
  pose proof (in_normal _ _ Hpl Hmid) as Hnin.
  destruct Hcase as [(_ & _ & Hlo & Hhi) | ([E|E] & _)];
    [| rewrite E in Hwin; destruct Hwin | rewrite E in Hnin; destruct Hnin].
  rewrite Hw, Hlo.
  pose proof (Rmax_r (Math_min (filter (fun lng => Rgeb lng (-180) && Rleb lng 180)
                                      (map snd ends)) - 10) (-180)).
  lra.
Qed.

Lemma pacificFlights_endpoints :
  flat_map endpointsOf (routes pacificFlights)
  = [(37.6213, -122.379); (35.7647, 140.3864 - 360)].
Proof.
  assert (H : exists r, routes pacificFlights = [r] /\ from r = "SFO"%string
                        /\ to r = "NRT"%string)
    by (eexists; repeat split; reflexivity).
  destruct H as (r & E & Hf & Ht).
  assert (Hin : In r (routes pacificFlights)) by (rewrite E; now left).
  destruct (route_endpoints _ _ Hin) as (a & b & Ha & Hb & He).
  rewrite Hf in Ha. rewrite Ht in Hb.
  assert (Ha' : airportAt "SFO"
                = Some (mkAirportInfo "SFO" 37.6213 (-122.379)
                          "San Francisco International Airport"
                          "San Francisco" "USA")) by reflexivity.
  assert (Hb' : airportAt "NRT"
                = Some (mkAirportInfo "NRT" 35.7647 140.3864
                          "Narita International Airport" "Tokyo" "Japan"))
    by reflexivity.
  rewrite Ha' in Ha. rewrite Hb' in Hb.
  injection Ha as <-. injection Hb as <-.
  rewrite E. cbn [flat_map]. rewrite He, app_nil_r.
  cbn [info_lat info_lng].
  destruct (adjustedLng2_cases (-122.379) 140.3864) as [[H _] | [[_ ->] | [H _]]].
  - apply Rabs_le_between in H. lra.
  - reflexivity.
  - lra.
Qed.

Lemma west_shifted_endpoint_outside_bounds_witness :
  exists southwest northeast,
    mapBounds (routes pacificFlights) = Some (southwest, northeast)
    /\ 140.3864 - 360 < snd southwest.
Proof.
  pose proof pacificFlights_endpoints as He.
  destruct (mapBounds (routes pacificFlights)) as [[sw ne]|] eqn:Hb.
  - exists sw, ne. split; [reflexivity|].
    apply (west_shifted_endpoint_outside_bounds (routes pacificFlights) sw ne
             (35.7647, 140.3864 - 360) (37.6213, -122.379) Hb).
    + rewrite He. right. now left.
    + rewrite He. now left.
    + cbn [snd]. lra.
    + cbn [snd]. lra.
  - apply mapBounds_None in Hb. rewrite He in Hb. discriminate.
Defined.

Lemma viewportFlights_endpoints :
  flat_map endpointsOf (routes viewportFlights) = [SIN_coord; CGK_coord].
Proof.
  destruct viewportFlights_routes as (route & -> & Hc).
  destruct SIN_CGK_path as (e & He & Hp). rewrite Hp in Hc.
  cbn [flat_map]. rewrite app_nil_r.
  rewrite endpointsOf_hd_last; rewrite Hc; cbn; (lia || reflexivity).
Qed.


End BoundsBox.

Section AirportList.
Local Open Scope string_scope.

Lemma length_append (a b : string) :
  String.length (a ++ b) = (String.length a + String.length b)%nat.
Proof. induction a as [|c a IH]; cbn; [reflexivity | now rewrite IH]. Qed.

Lemma append_cancel_r (a b s : string) : a ++ s = b ++ s -> a = b.
Proof.
  revert b. induction a as [|c a IH]; intros [|d b] H; cbn in H.
  - reflexivity.
  - apply (f_equal String.length) in H. cbn in H. rewrite length_append in H. lia.
  - apply (f_equal String.length) in H. cbn in H. rewrite length_append in H. lia.
  - injection H as -> H. f_equal. now apply IH.
Qed.

Lemma processAirport_fromTable c m :
  Forall fromTable m -> Forall fromTable (processAirport c m).
Proof.
  intros F. unfold processAirport.
  destruct (airportAt c) as [data|] eqn:Hc; [|exact F].
  destruct (StrMap.get c m) as [existing|] eqn:G.
  - destruct (get_Some_split _ _ _ G) as (m1 & m2 & -> & Hn).
    rewrite set_split by exact Hn.
    apply Forall_app in F as [F1 F2]. inversion F2 as [|? ? Hx F2']; subst.
    apply Forall_app. split; [exact F1|]. constructor; [|exact F2'].
    destruct Hx as (d & H0 & H1 & H2 & H3 & H4 & H5).
    exists d. cbn [fst snd lat lng name city country] in *. auto 10.
  - rewrite set_fresh by exact G.
    apply Forall_app. split; [exact F|]. constructor; [|constructor].
    exists data. cbn [fst snd lat lng name city country]. auto 10.
Qed.

Lemma airports_fold_fromTable fl : forall m ws,
  Forall fromTable m -> Forall fromTable (fst (fold_left airportsStep fl (m, ws))).
Proof.
  induction fl as [|f fl IH]; intros m ws F; [exact F|].
  cbn [fold_left]. rewrite (surjective_pairing (airportsStep (m, ws) f)).
  apply IH. rewrite airportsStep_fst. now do 2 apply processAirport_fromTable.
Qed.

Lemma airportsStep_snd m ws f :
  snd (airportsStep (m, ws) f)
  = if crossesDateLine f then setAdd (destination f) ws else ws.
Proof.
  unfold airportsStep, crossesDateLine.
  destruct (airportAt (origin f)) as [o|], (airportAt (destination f)) as [d|];
    try reflexivity.
  destruct (shouldGoWestward (info_lng o) (info_lng d)); reflexivity.
Qed.

Lemma setAdd_In x s k : In k (setAdd x s) <-> In k s \/ k = x.
Proof.
  unfold setAdd. destruct (existsb (String.eqb x) s) eqn:E.
  - split; [now left|]. intros [H| ->]; [exact H|].
    apply existsb_exists in E as (y & Hy & Heq). apply String.eqb_eq in Heq.
    now subst.
  - rewrite in_app_iff. cbn [In]. split.
    + intros [H|[<-|[]]]; auto.
    + intros [H| ->]; auto.
Qed.

Lemma setAdd_NoDup x s : NoDup s -> NoDup (setAdd x s).
Proof.
  intros H. unfold setAdd. destruct (existsb (String.eqb x) s) eqn:E; [exact H|].
  apply NoDup_app; [exact H | constructor; [intros [] | constructor] |].
  intros a Ha [Hx|[]]. subst a.
  assert (existsb (String.eqb x) s = true)
    by (apply existsb_exists; exists x; split; [exact Ha | apply String.eqb_refl]).
  congruence.
Qed.

Lemma airports_fold_wrapped fl : forall seen m ws,
  wrappedOk seen ws ->
  wrappedOk (seen ++ fl) (snd (fold_left airportsStep fl (m, ws))).
Proof.
  induction fl as [|f fl IH]; intros seen m ws H.
  - cbn. now rewrite app_nil_r.
  - cbn [fold_left]. rewrite (surjective_pairing (airportsStep (m, ws) f)).
    replace (seen ++ f :: fl)%list with ((seen ++ [f]) ++ fl)%list
      by now rewrite <- app_assoc.
    apply IH. rewrite airportsStep_snd. destruct H as [Hnd Hin].
    destruct (crossesDateLine f) eqn:Hx.
    + split; [now apply setAdd_NoDup|].
      intros k. rewrite setAdd_In, Hin. split.
      * intros [(g & Hg & Hd & Hc)| ->].
        -- exists g. rewrite in_app_iff. auto.
        -- exists f. rewrite in_app_iff. cbn [In]. auto.
      * intros (g & Hg & Hd & Hc). apply in_app_or in Hg as [Hg|[<-|[]]].
        -- left. now exists g.
        -- now right.
    + split; [exact Hnd|].
      intros k. rewrite Hin. split.
      * intros (g & Hg & Hd & Hc). exists g. rewrite in_app_iff. auto.
      * intros (g & Hg & Hd & Hc). apply in_app_or in Hg as [Hg|[<-|[]]].
        -- now exists g.
        -- congruence.
Qed.

(** What the first pass of [airports] leaves behind. *)
Lemma airports_first_pass fl :
  exists m ws,
    fold_left airportsStep fl ([], []) = (m, ws)
    /\ airportsInv (endpointCodes fl) m
    /\ Forall fromTable m
    /\ wrappedOk fl ws.
Proof.
  destruct (fold_left airportsStep fl ([], [])) as [m ws] eqn:E.
  exists m, ws. split; [reflexivity|].
  assert (E1 : fst (fold_left airportsStep fl ([], [])) = m) by now rewrite E.
  assert (E2 : snd (fold_left airportsStep fl ([], [])) = ws) by now rewrite E.
  split; [|split].
  - rewrite <- E1. apply (airports_fold_inv fl [] [] [] airportsInv_nil).
  - rewrite <- E1. apply airports_fold_fromTable. constructor.
  - rewrite <- E2. apply (airports_fold_wrapped fl [] [] []).
    split; [constructor|]. intros k. split; [intros [] | intros (f & [] & _)].
Qed.

Lemma airports_unfold fl m ws :
  fold_left airportsStep fl ([], []) = (m, ws) ->
  airports fl =
  match mapBounds (routes fl) with
  | Some (southwest, northeast) =>
      (filter (fun airport =>
                 Rgeb (lng airport) (snd southwest)
                 && Rleb (lng airport) (snd northeast))
         (StrMap.values m)
       ++ flat_map
            (fun airportCode =>
               match StrMap.get airportCode m with
               | Some originalAirport =>
                   wrappedCopy (snd southwest) (snd northeast) originalAirport
               | None => []
               end) ws)%list
  | None => StrMap.values m
  end.
Proof.
  intros E. unfold airports. rewrite E.
  destruct (mapBounds (routes fl)) as [[sw ne]|]; reflexivity.
Qed.

Lemma values_codes (codes : list string) (m : StrMap.t Airport) :
  Forall (airportOk codes) m -> map code (StrMap.values m) = StrMap.keys m.
Proof.
  intros F. unfold StrMap.values, StrMap.keys. rewrite map_map.
  apply map_ext_in. intros e He. rewrite Forall_forall in F.
  apply (F e He).
Qed.

(** Filtering a list of airports keeps their codes distinct. *)
Lemma filtered_codes_distinct (keep : Airport -> bool) (l : list Airport) :
  NoDup (map code l) -> NoDup (map code (filter keep l)).
Proof.
  induction l as [|a l IH]; cbn [map filter]; [auto|].
  intros H. inversion H as [|? ? Ha Hl]; subst.
  destruct (keep a); [|now apply IH].
  cbn [map]. constructor; [|now apply IH].
  intros Hin. apply Ha. apply in_map_iff in Hin as (b & Hb & Hin).
  apply filter_In in Hin as [Hin _]. apply in_map_iff. now exists b.
Qed.

Lemma wrappedCopy_code lo hi a b :
  In b (wrappedCopy lo hi a) ->
  code b = code a ++ "-wrapped" /\ displayCode b = code a
  /\ lat b = lat a /\ name b = name a /\ city b = city a
  /\ country b = country a /\ flightCount b = flightCount a
  /\ (lng b = (lng a + 360)%R \/ lng b = (lng a - 360)%R)
  /\ (lo <= lng b <= hi)%R.
Proof.
  unfold wrappedCopy. cbv zeta.
  destruct (Rgeb _ lo && Rleb _ hi) eqn:E; [|intros []].
  intros [<-|[]]. cbn [code displayCode lat lng name city country flightCount].
  apply andb_true_iff in E as [E1 E2]. unfold Rgeb in E1.
  apply Rleb_true in E1, E2.
  repeat split; try assumption.
  destruct (Rltb (lng a) 0); [now left | now right].
Qed.

Lemma wrapped_codes_NoDup codes lo hi (m : StrMap.t Airport) ws :
  Forall (airportOk codes) m -> NoDup ws ->
  NoDup (map code
           (flat_map (fun k => match StrMap.get k m with
                               | Some a => wrappedCopy lo hi a
                               | None => []
                               end) ws)).
Proof.
  intros F. induction 1 as [|k ws Hk Hnd IH]; [constructor|].
  cbn [flat_map]. rewrite map_app. apply NoDup_app; [| exact IH |].
  - destruct (StrMap.get k m) as [a|]; [|constructor].
    unfold wrappedCopy. cbv zeta. destruct (_ && _); cbn; repeat constructor; auto.
  - intros c Hc Hc'.
    destruct (StrMap.get k m) as [a|] eqn:G; [|destruct Hc].
    apply in_map_iff in Hc as (b & <- & Hb).
    apply wrappedCopy_code in Hb as (Hb & _).
    apply get_Some_In in G. rewrite Forall_forall in F.
    destruct (F _ G) as (Hka & _). cbn [fst snd] in Hka.
    apply in_map_iff in Hc' as (b' & Hbb & Hb').
    apply in_flat_map in Hb' as (k' & Hk' & Hb').
    destruct (StrMap.get k' m) as [a'|] eqn:G'; [|destruct Hb'].
    apply wrappedCopy_code in Hb' as (Hb' & _).
    apply get_Some_In in G'. destruct (F _ G') as (Hka' & _). cbn [fst snd] in Hka'.
    rewrite Hb, Hb', Hka, Hka' in Hbb. apply append_cancel_r in Hbb.
    subst k'. contradiction.
Qed.


Lemma original_listed fl m ws a :
  fold_left airportsStep fl ([], []) = (m, ws) ->
  In a (StrMap.values m) ->
  (forall sw ne, mapBounds (routes fl) = Some (sw, ne) ->
     (snd sw <= lng a <= snd ne)%R) ->
  In a (airports fl).
Proof.
  intros E Hin Hbox. rewrite (airports_unfold _ _ _ E).
  destruct (mapBounds (routes fl)) as [[sw ne]|]; [|exact Hin].
  apply in_or_app. left. apply filter_In. split; [exact Hin|].
  specialize (Hbox sw ne eq_refl). unfold Rgeb.
  apply andb_true_iff. split; apply Rleb_true; lra.
Qed.

(** X11.  An airport of the table that some flight names as origin or
    destination is listed with the coordinates and names of the table and
    the number of flights naming it, provided its longitude lies within the
    bounds (or there are no bounds). *)
Theorem used_airport_is_listed
    (flightList : list FlightData) (airportCode : string) (data : AirportInfo) :
  airportAt airportCode = Some data ->
  (0 < endpointUses airportCode flightList)%nat ->
  (forall southwest northeast,
     mapBounds (routes flightList) = Some (southwest, northeast) ->
     (snd southwest <= info_lng data <= snd northeast)%R) ->
  exists airport,
    In airport (airports flightList)
    /\ code airport = airportCode /\ displayCode airport = airportCode
    /\ lat airport = info_lat data /\ lng airport = info_lng data
    /\ name airport = info_name data /\ city airport = info_city data
    /\ country airport = info_country data
    /\ flightCount airport = endpointUses airportCode flightList.
Proof.
  intros Hc Hused Hbox.
  destruct (airports_first_pass flightList) as (m & ws & E & [He Hk Ha] & Ht & _).
  assert (Hkn : known airportCode = true) by (apply known_airportAt; now exists data).
  destruct (StrMap.get airportCode m) as [a|] eqn:G.
  2:{ pose proof (Ha airportCode Hkn G) as H0.
      rewrite <- endpointUses_count in H0. lia. }
  apply get_Some_In in G.
  rewrite Forall_forall in He, Ht.
  destruct (He _ G) as (H1 & H2 & _ & H4).
  destruct (Ht _ G) as (d & Hd & L1 & L2 & L3 & L4 & L5).
  cbn [fst snd] in *. rewrite Hc in Hd. injection Hd as <-.
  exists a.
  assert (Hin : In a (StrMap.values m)).
  { unfold StrMap.values. apply in_map_iff. now exists (airportCode, a). }
  split.
  { apply (original_listed _ _ _ _ E Hin). intros sw ne Hb. rewrite L2. eauto. }
  rewrite endpointUses_count. auto 10.
Qed.

Lemma viewportFlights_box southwest northeast :
  mapBounds (routes viewportFlights) = Some (southwest, northeast) ->
  (snd southwest <= 103.9915 <= snd northeast)%R.
Proof.
  intros Hb.
  assert (Hin : In SIN_coord (flat_map endpointsOf (routes viewportFlights)))
    by (rewrite viewportFlights_endpoints; now left).
  pose proof (bounds_hold_longitude _ _ _ Hb) as H.
  rewrite viewportFlights_endpoints in H.
  assert (Hr : forall c, In c [SIN_coord; CGK_coord] -> (-180 <= snd c <= 360)%R).
  { intros c [<-|[<-|[]]]; cbn [snd SIN_coord CGK_coord]; lra. }
  specialize (H Hr SIN_coord (or_introl eq_refl)). cbn [snd SIN_coord] in H. lra.
Qed.

Lemma used_airport_is_listed_witness :
  exists airport,
    In airport (airports viewportFlights)
    /\ code airport = "SIN" /\ displayCode airport = "SIN"
    /\ lat airport = 1.3644%R /\ lng airport = 103.9915%R
    /\ name airport = "Singapore Changi Airport" /\ city airport = "Singapore"
    /\ country airport = "Singapore"
    /\ flightCount airport = 1%nat.
Proof.
  assert (Hc : airportAt "SIN"
               = Some (mkAirportInfo "SIN" 1.3644 103.9915
                         "Singapore Changi Airport" "Singapore" "Singapore"))
    by reflexivity.
  assert (Hu : (0 < endpointUses "SIN" viewportFlights)%nat) by (cbn; lia).
  exact (used_airport_is_listed viewportFlights "SIN" _ Hc Hu viewportFlights_box).
Defined.


Lemma changiAirport_listed : In changiAirport (airports viewportFlights).
Proof.
  destruct (fold_left airportsStep viewportFlights ([], [])) as [m ws] eqn:E.
  assert (Hm : m = processAirport "CGK" (processAirport "SIN" [])).
  { change m with (fst (m, ws)). rewrite <- E.
    cbn [viewportFlights fold_left]. apply airportsStep_fst. }
  apply (original_listed _ m ws _ E).
  - rewrite Hm. left. reflexivity.
  - intros sw ne Hb. cbn [lng changiAirport]. now apply viewportFlights_box.
Qed.


End AirportList.

Section Panel.
Local Open Scope R_scope.

Lemma filter_false {A} (p : A -> bool) (l : list A) :
  (forall x, In x l -> p x = false) -> filter p l = [].
Proof.
  induction l as [|x l IH]; intros H; [reflexivity|].
  cbn [filter]. rewrite (H x (or_introl eq_refl)). apply IH.
  intros y Hy. apply H. now right.
Qed.

Lemma flat_map_nil {A B} (f : A -> list B) (l : list A) :
  (forall x, In x l -> f x = []) -> flat_map f l = [].
Proof.
  induction l as [|x l IH]; intros H; [reflexivity|].
  cbn [flat_map]. rewrite (H x (or_introl eq_refl)). apply IH.
  intros y Hy. apply H. now right.
Qed.

(** X9.  When the east edge of the bounds lies west of the west edge,
    [airports] lists nothing, neither an airport nor a wrapped copy. *)
Theorem inverted_bounds_list_no_airport
    (flightList : list FlightData) (southwest northeast : LatLng) :
  mapBounds (routes flightList) = Some (southwest, northeast) ->
  snd northeast < snd southwest ->
  airports flightList = [].
Proof.
  intros Hb Hinv.
  destruct (airports_first_pass flightList) as (m & ws & E & _).
  rewrite (airports_unfold _ _ _ E), Hb.
  rewrite filter_false, flat_map_nil; [reflexivity | |].
  - intros k _. destruct (StrMap.get k m) as [a|]; [|reflexivity].
    unfold wrappedCopy. cbv zeta.
    destruct (Rgeb _ (snd southwest) && Rleb _ (snd northeast)) eqn:B; [|reflexivity].
    apply andb_true_iff in B as [B1 B2]. unfold Rgeb in B1.
    apply Rleb_true in B1, B2. lra.
  - intros a _. apply andb_false_iff.
    destruct (Rle_dec (snd southwest) (lng a)) as [H|H].
    + right. apply Rleb_false. lra.
    + left. unfold Rgeb. apply Rleb_false. lra.
Qed.

Lemma pacificFlights_bounds southwest northeast :
  mapBounds (routes pacificFlights) = Some (southwest, northeast) ->
  -138 <= snd southwest /\ snd northeast <= -204.
Proof.
  intros Hb.
  destruct (mapBounds_Some _ _ _ Hb)
    as (_ & _ & (lo & hi & gp & Hgp & Hw & He & Hcase)).
  rewrite pacificFlights_endpoints in Hcase. cbn [map snd] in Hcase.
  assert (Hn : In (-122.379)
                 (filter (fun lng => Rgeb lng (-180) && Rleb lng 180)
                    [-122.379; 140.3864 - 360]))
    by (apply in_normal; [now left | lra]).
  assert (Hx : In (140.3864 - 360)
                 (filter (fun lng => Rltb lng (-180) || Rgtb lng 180)
                    [-122.379; 140.3864 - 360]))
    by (apply in_wrapped; [right; now left | left; lra]).
  destruct Hcase as [(Hwne & Hnne & Hlo & Hhi) | ([E|E] & _)];
    [| rewrite E in Hx; destruct Hx | rewrite E in Hn; destruct Hn].
  pose proof (Math_min_In _ Hnne) as Hmin.
  apply normal_range in Hmin as [Hmin Hr].
  pose proof (Math_max_In _ Hwne) as Hmax.
  apply wrapped_range in Hmax as [Hmax Hr'].
  assert (Emin : Math_min (filter (fun lng => Rgeb lng (-180) && Rleb lng 180)
                             [-122.379; 140.3864 - 360]) = -122.379).
  { destruct Hmin as [<-|[H|[]]]; [reflexivity | lra]. }
  assert (Emax : Math_max (filter (fun lng => Rltb lng (-180) || Rgtb lng 180)
                             [-122.379; 140.3864 - 360]) = 140.3864 - 360).
  { destruct Hmax as [H|[<-|[]]]; [lra | reflexivity]. }
  rewrite Emin in Hlo. rewrite Emax in Hhi.
  assert (lo = -122.379 - 10) by (rewrite Hlo; apply Rmax_left; lra).
  assert (hi = 140.3864 - 360 + 10) by (rewrite Hhi; apply Rmin_left; lra).
  lra.
Qed.

Lemma inverted_bounds_list_no_airport_witness :
  exists southwest northeast,
    mapBounds (routes pacificFlights) = Some (southwest, northeast)
    /\ snd northeast < snd southwest
    /\ airports pacificFlights = [].
Proof.
  destruct (mapBounds (routes pacificFlights)) as [[sw ne]|] eqn:Hb.
  - exists sw, ne. split; [reflexivity|].
    destruct (pacificFlights_bounds sw ne Hb) as [H1 H2].
    assert (Hinv : snd ne < snd sw) by lra.
    split; [exact Hinv|].
    exact (inverted_bounds_list_no_airport pacificFlights sw ne Hb Hinv).
  - apply mapBounds_None in Hb. rewrite pacificFlights_endpoints in Hb.
    discriminate.
Defined.

Lemma nodup_length_le (l : list string) :
  (List.length (nodup string_dec l) <= List.length l)%nat.
Proof.
  induction l as [|x l IH]; [reflexivity|].
  cbn [nodup]. destruct (in_dec string_dec x l); cbn [List.length]; lia.
Qed.

Lemma nodup_nil_iff (l : list string) : nodup string_dec l = [] <-> l = [].
Proof.
  split; [|now intros ->].
  destruct l as [|x l]; [reflexivity|]. intros H. exfalso.
  assert (Hx : In x (nodup string_dec (x :: l))) by (apply nodup_In; now left).
  rewrite H in Hx. destruct Hx.
Qed.


End Panel.

End FlightMapTheory.

(** * The flight map with straight routes: proofs *)

Module FlightMapPlainTheory.

Import FlightMap StrMapFacts FlightMapTheory.

Local Open Scope string_scope.

Section PlainRoutes.

Lemma airportAt_plain c a :
  FlightMapPlain.airportAt c = Some a -> airportAt c = Some a.
Proof.
  unfold FlightMapPlain.airportAt, airportAt, FlightMapPlain.AIRPORT_COORDINATES.
  intros H. rewrite <- (firstn_skipn 26 AIRPORT_COORDINATES).
  destruct (get_Some_split _ _ _ H) as (m1 & m2 & E & Hn).
  rewrite E, <- app_assoc. cbn [app]. now apply get_app_Some.
Qed.

Lemma plain_bothKnown f :
  FlightMapPlain.bothKnown f = true -> bothKnown f = true.
Proof.
  unfold FlightMapPlain.bothKnown, FlightMapPlain.known, bothKnown, known.
  destruct (FlightMapPlain.airportAt (origin f)) as [a|] eqn:Ha; [|discriminate].
  destruct (FlightMapPlain.airportAt (destination f)) as [b|] eqn:Hb; [|discriminate].
  now rewrite (airportAt_plain _ _ Ha), (airportAt_plain _ _ Hb).
Qed.

Lemma relatedBy_get {V1 V2} (R : V1 -> V2 -> Prop) k m1 m2 :
  FlightMapPlain.relatedBy R m1 m2 ->
  match StrMap.get k m1, StrMap.get k m2 with
  | Some v1, Some v2 => R v1 v2
  | None, None => True
  | _, _ => False
  end.
Proof.
  induction 1 as [|[k1 r1] [k2 r2] m1 m2 [Hk Hs] _ IH]; [exact I|].
  cbn [fst snd] in Hk, Hs. subst k2. cbn [StrMap.get].
  destruct (String.eqb k1 k); [exact Hs | exact IH].
Qed.

Lemma relatedBy_set {V1 V2} (R : V1 -> V2 -> Prop) k r1 r2 m1 m2 :
  FlightMapPlain.relatedBy R m1 m2 -> R r1 r2 ->
  FlightMapPlain.relatedBy R (StrMap.set k r1 m1) (StrMap.set k r2 m2).
Proof.
  intros H Hr.
  induction H as [|[k1 v1] [k2 v2] m1 m2 [Hk Hs] Hrest IH].
  - constructor; [split; [reflexivity | exact Hr] | constructor].
  - cbn [fst snd] in Hk, Hs. subst k2. cbn [StrMap.set].
    destruct (String.eqb k1 k).
    + constructor; [split; [reflexivity | exact Hr] | exact Hrest].
    + constructor; [split; [reflexivity | exact Hs] | exact IH].
Qed.

Lemma relatedBy_keys {V1 V2} (R : V1 -> V2 -> Prop) m1 m2 :
  FlightMapPlain.relatedBy R m1 m2 -> StrMap.keys m2 = StrMap.keys m1.
Proof.
  induction 1 as [|e1 e2 m1 m2 [Hk _] _ IH]; [reflexivity|].
  unfold StrMap.keys in *. cbn [map]. now rewrite Hk, IH.
Qed.

Lemma alike_step m1 m2 w1 w2 f :
  FlightMapPlain.bothKnown f = true -> FlightMapPlain.alike m1 m2 ->
  FlightMapPlain.alike (fst (routesStep (m1, w1) f))
    (fst (FlightMapPlain.routesStep (m2, w2) f)).
Proof.
  intros Hv Hal.
  unfold FlightMapPlain.bothKnown, FlightMapPlain.known in Hv.
  destruct (FlightMapPlain.airportAt (origin f)) as [a|] eqn:Ha; [|discriminate].
  destruct (FlightMapPlain.airportAt (destination f)) as [b|] eqn:Hb; [|discriminate].
  unfold routesStep, FlightMapPlain.routesStep.
  rewrite Ha, Hb, (airportAt_plain _ _ Ha), (airportAt_plain _ _ Hb).
  pose proof (relatedBy_get _ (routeKeyOf (origin f) (destination f)) _ _ Hal) as G1.
  pose proof (relatedBy_get _ (routeKeyOf (destination f) (origin f)) _ _ Hal) as G2.
  assert (Hadd : forall r1 r2,
            FlightMapPlain.curvedSummary r1 = FlightMapPlain.summary r2 ->
            FlightMapPlain.curvedSummary (addFlight r1 f)
            = FlightMapPlain.summary (FlightMapPlain.addFlight r2 f)).
  { intros r1 r2 E. unfold FlightMapPlain.curvedSummary, FlightMapPlain.summary in *.
    cbn. congruence. }
  cbv beta in G1, G2.
  destruct (StrMap.get (routeKeyOf (origin f) (destination f)) m1) as [r1|],
           (StrMap.get (routeKeyOf (origin f) (destination f)) m2) as [r2|];
    try contradiction.
  - unfold fst. apply relatedBy_set; [exact Hal | now apply Hadd].
  - destruct (StrMap.get (routeKeyOf (destination f) (origin f)) m1) as [r1|],
             (StrMap.get (routeKeyOf (destination f) (origin f)) m2) as [r2|];
      try contradiction.
    + unfold fst. apply relatedBy_set; [exact Hal | now apply Hadd].
    + unfold fst. apply relatedBy_set; [exact Hal | reflexivity].
Qed.

Lemma plain_step_skip m w f :
  FlightMapPlain.bothKnown f = false ->
  fst (FlightMapPlain.routesStep (m, w) f) = m.
Proof.
  unfold FlightMapPlain.bothKnown, FlightMapPlain.known, FlightMapPlain.routesStep.
  destruct (FlightMapPlain.airportAt (origin f)),
           (FlightMapPlain.airportAt (destination f)); try reflexivity.
  discriminate.
Qed.

Lemma alike_fold fl : forall m1 m2 w1 w2,
  FlightMapPlain.alike m1 m2 ->
  FlightMapPlain.alike (fst (fold_left routesStep (filter FlightMapPlain.bothKnown fl) (m1, w1)))
        (fst (fold_left FlightMapPlain.routesStep fl (m2, w2))).
Proof.
  induction fl as [|f fl IH]; intros m1 m2 w1 w2 H; [exact H|].
  cbn [filter fold_left].
  destruct (FlightMapPlain.bothKnown f) eqn:Hv.
  - cbn [fold_left].
    rewrite (surjective_pairing (routesStep (m1, w1) f)).
    rewrite (surjective_pairing (FlightMapPlain.routesStep (m2, w2) f)).
    apply IH. now apply alike_step.
  - rewrite (surjective_pairing (FlightMapPlain.routesStep (m2, w2) f)).
    rewrite plain_step_skip by exact Hv. now apply IH.
Qed.

Lemma alike_values m1 m2 :
  FlightMapPlain.alike m1 m2 ->
  map FlightMapPlain.summary (StrMap.values m2)
  = map FlightMapPlain.curvedSummary (StrMap.values m1).
Proof.
  induction 1 as [|e1 e2 m1 m2 [_ Hs] _ IH]; [reflexivity|].
  unfold StrMap.values in *. cbn [map]. rewrite Hs. f_equal. exact IH.
Qed.

(** The straight variant stores, route by route, what the curved variant
    stores for the flights whose airports the smaller table holds. *)
Lemma plain_routes_summaries fl :
  map FlightMapPlain.summary (FlightMapPlain.routes fl)
  = map FlightMapPlain.curvedSummary
      (StrMap.values (fst (routesLoop (filter FlightMapPlain.bothKnown fl)))).
Proof.
  unfold FlightMapPlain.routes, routesLoop.
  apply alike_values. apply alike_fold. constructor.
Qed.

Lemma map_filter_through {A B} (g : A -> B) (p : B -> bool) (l : list A) :
  map g (filter (fun x => p (g x)) l) = filter p (map g l).
Proof.
  induction l as [|x l IH]; [reflexivity|].
  cbn [filter map]. destruct (p (g x)); cbn [map]; now rewrite IH.
Qed.

Lemma plain_known A : FlightMapPlain.known A = true -> known A = true.
Proof.
  unfold FlightMapPlain.known, known.
  destruct (FlightMapPlain.airportAt A) as [a|] eqn:Ha; [|discriminate].
  now rewrite (airportAt_plain _ _ Ha).
Qed.

Lemma between_plain A B fl :
  FlightMapPlain.known A = true -> FlightMapPlain.known B = true ->
  filter (between A B) (filter FlightMapPlain.bothKnown fl) = filter (between A B) fl.
Proof.
  intros HA HB. induction fl as [|f fl IH]; [reflexivity|].
  cbn [filter]. destruct (FlightMapPlain.bothKnown f) eqn:Hv.
  - cbn [filter]. now rewrite IH.
  - rewrite IH. destruct (between A B f) eqn:Hb; [|reflexivity].
    exfalso. unfold between, samePair in Hb.
    unfold FlightMapPlain.bothKnown in Hv.
    apply orb_true_iff in Hb as [Hb|Hb]; apply andb_true_iff in Hb as [H1 H2];
      apply String.eqb_eq in H1, H2; subst; rewrite ?HA, ?HB in Hv; discriminate.
Qed.

(** X14.  The variant with straight routes merges the two directions as well:
    for two airports [A] and [B] of its table it holds at most one route
    joining them, that route carries exactly the submitted flights between
    them, in either direction and in their order, its count is their
    number, and it exists as soon as one such flight was submitted. *)
Theorem plain_routes_merge_directions (flightList : list FlightData)
    (A B : string) :
  FlightMapPlain.known A = true -> FlightMapPlain.known B = true ->
  let merged :=
    filter (FlightMapPlain.connects A B) (FlightMapPlain.routes flightList) in
  let submitted := filter (between A B) flightList in
  (List.length merged <= 1)%nat
  /\ (forall route, In route merged ->
        FlightMapPlain.flights route = submitted
        /\ FlightMapPlain.count route = List.length submitted)
  /\ (submitted <> [] -> List.length merged = 1%nat).
Proof.
  intros HA HB merged submitted. subst merged submitted.
  set (fl' := filter FlightMapPlain.bothKnown flightList).
  set (rs1 := StrMap.values (fst (routesLoop fl'))).
  pose proof (routesInv_loop fl') as Hinv.
  set (p := fun t : string * string * string * nat * list FlightData =>
              let '(_, f, t0, _, _) := t in samePair A B f t0).
  assert (Hmap : map FlightMapPlain.summary
                   (filter (FlightMapPlain.connects A B) (FlightMapPlain.routes flightList))
                 = map FlightMapPlain.curvedSummary (filter (connects A B) rs1)).
  { rewrite (map_filter_through FlightMapPlain.summary p).
    rewrite (map_filter_through FlightMapPlain.curvedSummary p).
    now rewrite plain_routes_summaries. }
  assert (Hlen : List.length (filter (FlightMapPlain.connects A B)
                                 (FlightMapPlain.routes flightList))
                 = List.length (filter (connects A B) rs1)).
  { rewrite <- (length_map FlightMapPlain.summary), Hmap. apply length_map. }
  rewrite Hlen.
  pose proof (at_most_one_connecting A B _ (inv_distinct _ _ Hinv)) as Hle.
  split; [exact Hle|]. split.
  - intros route Hin.
    apply (in_map FlightMapPlain.summary) in Hin. rewrite Hmap in Hin.
    apply in_map_iff in Hin as (r & Hs & Hin).
    apply filter_In in Hin as [Hin Hc].
    destruct (connecting_route_flights _ _ A B r (inv_entries _ _ Hinv) Hin Hc)
      as [Hf Hn].
    unfold FlightMapPlain.summary, FlightMapPlain.curvedSummary in Hs.
    injection Hs as _ _ _ Hcount Hflights.
    rewrite <- Hflights, <- Hcount, Hf, Hn. subst fl'.
    now rewrite between_plain.
  - intros Hne.
    assert (Hne' : filter (between A B) fl' <> [])
      by (subst fl'; now rewrite between_plain).
    destruct (some_route_connects _ _ A B Hinv (plain_known _ HA) (plain_known _ HB) Hne')
      as (r & Hin & Hc).
    assert (In r (filter (connects A B) rs1)) as Hf by (apply filter_In; auto).
    unfold rs1 in *.
    destruct (filter (connects A B) (StrMap.values (fst (routesLoop fl'))))
      as [|r0 rest]; [destruct Hf | cbn [List.length] in *; lia].
Qed.

End PlainRoutes.

Section PlainStyle.

Local Open Scope R_scope.

Lemma styleOk_step m w f :
  Forall FlightMapPlain.styleOk m ->
  Forall FlightMapPlain.styleOk (fst (FlightMapPlain.routesStep (m, w) f)).
Proof.
  intros F. unfold FlightMapPlain.routesStep.
  destruct (FlightMapPlain.airportAt (origin f)) as [a|] eqn:Ha; [|exact F].
  destruct (FlightMapPlain.airportAt (destination f)) as [b|] eqn:Hb; [|exact F].
  assert (Hadd : forall r k, FlightMapPlain.styleOk (k, r) ->
            FlightMapPlain.styleOk (k, FlightMapPlain.addFlight r f)).
  { intros r k (Hc & Ht & Ho & a0 & b0 & Ha0 & Hb0 & Hco).
    unfold FlightMapPlain.styleOk, FlightMapPlain.addFlight. cbv zeta.
    cbn [snd FlightMapPlain.count FlightMapPlain.thickness FlightMapPlain.opacity
         FlightMapPlain.from FlightMapPlain.to FlightMapPlain.coordinates] in *.
    split; [lia|]. split; [f_equal; lia|]. split; [reflexivity|].
    exists a0, b0. auto. }
  assert (Hupd : forall k r, StrMap.get k m = Some r ->
            Forall FlightMapPlain.styleOk
              (StrMap.set k (FlightMapPlain.addFlight r f) m)).
  { intros k r G. destruct (get_Some_split _ _ _ G) as (m1 & m2 & -> & Hn).
    rewrite set_split by exact Hn.
    apply Forall_app in F as [F1 F2]. inversion F2 as [|? ? Hr F2']; subst.
    apply Forall_app. split; [exact F1|]. constructor; [|exact F2'].
    now apply Hadd. }
  destruct (StrMap.get (routeKeyOf (origin f) (destination f)) m) as [r|] eqn:G1.
  - unfold fst. now apply Hupd.
  - destruct (StrMap.get (routeKeyOf (destination f) (origin f)) m) as [r|] eqn:G2.
    + unfold fst. now apply Hupd.
    + unfold fst. rewrite set_fresh by exact G1.
      apply Forall_app. split; [exact F|]. constructor; [|constructor].
      unfold FlightMapPlain.styleOk.
      cbn [snd FlightMapPlain.count FlightMapPlain.thickness FlightMapPlain.opacity
           FlightMapPlain.from FlightMapPlain.to FlightMapPlain.coordinates].
      split; [lia|]. split; [reflexivity|]. split.
      * cbn [INR]. replace (0.3 + 1 * 0.1) with 0.4 by lra.
        symmetry. apply Rmin_left. lra.
      * exists a, b. auto.
Qed.

Lemma styleOk_fold fl : forall m w,
  Forall FlightMapPlain.styleOk m ->
  Forall FlightMapPlain.styleOk (fst (fold_left FlightMapPlain.routesStep fl (m, w))).
Proof.
  induction fl as [|f fl IH]; intros m w F; [exact F|].
  cbn [fold_left]. rewrite (surjective_pairing (FlightMapPlain.routesStep (m, w) f)).
  apply IH. now apply styleOk_step.
Qed.

Lemma plain_routes_styleOk fl route :
  In route (FlightMapPlain.routes fl) ->
  exists k, FlightMapPlain.styleOk (k, route).
Proof.
  unfold FlightMapPlain.routes, StrMap.values. intros H.
  apply in_map_iff in H as ([k r] & <- & H). exists k.
  pose proof (styleOk_fold fl [] [] (Forall_nil _)) as F.
  rewrite Forall_forall in F. exact (F _ H).
Qed.


End PlainStyle.

Section PlainAirports.

Local Open Scope R_scope.

Local Abbreviation pairedAirports :=
  (FlightMapPlain.relatedBy FlightMapPlain.sameAirport).

Lemma processAirport_paired c m1 m2 :
  pairedAirports m1 m2 ->
  pairedAirports
    (if FlightMapPlain.known c then processAirport c m1 else m1)
    (FlightMapPlain.processAirport c m2).
Proof.
  intros H. unfold FlightMapPlain.known, FlightMapPlain.processAirport.
  destruct (FlightMapPlain.airportAt c) as [a|] eqn:Ha; [|exact H].
  unfold processAirport. rewrite (airportAt_plain _ _ Ha).
  pose proof (relatedBy_get _ c _ _ H) as G. cbv beta in G.
  destruct (StrMap.get c m1) as [a1|], (StrMap.get c m2) as [a2|];
    try contradiction.
  - apply relatedBy_set; [exact H|].
    destruct G as (G1 & G2 & G3 & G4 & G5 & G6 & G7).
    unfold FlightMapPlain.sameAirport. cbn. auto 10.
  - apply relatedBy_set; [exact H|].
    unfold FlightMapPlain.sameAirport. cbn. auto 10.
Qed.

(** The codes of the table of this variant among [codes]. *)
Lemma plain_airports_fold fl : forall m1 m2,
  pairedAirports m1 m2 ->
  pairedAirports
    (fold_left (fun m c => processAirport c m)
       (filter FlightMapPlain.known (endpointCodes fl)) m1)
    (fold_left FlightMapPlain.airportsStep fl m2).
Proof.
  induction fl as [|f fl IH]; intros m1 m2 H; [exact H|].
  unfold endpointCodes in *. cbn [flat_map app filter fold_left].
  unfold FlightMapPlain.airportsStep at 2.
  pose proof (processAirport_paired (origin f) _ _ H) as H1.
  pose proof (processAirport_paired (destination f) _ _ H1) as H2.
  specialize (IH _ _ H2).
  destruct (FlightMapPlain.known (origin f)), (FlightMapPlain.known (destination f));
    cbn [fold_left]; exact IH.
Qed.

Lemma processAirport_codes_inv codes' : forall codes m,
  airportsInv codes m -> Forall fromTable m ->
  airportsInv (codes ++ codes') (fold_left (fun m c => processAirport c m) codes' m)
  /\ Forall fromTable (fold_left (fun m c => processAirport c m) codes' m).
Proof.
  induction codes' as [|c codes' IH]; intros codes m Hinv Ht.
  - cbn. now rewrite app_nil_r.
  - cbn [fold_left].
    replace (codes ++ c :: codes')%list with ((codes ++ [c]) ++ codes')%list
      by now rewrite <- app_assoc.
    apply IH; [now apply processAirport_inv | now apply processAirport_fromTable].
Qed.

Lemma count_occ_filter_known codes c :
  FlightMapPlain.known c = true ->
  count_occ string_dec (filter FlightMapPlain.known codes) c
  = count_occ string_dec codes c.
Proof.
  intros Hc. induction codes as [|x codes IH]; [reflexivity|].
  cbn [filter]. destruct (FlightMapPlain.known x) eqn:Hx.
  - cbn [count_occ]. now rewrite IH.
  - cbn [count_occ]. destruct (string_dec x c) as [->|_]; [congruence | exact IH].
Qed.

Lemma size_bounds n : 3 <= Rmin (Rmax (INR n * 0.5) 3) 12 <= 12.
Proof.
  split; [|apply Rmin_r]. apply Rmin_glb; [apply Rmax_r | lra].
Qed.

Lemma set_keys_In {V} k (v : V) m k' :
  In k' (StrMap.keys (StrMap.set k v m)) -> In k' (StrMap.keys m) \/ k' = k.
Proof.
  induction m as [|[k0 v0] m IH]; cbn.
  - intros [<-|[]]. now right.
  - destruct (String.eqb_spec k0 k) as [->|Hne]; cbn.
    + intros [<-|H]; auto.
    + intros [<-|H]; [auto|]. destruct (IH H); auto.
Qed.

Lemma processAirport_keys c m k :
  In k (StrMap.keys (processAirport c m)) -> In k (StrMap.keys m) \/ k = c.
Proof.
  unfold processAirport. destruct (airportAt c); [|now left].
  destruct (StrMap.get c m); apply set_keys_In.
Qed.

Lemma processAirport_fold_keys codes : forall m k,
  In k (StrMap.keys (fold_left (fun m c => processAirport c m) codes m)) ->
  In k (StrMap.keys m) \/ In k codes.
Proof.
  induction codes as [|c codes IH]; intros m k H; [now left|].
  cbn [fold_left] in H. destruct (IH _ _ H) as [H1|H1].
  - destruct (processAirport_keys _ _ _ H1) as [H2| ->]; [now left | right; now left].
  - right. now right.
Qed.

(** What the loop of [airports] leaves in the map, read off the curved
    variant's loop on the codes of the smaller table. *)
Lemma plain_airports_map fl :
  exists m1,
    pairedAirports m1 (fold_left FlightMapPlain.airportsStep fl [])
    /\ airportsInv (filter FlightMapPlain.known (endpointCodes fl)) m1
    /\ Forall fromTable m1
    /\ (forall k, In k (StrMap.keys m1) -> FlightMapPlain.known k = true).
Proof.
  exists (fold_left (fun m c => processAirport c m)
            (filter FlightMapPlain.known (endpointCodes fl)) []).
  split; [apply plain_airports_fold; constructor|].
  destruct (processAirport_codes_inv
              (filter FlightMapPlain.known (endpointCodes fl)) [] []
              airportsInv_nil (Forall_nil _)) as [H1 H2].
  split; [exact H1|]. split; [exact H2|].
  intros k Hk. apply processAirport_fold_keys in Hk as [[]|Hk].
  now apply filter_In in Hk.
Qed.

Lemma known_filtered c codes :
  In c (filter FlightMapPlain.known codes) -> FlightMapPlain.known c = true.
Proof. intros H. now apply filter_In in H. Qed.



End PlainAirports.

Section PlainExamples.

Local Open Scope R_scope.

Lemma plain_routes_merge_directions_witness :
  (FlightMapPlain.known "SIN" = true /\ FlightMapPlain.known "CGK" = true)
  /\ (List.length (filter (FlightMapPlain.connects "SIN" "CGK")
                     (FlightMapPlain.routes demoFlights)) <= 1)%nat
  /\ (forall route,
        In route (filter (FlightMapPlain.connects "SIN" "CGK")
                    (FlightMapPlain.routes demoFlights)) ->
        FlightMapPlain.flights route = filter (between "SIN" "CGK") demoFlights
        /\ FlightMapPlain.count route
           = List.length (filter (between "SIN" "CGK") demoFlights))
  /\ (filter (between "SIN" "CGK") demoFlights <> [] ->
      List.length (filter (FlightMapPlain.connects "SIN" "CGK")
                     (FlightMapPlain.routes demoFlights)) = 1%nat).
Proof.
  split; [split; reflexivity|].
  exact (plain_routes_merge_directions demoFlights "SIN" "CGK" eq_refl eq_refl).
Defined.


End PlainExamples.

End FlightMapPlainTheory.

(** * The chat widget: proofs *)

Module ChatTheory.

Import Chat.

Local Open Scope string_scope.

Lemma splitLines_nonempty s : splitLines s <> [].
Proof.
  induction s as [|c s IH]; simpl; [discriminate|].
  destruct (Ascii.eqb c newline); [discriminate|].
  destruct (splitLines s); [contradiction | discriminate].
Qed.

Lemma removelast_cons_ne {A} (x : A) l : l <> [] -> removelast (x :: l) = x :: removelast l.
Proof. destruct l; [contradiction | reflexivity]. Qed.

Lemma last_cons_ne {A} (x : A) l d : l <> [] -> last (x :: l) d = last l d.
Proof. destruct l; [contradiction | reflexivity]. Qed.

(** Splitting a concatenation: the unfinished last line of the first part
    is continued by the second part. *)
Lemma splitLines_app a b :
  splitLines (a ++ b)
  = (removelast (splitLines a) ++ splitLines (last (splitLines a) "" ++ b))%list.
Proof.
  induction a as [|c a IH]; [reflexivity|].
  pose proof (splitLines_nonempty a) as Hne.
  cbn [append splitLines].
  destruct (Ascii.eqb c newline) eqn:Ec.
  - rewrite removelast_cons_ne, last_cons_ne by exact Hne.
    rewrite IH. reflexivity.
  - rewrite IH.
    destruct (splitLines a) as [|x [|y ys]]; [contradiction| |].
    + cbn [removelast last app append splitLines]. now rewrite Ec.
    + reflexivity.
Qed.

(** The unfinished last line holds no newline. *)
Lemma splitLines_last_single s :
  splitLines (last (splitLines s) "") = [last (splitLines s) ""].
Proof.
  induction s as [|c s IH]; [reflexivity|].
  pose proof (splitLines_nonempty s) as Hne.
  cbn [splitLines]. destruct (Ascii.eqb c newline) eqn:Ec.
  - rewrite last_cons_ne by exact Hne. exact IH.
  - destruct (splitLines s) as [|x [|y ys]]; [contradiction| |].
    + cbn [last] in *. cbn [splitLines]. rewrite Ec, IH. reflexivity.
    + exact IH.
Qed.

Lemma append_assoc (a b c : string) : (a ++ b) ++ c = a ++ (b ++ c).
Proof. induction a as [|x a IH]; simpl; [reflexivity | now rewrite IH]. Qed.

Lemma append_empty_r (a : string) : a ++ "" = a.
Proof. induction a as [|x a IH]; simpl; [reflexivity | now rewrite IH]. Qed.

Lemma concat_cons (t : string) ts :
  String.concat "" (t :: ts) = t ++ String.concat "" ts.
Proof.
  destruct ts as [|u us]; cbn [String.concat]; [now rewrite append_empty_r | reflexivity].
Qed.

Section StreamFacts.

Variable JSON_parse : string -> option json.
Variable coerceToString : json -> string.

Local Abbreviation processLine := (processLine JSON_parse coerceToString).
Local Abbreviation readChunk := (readChunk JSON_parse coerceToString).
Local Abbreviation readAll := (readAll JSON_parse coerceToString).
Local Abbreviation lineDelta := (lineDelta JSON_parse coerceToString).
Local Abbreviation deltasOf := (deltasOf JSON_parse coerceToString).
Local Abbreviation streamDeltas := (streamDeltas JSON_parse coerceToString).
Local Abbreviation assembledText := (assembledText JSON_parse coerceToString).

Lemma processLine_lineDelta now acc line :
  processLine now acc line
  = match lineDelta line with Some d => pushDelta now acc d | None => acc end.
Proof.
  unfold Chat.processLine, Chat.lineDelta.
  destruct (isBlank line); [reflexivity|].
  destruct (JSON_parse line) as [parsed|]; [|reflexivity].
  destruct (deltaContent parsed) as [value|]; [|reflexivity].
  destruct (truthy value); reflexivity.
Qed.

Lemma applyLines_deltas now lines : forall acc,
  fold_left (processLine now) lines acc
  = fold_left (pushDelta now) (deltasOf lines) acc.
Proof.
  induction lines as [|line lines IH]; intros acc; [reflexivity|].
  cbn [fold_left]. unfold Chat.deltasOf. cbn [flat_map].
  rewrite fold_left_app, processLine_lineDelta, IH.
  destruct (lineDelta line); reflexivity.
Qed.

Lemma pushDelta_withBuffer now b acc d :
  pushDelta now (withBuffer b acc) d = withBuffer b (pushDelta now acc d).
Proof. reflexivity. Qed.

Lemma pushDeltas_withBuffer now b ds : forall acc,
  fold_left (pushDelta now) ds (withBuffer b acc)
  = withBuffer b (fold_left (pushDelta now) ds acc).
Proof.
  induction ds as [|d ds IH]; intros acc; [reflexivity|].
  cbn [fold_left]. rewrite pushDelta_withBuffer. apply IH.
Qed.

Lemma withBuffer_twice b b' acc : withBuffer b (withBuffer b' acc) = withBuffer b acc.
Proof. reflexivity. Qed.

Lemma withBuffer_own acc : withBuffer (buffer acc) acc = acc.
Proof. now destruct acc. Qed.

Lemma deltasOf_app l1 l2 : deltasOf (l1 ++ l2) = (deltasOf l1 ++ deltasOf l2)%list.
Proof. unfold Chat.deltasOf. apply flat_map_app. Qed.

Lemma completeLines_app a b :
  completeLines (a ++ b)
  = (completeLines a ++ completeLines (last (splitLines a) "" ++ b))%list.
Proof.
  unfold completeLines. rewrite splitLines_app.
  apply removelast_app. apply splitLines_nonempty.
Qed.

Lemma last_app_ne {A} (l1 l2 : list A) d : l2 <> [] -> last (l1 ++ l2) d = last l2 d.
Proof.
  intros H. induction l1 as [|x l1 IH]; [reflexivity|].
  cbn [app]. rewrite last_cons_ne; [exact IH|].
  destruct l1; [exact H | discriminate].
Qed.

Lemma lastLine_app a b :
  last (splitLines (a ++ b)) "" = last (splitLines (last (splitLines a) "" ++ b)) "".
Proof.
  rewrite splitLines_app. apply last_app_ne. apply splitLines_nonempty.
Qed.

Lemma readChunk_deltas now acc chunk :
  readChunk now acc chunk
  = withBuffer (last (splitLines (buffer acc ++ chunk)) "")
      (fold_left (pushDelta now) (deltasOf (completeLines (buffer acc ++ chunk))) acc).
Proof.
  unfold Chat.readChunk. cbv zeta. rewrite applyLines_deltas.
  change (mkSending (state acc) ?b _ _) with (withBuffer b acc).
  apply pushDeltas_withBuffer.
Qed.

(** The read loop sees the stream as one text: the lines it has parsed are
    the complete lines of everything read so far, the buffer the rest. *)
Lemma readAll_deltas now texts : forall acc,
  splitLines (buffer acc) = [buffer acc] ->
  readAll now acc texts
  = withBuffer (last (splitLines (buffer acc ++ String.concat "" texts)) "")
      (fold_left (pushDelta now)
         (deltasOf (completeLines (buffer acc ++ String.concat "" texts))) acc).
Proof.
  induction texts as [|t ts IH]; intros acc Hb.
  - cbn [String.concat Chat.readAll fold_left]. rewrite append_empty_r.
    unfold completeLines. rewrite Hb. cbn. symmetry. apply withBuffer_own.
  - change (readAll now acc (t :: ts)) with (readAll now (readChunk now acc t) ts).
    rewrite readChunk_deltas.
    rewrite IH by apply splitLines_last_single.
    cbn [buffer withBuffer].
    rewrite concat_cons, <- append_assoc.
    rewrite (completeLines_app (buffer acc ++ t)), (lastLine_app (buffer acc ++ t)).
    rewrite deltasOf_app, fold_left_app.
    rewrite pushDeltas_withBuffer, withBuffer_twice. reflexivity.
Qed.

End StreamFacts.

Lemma setLastContent_snoc text base m :
  setLastContent text (base ++ [m]) = (base ++ [mkMessage (role m) text (timestamp m)])%list.
Proof.
  induction base as [|x base IH]; [reflexivity|].
  cbn [app]. rewrite <- IH.
  destruct (base ++ [m])%list eqn:E; [now destruct base | reflexivity].
Qed.

Lemma setMessages_twice a b s : setMessages a (setMessages b s) = setMessages a s.
Proof. reflexivity. Qed.

Lemma pushDelta_streaming now s b text d :
  pushDelta now (streaming now s b text) d = streaming now s b (text ++ d).
Proof.
  unfold pushDelta, streaming.
  cbn [assistantMessageAdded state currentAssistantContent buffer messages setMessages].
  rewrite setLastContent_snoc. reflexivity.
Qed.

Lemma pushDelta_fresh now s b d :
  pushDelta now (mkSending s b "" false) d = streaming now s b d.
Proof.
  unfold pushDelta, streaming.
  cbn [assistantMessageAdded state currentAssistantContent buffer].
  rewrite setLastContent_snoc. reflexivity.
Qed.

Lemma pushDeltas_streaming now s b ds : forall text,
  fold_left (pushDelta now) ds (streaming now s b text)
  = streaming now s b (text ++ String.concat "" ds).
Proof.
  induction ds as [|d ds IH]; intros text.
  - cbn [fold_left String.concat]. now rewrite append_empty_r.
  - cbn [fold_left]. rewrite pushDelta_streaming, IH, concat_cons, append_assoc.
    reflexivity.
Qed.

Lemma pushDeltas_fresh now s b ds :
  fold_left (pushDelta now) ds (mkSending s b "" false)
  = match ds with
    | [] => mkSending s b "" false
    | _ :: _ => streaming now s b (String.concat "" ds)
    end.
Proof.
  destruct ds as [|d ds]; [reflexivity|].
  cbn [fold_left]. rewrite pushDelta_fresh, pushDeltas_streaming, concat_cons.
  reflexivity.
Qed.

Section Assembly.

Variable JSON_parse : string -> option json.
Variable coerceToString : json -> string.

Local Abbreviation readAll := (readAll JSON_parse coerceToString).
Local Abbreviation streamDeltas := (streamDeltas JSON_parse coerceToString).
Local Abbreviation assembledText := (assembledText JSON_parse coerceToString).

(** The read loop started by [sendMessage], in closed form. *)
Lemma readAll_fresh now s texts :
  readAll now (mkSending s "" "" false) texts
  = let whole := String.concat "" texts in
    let rest := last (splitLines whole) "" in
    match streamDeltas whole with
    | [] => mkSending s rest "" false
    | _ :: _ => streaming now s rest (assembledText whole)
    end.
Proof.
  rewrite readAll_deltas by reflexivity.
  cbn [buffer append]. cbv zeta.
  change (deltasOf JSON_parse coerceToString (completeLines ?t))
    with (streamDeltas t).
  rewrite pushDeltas_fresh. unfold Chat.assembledText.
  destruct (streamDeltas (String.concat "" texts)); reflexivity.
Qed.

(** C4.  However the stream is cut into chunks, the read loop ends in the
    same state as on the whole text read at once, and the assistant message
    it has built is the concatenation, in order, of the deltas of the
    complete (newline-terminated) lines of the stream; blank lines, lines
    that are no JSON and lines without a delta contribute nothing, and the
    unfinished last line stays in the buffer. *)
Theorem chunked_stream_assembly (now : N) (s : ChatState) (texts : list string) :
  let start := mkSending s "" "" false in
  let whole := String.concat "" texts in
  readAll now start texts = readAll now start [whole]
  /\ currentAssistantContent (readAll now start texts) = assembledText whole
  /\ assistantMessageAdded (readAll now start texts)
     = negb (Nat.eqb (List.length (streamDeltas whole)) 0)
  /\ messages (state (readAll now start texts))
     = (if assistantMessageAdded (readAll now start texts)
        then messages s ++ [mkMessage assistant (assembledText whole) (Some now)]
        else messages s)%list
  /\ buffer (readAll now start texts) = last (splitLines whole) "".
Proof.
  intros start whole. subst start.
  rewrite !readAll_fresh. cbv zeta.
  assert (E : String.concat "" [whole] = whole) by reflexivity.
  rewrite E. fold whole.
  split; [reflexivity|].
  unfold Chat.assembledText.
  destruct (streamDeltas whole) as [|d ds]; repeat split; reflexivity.
Qed.

End Assembly.

Lemma getRandomWittyMessage_In draw : In (getRandomWittyMessage draw) WITTY_MESSAGES.
Proof.
  unfold getRandomWittyMessage. apply nth_In.
  apply Nat.mod_upper_bound. discriminate.
Qed.

Section FailedSend.

Variable JSON_parse : string -> option json.
Variable coerceToString : json -> string.

Local Abbreviation readAll := (readAll JSON_parse coerceToString).
Local Abbreviation streamDeltas := (streamDeltas JSON_parse coerceToString).
Local Abbreviation assembledText := (assembledText JSON_parse coerceToString).
Local Abbreviation exchange := (exchange JSON_parse coerceToString).
Local Abbreviation sendMessage := (sendMessage JSON_parse coerceToString).
Local Abbreviation receivedText := (receivedText JSON_parse coerceToString).

Lemma onSendError_fresh oracle s b :
  messages (onSendError oracle (mkSending s b "" false))
  = (messages s ++ [fallbackReply oracle (nowFallback oracle)])%list.
Proof. reflexivity. Qed.

Lemma onSendError_streaming oracle now s b text :
  messages (onSendError oracle (streaming now s b text))
  = (messages s
       ++ [if isBlank text then fallbackReply oracle now
           else mkMessage assistant text (Some now)])%list.
Proof.
  unfold onSendError, streaming.
  cbn [assistantMessageAdded negb currentAssistantContent state].
  destruct (isBlank text); [|reflexivity].
  cbn [messages setMessages]. rewrite setLastContent_snoc. reflexivity.
Qed.

(** The reply that a failing exchange leaves after the messages of [s]. *)
Lemma exchange_failure oracle response s :
  transportFails response = true ->
  exists reply,
    messages (exchange oracle response s) = (messages s ++ [reply])%list
    /\ role reply = assistant
    /\ (isBlank (receivedText response) = true ->
        content reply = getRandomWittyMessage (randomDraw oracle))
    /\ (isBlank (receivedText response) = false ->
        reply = mkMessage assistant (receivedText response)
                  (Some (nowAssistant oracle))).
Proof.
  intros Hf.
  assert (Hfresh : forall s0 : ChatState, messages s0 = messages s ->
    receivedText response = "" ->
    exists reply,
      messages (onSendError oracle (mkSending s0 "" "" false))
      = (messages s ++ [reply])%list
      /\ role reply = assistant
      /\ (isBlank (receivedText response) = true ->
          content reply = getRandomWittyMessage (randomDraw oracle))
      /\ (isBlank (receivedText response) = false ->
          reply = mkMessage assistant (receivedText response)
                    (Some (nowAssistant oracle)))).
  { intros s0 Hs0 Hr. exists (fallbackReply oracle (nowFallback oracle)).
    rewrite onSendError_fresh, Hs0, Hr. repeat split; try reflexivity.
    discriminate. }
  destruct response as [|ok status header body]; [now apply Hfresh|].
  unfold Chat.exchange. cbv zeta.
  destruct ok; cbn [negb]; [|now apply Hfresh].
  destruct body as [stream|]; [|now apply Hfresh].
  cbn [transportFails negb orb] in Hf.
  destruct (ending stream); [discriminate|].
  set (s1 := match header with
             | Some h => if negb (String.eqb h "") && isClient s
                         then setThreadId (Some h) (setItem "threadId" h s) else s
             | None => s
             end).
  assert (Hs1 : messages s1 = messages s).
  { subst s1. destruct header as [h|]; [|reflexivity].
    destruct (negb (String.eqb h "") && isClient s); reflexivity. }
  rewrite readAll_fresh. cbv zeta.
  cbn [Chat.receivedText]. unfold Chat.assembledText.
  destruct (streamDeltas (String.concat "" (chunks stream))) as [|d ds] eqn:Ed.
  - exists (fallbackReply oracle (nowFallback oracle)).
    rewrite onSendError_fresh, Hs1. repeat split; try reflexivity. discriminate.
  - rewrite onSendError_streaming, Hs1.
    eexists. split; [reflexivity|].
    destruct (isBlank (String.concat "" (d :: ds))); repeat split;
      try reflexivity; discriminate.
Qed.


End FailedSend.

Lemma Role_eqb_eq a b : Role_eqb a b = true <-> a = b.
Proof. destruct a, b; simpl; split; intros; congruence. Qed.

Lemma isWittyMessage_at (s : ChatState) prefix m rest :
  messages s = (prefix ++ m :: rest)%list ->
  isWittyMessage s m (List.length prefix)
  = isFallback m
    || (Role_eqb (role m) user
        && match rest with next :: _ => isFallback next | [] => false end).
Proof.
  intros E. unfold isWittyMessage, isFallback.
  destruct (Role_eqb (role m) assistant && includes WITTY_MESSAGES (content m));
    [reflexivity|].
  cbn [orb]. destruct (Role_eqb (role m) user); [|reflexivity].
  cbn [andb]. rewrite E, length_app.
  destruct rest as [|next rest]; cbn [List.length].
  - destruct (Nat.ltb_spec (List.length prefix) (List.length prefix + 1 - 1));
      [lia | reflexivity].
  - destruct (Nat.ltb_spec (List.length prefix)
                (List.length prefix + S (S (List.length rest)) - 1)); [|lia].
    rewrite nth_error_app2 by lia.
    replace (List.length prefix + 1 - List.length prefix)%nat with 1%nat by lia.
    reflexivity.
Qed.

Lemma filterIndexed_persistable (s : ChatState) rest : forall prefix,
  messages s = (prefix ++ rest)%list ->
  filterIndexed (fun msg index => negb (isWittyMessage s msg index))
    (List.length prefix) rest
  = persistable rest.
Proof.
  induction rest as [|m rest IH]; intros prefix E; [reflexivity|].
  cbn [filterIndexed persistable].
  rewrite (isWittyMessage_at s prefix m rest E).
  assert (E' : messages s = ((prefix ++ [m]) ++ rest)%list)
    by now rewrite <- app_assoc.
  specialize (IH (prefix ++ [m])%list E').
  rewrite length_app in IH. cbn [List.length] in IH.
  rewrite Nat.add_1_r in IH.
  destruct (isFallback m); cbn [orb negb]; [exact IH|].
  destruct (Role_eqb (role m) user && _); cbn [negb]; [exact IH|].
  now rewrite IH.
Qed.

Lemma messagesToSave_persistable s : messagesToSave s = persistable (messages s).
Proof. unfold messagesToSave. now apply (filterIndexed_persistable s (messages s) []). Qed.

Lemma persistable_no_fallback l : Forall (fun m => isFallback m = false) (persistable l).
Proof.
  induction l as [|m rest IH]; [constructor|].
  cbn [persistable]. destruct (isFallback m) eqn:Ef; [exact IH|].
  destruct (Role_eqb (role m) user && _); [exact IH|].
  now constructor.
Qed.

Section Persist.

Variable JSON_stringify : list ChatMessage -> string.

(** C10.  [saveMessagesToStorage] writes, under [chatMessages], the message
    list without every assistant message whose content is one of the
    fallback messages and without every user message that such a message
    follows; the written list holds no fallback message.  Off the client
    nothing is written. *)
Theorem persisted_messages_exclude_fallbacks (s : ChatState) :
  localStorage (saveMessagesToStorage JSON_stringify s)
  = (if isClient s
     then StrMap.set "chatMessages" (JSON_stringify (messagesToSave s))
            (localStorage s)
     else localStorage s)
  /\ messagesToSave s = persistable (messages s)
  /\ Forall (fun m => isFallback m = false) (messagesToSave s)
  /\ (forall index m next,
        nth_error (messages s) index = Some m ->
        nth_error (messages s) (index + 1) = Some next ->
        role m = user -> isFallback next = true ->
        isWittyMessage s m index = true).
Proof.
  split; [|split; [|split]].
  - unfold saveMessagesToStorage. destruct (isClient s); reflexivity.
  - apply messagesToSave_persistable.
  - rewrite messagesToSave_persistable. apply persistable_no_fallback.
  - intros index m next Hm Hn Hr Hf.
    destruct (nth_error_split _ _ Hm) as (prefix & rest & E & Hl).
    rewrite <- Hl, (isWittyMessage_at s prefix m rest E).
    rewrite E, <- Hl in Hn. rewrite nth_error_app2 in Hn by lia.
    replace (List.length prefix + 1 - List.length prefix)%nat with 1%nat in Hn by lia.
    destruct rest as [|n rest]; [discriminate|]. injection Hn as ->.
    rewrite Hf, Hr. cbn. apply orb_true_r.
Qed.

End Persist.

Section Sync.

Variable parseStored : string -> StoredParse.

Lemma hasNewUserMessages_spec known arrived :
  hasNewUserMessages known arrived = true <->
  exists msg, In msg arrived /\ role msg = user
    /\ forall existing, In existing known ->
         ~ (role existing = role msg /\ content existing = content msg
            /\ timestamp existing = timestamp msg).
Proof.
  unfold hasNewUserMessages. rewrite existsb_exists. split.
  - intros (msg & Hin & H). apply andb_true_iff in H as [Hr Hn].
    exists msg. split; [exact Hin|]. split; [now apply Role_eqb_eq|].
    intros existing Hex (E1 & E2 & E3).
    apply negb_true_iff in Hn.
    assert (existsb (fun e => Role_eqb (role e) (role msg)
                              && String.eqb (content e) (content msg)
                              && timestamp_eqb (timestamp e) (timestamp msg)) known = true).
    { apply existsb_exists. exists existing. split; [exact Hex|].
      rewrite E1, E2, E3. rewrite String.eqb_refl.
      replace (Role_eqb (role msg) (role msg)) with true
        by (symmetry; now apply Role_eqb_eq).
      destruct (timestamp msg) as [t|]; cbn; [apply N.eqb_refl | reflexivity]. }
    congruence.
  - intros (msg & Hin & Hr & Hnew). exists msg. split; [exact Hin|].
    apply andb_true_iff. split; [now apply Role_eqb_eq|].
    apply negb_true_iff. apply not_true_is_false. intros Hex.
    apply existsb_exists in Hex as (existing & Hex & H).
    apply andb_true_iff in H as [H H3]. apply andb_true_iff in H as [H1 H2].
    apply (Hnew existing Hex). split; [now apply Role_eqb_eq|].
    split; [now apply String.eqb_eq|].
    destruct (timestamp existing), (timestamp msg); cbn in H3; try discriminate;
      [apply N.eqb_eq in H3; now subst | reflexivity].
Qed.

(** C9.  On a storage event for the key [chatMessages] whose value parses to
    a message array, the message list of the receiving tab becomes exactly
    that array (nothing of the local copy is merged in, so nothing appears
    twice); the chat is opened when the array holds a user message that no
    local message equals in role, content and timestamp, and only then. *)
Theorem storage_sync_replaces_messages (event : StorageEvent) (s : ChatState)
    (arrived : list ChatMessage) :
  isClient s = true ->
  eventKey event = Some "chatMessages" ->
  parseStored (valueOr (newValue event) "[]") = MessageArray arrived ->
  let s' := handleStorageChange parseStored event s in
  messages s' = arrived
  /\ isChatOpen s' = (isChatOpen s || hasNewUserMessages (messages s) arrived)
  /\ (hasNewUserMessages (messages s) arrived = true <->
      exists msg, In msg arrived /\ role msg = user
        /\ forall existing, In existing (messages s) ->
             ~ (role existing = role msg /\ content existing = content msg
                /\ timestamp existing = timestamp msg)).
Proof.
  intros Hc Hk Hp s'. subst s'.
  unfold handleStorageChange, keyIs. rewrite Hc, Hk, Hp. cbn [negb String.eqb Ascii.eqb].
  split; [|split].
  - destruct (hasNewUserMessages (messages s) arrived), (0 <? List.length arrived)%nat;
      reflexivity.
  - destruct (hasNewUserMessages (messages s) arrived), (0 <? List.length arrived)%nat;
      cbn; try reflexivity; now rewrite orb_false_r || now rewrite orb_true_r.
  - apply hasNewUserMessages_spec.
Qed.

End Sync.

Section SampleExchange.

Example sample_stream_done :
  messages
    (sendMessage sampleParse sampleCoerce sampleOracle
       (FetchResponse true 200 (Some "thread-1")
          (Some (mkBody sampleChunks StreamDone)))
       sampleState)
  = [ mkMessage user "Hi there" (Some 1000%N);
      mkMessage assistant "Hello" (Some 1200%N) ].
Proof. reflexivity. Qed.

Example sample_stream_cut :
  messages
    (sendMessage sampleParse sampleCoerce sampleOracle
       (FetchResponse true 200 None (Some (mkBody sampleChunks StreamError)))
       sampleState)
  = [ mkMessage user "Hi there" (Some 1000%N);
      mkMessage assistant "Hello" (Some 1200%N) ].
Proof. reflexivity. Qed.

Example sample_blank_delta_cut :
  messages
    (sendMessage sampleParse sampleCoerce sampleOracle
       (FetchResponse true 200 None
          (Some (mkBody [deltaLine " " ++ nl] StreamError)))
       sampleState)
  = [ mkMessage user "Hi there" (Some 1000%N);
      mkMessage assistant (getRandomWittyMessage 13) (Some 1200%N) ].
Proof. reflexivity. Qed.

Example sample_not_ok :
  messages
    (sendMessage sampleParse sampleCoerce sampleOracle
       (FetchResponse false 500 None (Some (mkBody sampleChunks StreamDone)))
       sampleState)
  = [ mkMessage user "Hi there" (Some 1000%N);
      mkMessage assistant (getRandomWittyMessage 13) (Some 1500%N) ].
Proof. reflexivity. Qed.


Lemma storage_sync_replaces_messages_witness :
  (isClient sampleReceiver = true
   /\ eventKey sampleEvent = Some "chatMessages"
   /\ sampleParseStored (valueOr (newValue sampleEvent) "[]")
      = MessageArray [mkMessage user "Hi there" (Some 1000%N)])
  /\ messages (handleStorageChange sampleParseStored sampleEvent sampleReceiver)
     = [mkMessage user "Hi there" (Some 1000%N)]
  /\ isChatOpen (handleStorageChange sampleParseStored sampleEvent sampleReceiver)
     = (isChatOpen sampleReceiver
        || hasNewUserMessages (messages sampleReceiver)
             [mkMessage user "Hi there" (Some 1000%N)])
  /\ (hasNewUserMessages (messages sampleReceiver)
        [mkMessage user "Hi there" (Some 1000%N)] = true <->
      exists msg, In msg [mkMessage user "Hi there" (Some 1000%N)]
        /\ role msg = user
        /\ forall existing, In existing (messages sampleReceiver) ->
             ~ (role existing = role msg /\ content existing = content msg
                /\ timestamp existing = timestamp msg)).
Proof.
  split; [repeat split; reflexivity|].
  exact (storage_sync_replaces_messages sampleParseStored sampleEvent
           sampleReceiver [mkMessage user "Hi there" (Some 1000%N)]
           eq_refl eq_refl eq_refl).
Defined.

End SampleExchange.

Lemma get_set_same {V} k (v : V) m : StrMap.get k (StrMap.set k v m) = Some v.
Proof.
  induction m as [|[k' v'] m IH]; cbn.
  - now rewrite String.eqb_refl.
  - destruct (String.eqb_spec k' k) as [->|Hne]; cbn.
    + now rewrite String.eqb_refl.
    + destruct (String.eqb_spec k' k); [contradiction | exact IH].
Qed.

Lemma get_set_other {V} k k' (v : V) m :
  k <> k' -> StrMap.get k (StrMap.set k' v m) = StrMap.get k m.
Proof.
  intros Hne. induction m as [|[k0 v0] m IH]; cbn.
  - destruct (String.eqb_spec k' k); [congruence | reflexivity].
  - destruct (String.eqb_spec k0 k') as [->|H0]; cbn.
    + destruct (String.eqb_spec k' k); [congruence | reflexivity].
    + destruct (String.eqb_spec k0 k); [reflexivity | exact IH].
Qed.

Lemma get_remove_same {V} k (m : StrMap.t V) :
  StrMap.get k (filter (fun e => negb (String.eqb (fst e) k)) m) = None.
Proof.
  induction m as [|[k0 v0] m IH]; [reflexivity|].
  cbn [filter fst]. destruct (String.eqb_spec k0 k) as [->|H0]; cbn [negb]; [exact IH|].
  cbn [StrMap.get]. destruct (String.eqb_spec k0 k); [contradiction | exact IH].
Qed.

Lemma get_remove_other {V} k k' (m : StrMap.t V) :
  k <> k' ->
  StrMap.get k (filter (fun e => negb (String.eqb (fst e) k')) m) = StrMap.get k m.
Proof.
  intros Hne. induction m as [|[k0 v0] m IH]; [reflexivity|].
  cbn [filter fst]. destruct (String.eqb_spec k0 k') as [->|H0]; cbn [negb].
  - cbn [StrMap.get]. destruct (String.eqb_spec k' k); [congruence | exact IH].
  - cbn [StrMap.get]. destruct (String.eqb_spec k0 k); [reflexivity | exact IH].
Qed.

Lemma setMessages_own s : setMessages (messages s) s = s.
Proof. now destruct s. Qed.

Lemma includes_In l x : In x l -> includes l x = true.
Proof.
  intros H. unfold includes. apply existsb_exists. exists x.
  split; [exact H | apply String.eqb_refl].
Qed.

Lemma persistable_app old u rest :
  isFallback u = false ->
  persistable (old ++ u :: rest) = (persistable old ++ persistable (u :: rest))%list.
Proof.
  intros Hu. induction old as [|m old IH]; [reflexivity|].
  destruct old as [|m' old'].
  - change ([m] ++ u :: rest)%list with (m :: u :: rest).
    change (persistable (m :: u :: rest))
      with (if isFallback m then persistable (u :: rest)
            else if Role_eqb (role m) user && isFallback u
                 then persistable (u :: rest)
                 else m :: persistable (u :: rest)).
    change (persistable [m])
      with (if isFallback m then []
            else if Role_eqb (role m) user && false then [] else [m]).
    rewrite Hu, andb_false_r. destruct (isFallback m); reflexivity.
  - change ((m :: m' :: old') ++ u :: rest)%list
      with (m :: (m' :: old') ++ u :: rest)%list.
    change (persistable (m :: (m' :: old') ++ u :: rest)%list)
      with (if isFallback m then persistable ((m' :: old') ++ u :: rest)%list
            else if Role_eqb (role m) user && isFallback m'
                 then persistable ((m' :: old') ++ u :: rest)%list
                 else m :: persistable ((m' :: old') ++ u :: rest)%list).
    change (persistable (m :: m' :: old'))
      with (if isFallback m then persistable (m' :: old')
            else if Role_eqb (role m) user && isFallback m'
                 then persistable (m' :: old')
                 else m :: persistable (m' :: old')).
    rewrite IH.
    destruct (isFallback m); [reflexivity|].
    destruct (Role_eqb (role m) user && isFallback m'); reflexivity.
Qed.

Section SendFacts.

Variable JSON_parse : string -> option json.
Variable coerceToString : json -> string.

Local Abbreviation readAll := (readAll JSON_parse coerceToString).
Local Abbreviation streamDeltas := (streamDeltas JSON_parse coerceToString).
Local Abbreviation assembledText := (assembledText JSON_parse coerceToString).
Local Abbreviation exchange := (exchange JSON_parse coerceToString).
Local Abbreviation sendMessage := (sendMessage JSON_parse coerceToString).
Local Abbreviation receivedText := (receivedText JSON_parse coerceToString).

Local Abbreviation replyOf := (replyOf JSON_parse coerceToString).

(** Every exchange ends in the starting state, with the thread id recorded
    and the reply appended. *)
Lemma exchange_closed oracle response s :
  exchange oracle response s
  = setMessages (messages s ++ replyOf oracle response)%list
      (withThread response s).
Proof.
  assert (Hfresh : forall s1 b, messages s1 = messages s ->
      onSendError oracle (mkSending s1 b "" false)
      = setMessages (messages s ++ [fallbackReply oracle (nowFallback oracle)])%list s1).
  { intros s1 b H1. unfold onSendError. cbn [assistantMessageAdded negb state].
    now rewrite H1. }
  destruct response as [|ok status header body]; [now apply Hfresh|].
  unfold Chat.exchange, Chat.replyOf. cbv zeta.
  destruct ok; cbn [negb withThread]; [|now apply Hfresh].
  destruct body as [stream|]; [|destruct header; now apply Hfresh].
  set (s1 := match header with
             | Some h => if negb (String.eqb h "") && isClient s
                         then setThreadId (Some h) (setItem "threadId" h s) else s
             | None => s
             end).
  assert (Hs1 : messages s1 = messages s).
  { subst s1. destruct header as [h|]; [|reflexivity].
    destruct (negb (String.eqb h "") && isClient s); reflexivity. }
  assert (Hw : match header with
               | Some h => if negb (String.eqb h "") && isClient s
                           then setThreadId (Some h) (setItem "threadId" h s) else s
               | None => s
               end = s1) by reflexivity.
  rewrite readAll_fresh. cbv zeta.
  destruct (streamDeltas (String.concat "" (chunks stream))) as [|d ds] eqn:Ed.
  - destruct (ending stream).
    + cbn [state]. rewrite app_nil_r, <- Hs1, setMessages_own.
      destruct header; reflexivity.
    + rewrite (Hfresh s1 _ Hs1). destruct header; reflexivity.
  - set (text := assembledText (String.concat "" (chunks stream))).
    destruct (ending stream).
    + unfold streaming. cbn [state]. rewrite Hs1. destruct header; reflexivity.
    + unfold onSendError, streaming.
      cbn [assistantMessageAdded negb currentAssistantContent state].
      destruct (isBlank text).
      * cbn [messages setMessages]. rewrite setLastContent_snoc, Hs1.
        destruct header; reflexivity.
      * rewrite Hs1. destruct header; reflexivity.
Qed.

Lemma replyOf_shape oracle response :
  (List.length (replyOf oracle response) <= 1)%nat
  /\ Forall (fun m => role m = assistant) (replyOf oracle response).
Proof.
  assert (H1 : forall m : ChatMessage, role m = assistant ->
            (List.length [m] <= 1)%nat /\ Forall (fun m => role m = assistant) [m]).
  { intros m Hm. split; [cbn; lia | now constructor]. }
  unfold Chat.replyOf.
  destruct response as [|[] status header [stream|]]; try now apply H1.
  cbv zeta.
  destruct (streamDeltas _) as [|d ds], (ending stream); try now apply H1.
  - split; [cbn; lia | constructor].
  - apply H1. destruct (isBlank _); reflexivity.
Qed.

(** The state in which [sendMessage] calls [exchange]. *)
Lemma sendMessage_unfold oracle response s :
  isBlank (userInput s) = false ->
  exists s0,
    sendMessage oracle response s = setLoading false (exchange oracle response s0)
    /\ messages s0
       = (messages s ++ [mkMessage user (userInput s) (Some (nowUser oracle))])%list
    /\ loading s0 = true /\ userInput s0 = ""
    /\ isCompactMode s0
       = (if (List.length (messages s) =? 0)%nat then false else isCompactMode s)
    /\ hasStartedChat s0
       = (if (List.length (messages s) =? 0)%nat then true else hasStartedChat s)
    /\ threadId s0 = threadId s
    /\ localStorage s0
       = (if isClient s
          then StrMap.set "hadChatInteraction" "true" (localStorage s)
          else localStorage s)
    /\ sameSession s s0.
Proof.
  intros Hin. unfold Chat.sendMessage. rewrite Hin. cbv zeta.
  eexists. split; [reflexivity|].
  unfold sameSession. destruct s as [ms ld cl en modal fb th op inp cm st ls].
  cbn [messages isClient userInput isCompactMode hasStartedChat threadId
       localStorage loading isEndingChat showFeedbackModal feedback isChatOpen].
  destruct (List.length ms =? 0)%nat, cl; repeat split; reflexivity.
Qed.

Lemma withThread_frame response s :
  messages (withThread response s) = messages s
  /\ loading (withThread response s) = loading s
  /\ userInput (withThread response s) = userInput s
  /\ isCompactMode (withThread response s) = isCompactMode s
  /\ hasStartedChat (withThread response s) = hasStartedChat s
  /\ sameSession s (withThread response s).
Proof.
  unfold withThread, sameSession.
  destruct response as [|[] status [h|] [b|]]; try (repeat split; reflexivity).
  destruct (negb (String.eqb h "") && isClient s); repeat split; reflexivity.
Qed.

(** X18.  [sendMessage] does nothing on a blank input.  Otherwise it keeps
    the earlier messages, appends the user message and at most one
    assistant message, ends with [loading] off and the input empty, leaves
    compact mode on the first message only, does not touch the other flags,
    and on the client records [hadChatInteraction]. *)
Theorem send_message_effect (oracle : Oracle) (response : FetchResult)
    (s : ChatState) :
  (isBlank (userInput s) = true -> sendMessage oracle response s = s)
  /\ (isBlank (userInput s) = false ->
      exists tail,
        messages (sendMessage oracle response s)
        = (messages s
             ++ mkMessage user (userInput s) (Some (nowUser oracle)) :: tail)%list
        /\ (List.length tail <= 1)%nat
        /\ Forall (fun m => role m = assistant) tail
        /\ loading (sendMessage oracle response s) = false
        /\ userInput (sendMessage oracle response s) = ""
        /\ isCompactMode (sendMessage oracle response s)
           = (if (List.length (messages s) =? 0)%nat then false
              else isCompactMode s)
        /\ hasStartedChat (sendMessage oracle response s)
           = (if (List.length (messages s) =? 0)%nat then true
              else hasStartedChat s)
        /\ sameSession s (sendMessage oracle response s)
        /\ (isClient s = true ->
            getItem "hadChatInteraction" (sendMessage oracle response s)
            = Some "true")).
Proof.
  split.
  { intros Hb. unfold Chat.sendMessage. now rewrite Hb. }
  intros Hin.
  destruct (sendMessage_unfold oracle response s Hin)
    as (s0 & -> & Hm & Hl & Hu & Hc & Hh & Ht & Hs & Hsame).
  rewrite exchange_closed.
  destruct (replyOf_shape oracle response) as [Hlen Hrole].
  destruct (withThread_frame response s0) as (W1 & W2 & W3 & W4 & W5 & W6).
  exists (replyOf oracle response).
  cbn [setLoading setMessages messages loading userInput isCompactMode
       hasStartedChat].
  rewrite Hm, <- app_assoc. split; [reflexivity|].
  split; [exact Hlen|]. split; [exact Hrole|]. split; [reflexivity|].
  split; [now rewrite W3|]. split; [now rewrite W4|]. split; [now rewrite W5|].
  split.
  - unfold sameSession in *. cbn.
    destruct Hsame as (A1 & A2 & A3 & A4 & A5).
    destruct W6 as (B1 & B2 & B3 & B4 & B5).
    repeat split; congruence.
  - intros Hcl. unfold getItem. cbn [localStorage setLoading setMessages].
    rewrite Hcl in Hs.
    unfold withThread.
    destruct response as [|[] status [h|] [b|]];
      try (rewrite Hs; apply get_set_same).
    destruct (negb (String.eqb h "") && isClient s0);
      [|rewrite Hs; apply get_set_same].
    cbn [setThreadId setItem setLocalStorage localStorage].
    rewrite Hs, get_set_other by discriminate. apply get_set_same.
Qed.

(** X19.  When the response is OK and its stream ends normally, the
    transcript is the earlier messages, the user message, and the assembled
    text of the stream as one assistant message; when the stream carries no
    delta no assistant message is added, and no fallback either. *)
Theorem completed_send_reply (oracle : Oracle) (s : ChatState) (status : nat)
    (header : option string) (texts : list string) :
  isBlank (userInput s) = false ->
  let whole := String.concat "" texts in
  let userMessage := mkMessage user (userInput s) (Some (nowUser oracle)) in
  messages
    (sendMessage oracle
       (FetchResponse true status header (Some (mkBody texts StreamDone))) s)
  = (messages s ++ userMessage ::
       match streamDeltas whole with
       | [] => []
       | _ :: _ =>
           [mkMessage assistant (assembledText whole)
              (Some (nowAssistant oracle))]
       end)%list.
Proof.
  intros Hin whole userMessage.
  destruct (sendMessage_unfold oracle
              (FetchResponse true status header (Some (mkBody texts StreamDone)))
              s Hin) as (s0 & -> & Hm & _).
  unfold Chat.exchange. cbv zeta. cbn [negb chunks ending setLoading messages].
  rewrite readAll_fresh. cbv zeta. fold whole.
  set (s1 := match header with
             | Some h => if negb (String.eqb h "") && isClient s0
                         then setThreadId (Some h) (setItem "threadId" h s0) else s0
             | None => s0
             end).
  assert (Hs1 : messages s1 = messages s0).
  { subst s1. destruct header as [h|]; [|reflexivity].
    destruct (negb (String.eqb h "") && isClient s0); reflexivity. }
  destruct (streamDeltas whole) as [|d ds].
  - cbn [state]. rewrite Hs1, Hm. reflexivity.
  - unfold streaming. cbn [state messages setMessages].
    rewrite Hs1, Hm, <- app_assoc. reflexivity.
Qed.

(** X20.  A non-empty thread id in the header of an OK response with a body
    is kept, on the client, in the component and under [threadId] in the
    storage, whatever happens to the stream afterwards; in every other case
    [sendMessage] leaves both as they were. *)
Theorem thread_id_remembered (oracle : Oracle) (response : FetchResult)
    (s : ChatState) :
  isBlank (userInput s) = false ->
  match response with
  | FetchResponse true _ (Some header) (Some _) =>
      if negb (String.eqb header "") && isClient s then
        threadId (sendMessage oracle response s) = Some header
        /\ getItem "threadId" (sendMessage oracle response s) = Some header
      else
        threadId (sendMessage oracle response s) = threadId s
        /\ getItem "threadId" (sendMessage oracle response s)
           = getItem "threadId" s
  | _ =>
      threadId (sendMessage oracle response s) = threadId s
      /\ getItem "threadId" (sendMessage oracle response s)
         = getItem "threadId" s
  end.
Proof.
  intros Hin.
  destruct (sendMessage_unfold oracle response s Hin)
    as (s0 & -> & Hm & Hl & Hu & Hc & Hh & Ht & Hs & Hsame).
  rewrite exchange_closed.
  destruct Hsame as (Hcl & _).
  assert (Hkeep : threadId s0 = threadId s
                  /\ StrMap.get "threadId" (localStorage s0) = getItem "threadId" s).
  { split; [exact Ht|]. rewrite Hs. unfold getItem.
    destruct (isClient s); [|reflexivity].
    apply get_set_other. discriminate. }
  unfold getItem.
  cbn [setLoading setMessages threadId localStorage].
  unfold withThread.
  destruct response as [|[] status [h|] [b|]]; try exact Hkeep.
  rewrite Hcl.
  destruct (negb (String.eqb h "") && isClient s); [|exact Hkeep].
  cbn [setThreadId setItem setLocalStorage threadId localStorage].
  split; [reflexivity | apply get_set_same].
Qed.

(** X21.  After a failed exchange in which no text was received, the list
    that [saveMessagesToStorage] writes is the one it wrote before the send:
    neither the fallback reply nor the user message that caused it is
    persisted. *)
Theorem failed_blank_send_not_persisted (oracle : Oracle)
    (response : FetchResult) (s : ChatState) :
  isBlank (userInput s) = false ->
  transportFails response = true ->
  isBlank (receivedText response) = true ->
  messagesToSave (sendMessage oracle response s) = messagesToSave s.
Proof.
  intros Hin Hf Hb.
  rewrite !messagesToSave_persistable.
  destruct (sendMessage_unfold oracle response s Hin) as (s0 & -> & Hm & _).
  destruct (exchange_failure JSON_parse coerceToString oracle response s0 Hf)
    as (reply & E & Hr & Hw & _).
  cbn [setLoading messages]. rewrite E, Hm, <- app_assoc. cbn [app].
  rewrite persistable_app by reflexivity.
  assert (Hfb : isFallback reply = true).
  { unfold isFallback. rewrite Hr, (Hw Hb). cbn [Role_eqb andb].
    apply includes_In, getRandomWittyMessage_In. }
  cbn [persistable role Role_eqb andb]. rewrite Hfb.
  cbn [isFallback role Role_eqb andb]. apply app_nil_r.
Qed.

End SendFacts.

Section Handlers.

Variable parseStored : string -> StoredParse.
Variable JSON_stringify : list ChatMessage -> string.

Local Abbreviation handleStorageChange := (handleStorageChange parseStored).
Local Abbreviation saveMessagesToStorage := (saveMessagesToStorage JSON_stringify).

Lemma handle_chatMessages event s :
  isClient s = true -> eventKey event = Some "chatMessages" ->
  handleStorageChange event s
  = match parseStored (valueOr (newValue event) "[]") with
    | MessageArray newMessages =>
        let s :=
          if hasNewUserMessages (messages s) newMessages then
            setItem "miniChatOpen" "true" (setIsChatOpen true s)
          else s in
        let s := setMessages newMessages s in
        if (0 <? List.length newMessages)%nat then
          setHasStartedChat true (setIsCompactMode false s)
        else
          setHasStartedChat false (setIsCompactMode true s)
    | NotAnArray => s
    | ParseThrows =>
        setHasStartedChat false (setIsCompactMode true (setMessages [] s))
    end.
Proof.
  intros Hc Hk. unfold Chat.handleStorageChange, keyIs. rewrite Hc, Hk.
  reflexivity.
Qed.

(** X22.  On a [chatMessages] storage event the receiving tab ignores a value
    that is no array; on an array, compact mode is on exactly when the
    adopted list is empty and [hasStartedChat] is its negation; on a value
    that does not parse, the list is emptied and compact mode turned on. *)
Theorem storage_messages_keep_mode_in_step (event : StorageEvent)
    (s : ChatState) :
  isClient s = true ->
  eventKey event = Some "chatMessages" ->
  match parseStored (valueOr (newValue event) "[]") with
  | NotAnArray => handleStorageChange event s = s
  | ParseThrows =>
      messages (handleStorageChange event s) = []
      /\ isCompactMode (handleStorageChange event s) = true
      /\ hasStartedChat (handleStorageChange event s) = false
      /\ isChatOpen (handleStorageChange event s) = isChatOpen s
  | MessageArray arrived =>
      isCompactMode (handleStorageChange event s)
      = (List.length (messages (handleStorageChange event s)) =? 0)%nat
      /\ hasStartedChat (handleStorageChange event s)
         = negb (isCompactMode (handleStorageChange event s))
  end.
Proof.
  intros Hc Hk. unfold Chat.handleStorageChange, keyIs. rewrite Hc, Hk.
  cbn [negb String.eqb Ascii.eqb].
  destruct (parseStored (valueOr (newValue event) "[]")) as [| |arrived].
  - repeat split; reflexivity.
  - reflexivity.
  - destruct (hasNewUserMessages (messages s) arrived);
      destruct arrived; cbn; split; reflexivity.
Qed.


(** X24.  With a feedback chosen, [submitFeedback] always ends with the dialog
    closed, the choice cleared and [isEndingChat] off.  When the server
    accepts, the session is reset (no messages, no thread id, compact mode)
    and the storage event for [threadId] resets another tab likewise; when
    the request fails, one notice is appended and the thread id is kept. *)
Theorem submit_feedback_outcome (now : N) (result : ResolveResult)
    (s other : ChatState) :
  feedback s <> None -> isEndingChat s = false ->
  isFalsyText (threadId s) = false ->
  isEndingChat (submitFeedback now result s) = false
  /\ showFeedbackModal (submitFeedback now result s) = false
  /\ feedback (submitFeedback now result s) = None
  /\ match result with
     | ResolveResponse true =>
         messages (submitFeedback now result s) = []
         /\ threadId (submitFeedback now result s) = None
         /\ isCompactMode (submitFeedback now result s) = true
         /\ hasStartedChat (submitFeedback now result s) = false
         /\ getItem "threadId" (submitFeedback now result s) = None
         /\ (isClient other = true ->
             let other' :=
               handleStorageChange
                 (eventFor "threadId" (submitFeedback now result s)) other in
             messages other' = [] /\ threadId other' = None
             /\ isCompactMode other' = true /\ hasStartedChat other' = false)
     | _ =>
         messages (submitFeedback now result s)
         = (messages s ++ [endChatFailure now])%list
         /\ threadId (submitFeedback now result s) = threadId s
         /\ getItem "threadId" (submitFeedback now result s)
            = getItem "threadId" s
     end.
Proof.
  intros Hf He Ht. unfold submitFeedback.
  destruct (feedback s) as [fb|] eqn:Efb; [|congruence].
  rewrite He, Ht. cbn [orb]. cbv zeta.
  split; [reflexivity|]. split; [reflexivity|]. split; [reflexivity|].
  assert (Hgone : getItem "threadId"
            (setFeedback None
               (setShowFeedbackModal false
                  (setIsEndingChat false
                     (setHasStartedChat false
                        (setIsCompactMode true
                           (setMessages []
                              (setThreadId None
                                 (removeItem "chatMessages"
                                    (removeItem "threadId"
                                       (setIsEndingChat true s))))))))))
            = None).
  { unfold getItem, removeItem. cbn [localStorage setLocalStorage
      setFeedback setShowFeedbackModal setIsEndingChat setHasStartedChat
      setIsCompactMode setMessages setThreadId].
    rewrite get_remove_other by discriminate. apply get_remove_same. }
  destruct result as [|[]]; try (repeat split; reflexivity).
  split; [reflexivity|]. split; [reflexivity|]. split; [reflexivity|].
  split; [reflexivity|]. split; [exact Hgone|].
  intros Ho. cbv zeta. unfold Chat.handleStorageChange, keyIs, eventFor.
  rewrite Ho. cbn [negb eventKey newValue String.eqb Ascii.eqb].
  rewrite Hgone. cbn [isFalsyText]. repeat split; reflexivity.
Qed.

(** X25.  [toggleChat] flips [isChatOpen], writes its text under
    [miniChatOpen], and the storage event carries the new value to another
    tab; a second toggle restores the first value; messages are kept. *)
Theorem toggle_chat_mirrored (s other : ChatState) :
  isClient s = true -> isClient other = true ->
  isChatOpen (toggleChat s) = negb (isChatOpen s)
  /\ getItem "miniChatOpen" (toggleChat s) = Some (boolText (negb (isChatOpen s)))
  /\ isChatOpen (handleStorageChange (eventFor "miniChatOpen" (toggleChat s)) other)
     = isChatOpen (toggleChat s)
  /\ isChatOpen (toggleChat (toggleChat s)) = isChatOpen s
  /\ messages (toggleChat s) = messages s.
Proof.
  intros Hc Ho. unfold toggleChat. cbv zeta.
  cbn [isClient setIsChatOpen isChatOpen]. rewrite Hc.
  cbn [isClient setItem setLocalStorage setIsChatOpen isChatOpen localStorage].
  rewrite Hc. cbn [isChatOpen messages].
  split; [reflexivity|].
  assert (Hg : getItem "miniChatOpen"
                 (setItem "miniChatOpen" (boolText (negb (isChatOpen s)))
                    (setIsChatOpen (negb (isChatOpen s)) s))
               = Some (boolText (negb (isChatOpen s)))).
  { unfold getItem, setItem. cbn [localStorage setLocalStorage].
    apply get_set_same. }
  split; [exact Hg|]. split; [|split; [apply negb_involutive | reflexivity]].
  unfold Chat.handleStorageChange, keyIs, eventFor.
  rewrite Ho. cbn [negb eventKey newValue String.eqb Ascii.eqb].
  fold (setItem "miniChatOpen" (boolText (negb (isChatOpen s)))
          (setIsChatOpen (negb (isChatOpen s)) s)).
  fold (getItem "miniChatOpen"
          (setItem "miniChatOpen" (boolText (negb (isChatOpen s)))
             (setIsChatOpen (negb (isChatOpen s)) s))).
  rewrite Hg. destruct (isChatOpen s); reflexivity.
Qed.

(** X26.  When one tab saves its messages and another handles the storage
    event, the other tab shows the list without the fallback messages and
    without the user messages they answer, provided [JSON.parse] reads back
    what [JSON.stringify] wrote; it is in compact mode exactly when that
    list is empty. *)
Theorem saved_messages_reach_other_tab (s other : ChatState) :
  isClient s = true -> isClient other = true ->
  JSON_stringify (messagesToSave s) <> "" ->
  parseStored (JSON_stringify (messagesToSave s))
  = MessageArray (messagesToSave s) ->
  let other' :=
    handleStorageChange (eventFor "chatMessages" (saveMessagesToStorage s))
      other in
  messages other' = persistable (messages s)
  /\ Forall (fun m => isFallback m = false) (messages other')
  /\ isCompactMode other' = (List.length (persistable (messages s)) =? 0)%nat.
Proof.
  intros Hc Ho Hne Hp other'. subst other'.
  assert (Hg : getItem "chatMessages" (saveMessagesToStorage s)
               = Some (JSON_stringify (messagesToSave s))).
  { unfold Chat.saveMessagesToStorage. rewrite Hc. cbn [negb].
    unfold getItem, setItem. cbn [localStorage setLocalStorage].
    apply get_set_same. }
  rewrite handle_chatMessages by (exact Ho || reflexivity).
  unfold eventFor. cbn [newValue]. rewrite Hg. cbn [valueOr].
  destruct (String.eqb_spec (JSON_stringify (messagesToSave s)) "") as [E|_];
    [contradiction|].
  rewrite Hp. cbv zeta. rewrite <- messagesToSave_persistable.
  set (opened := if hasNewUserMessages (messages other) (messagesToSave s)
                 then setItem "miniChatOpen" "true" (setIsChatOpen true other)
                 else other).
  assert (Hm : messages
                 (if (0 <? List.length (messagesToSave s))%nat
                  then setHasStartedChat true
                         (setIsCompactMode false
                            (setMessages (messagesToSave s) opened))
                  else setHasStartedChat false
                         (setIsCompactMode true
                            (setMessages (messagesToSave s) opened)))
               = messagesToSave s)
    by (destruct (messagesToSave s); reflexivity).
  rewrite Hm. split; [reflexivity|]. split.
  - rewrite messagesToSave_persistable. apply persistable_no_fallback.
  - destruct (messagesToSave s); reflexivity.
Qed.

End Handlers.

Section MiniChat.

Variable JSON_parse : string -> option json.
Variable coerceToString : json -> string.

Local Abbreviation exchange := (exchange JSON_parse coerceToString).
Local Abbreviation sendMessage := (sendMessage JSON_parse coerceToString).
Local Abbreviation sendMessageMini := (sendMessageMini JSON_parse coerceToString).
Local Abbreviation replyOf := (replyOf JSON_parse coerceToString).


End MiniChat.

Lemma prefix_firstWord w : String.prefix (firstWord w) w = true.
Proof.
  induction w as [|c w IH]; [reflexivity|].
  cbn [firstWord]. destruct (Ascii.eqb c " "); [reflexivity|].
  cbn [String.prefix]. destruct (ascii_dec c c); [exact IH | congruence].
Qed.

Lemma includesText_prefix s sub : String.prefix sub s = true -> includesText s sub = true.
Proof. intros H. destruct s; cbn [includesText]; now rewrite H. Qed.

Lemma isFallback_isWittyMini m : isFallback m = true -> isWittyMini m = true.
Proof.
  unfold isFallback, isWittyMini. intros H.
  apply andb_true_iff in H as [Hr Hi]. rewrite Hr. cbn [andb].
  unfold includes in Hi. apply existsb_exists in Hi as (w & Hw & E).
  apply String.eqb_eq in E. apply existsb_exists. exists w. split; [exact Hw|].
  rewrite E. apply includesText_prefix, prefix_firstWord.
Qed.

Lemma filterIndexed_In {A} (keep : A -> nat -> bool) l : forall start x,
  In x (filterIndexed keep start l) <->
  exists i, nth_error l i = Some x /\ keep x (start + i)%nat = true.
Proof.
  induction l as [|y l IH]; intros start x; cbn [filterIndexed].
  - split; [intros [] | intros ([|i] & H & _); discriminate].
  - split.
    + intros H. destruct (keep y start) eqn:K.
      * destruct H as [<-|H].
        -- exists 0%nat. rewrite Nat.add_0_r. auto.
        -- apply IH in H as (i & Hi & Hk). exists (S i).
           rewrite Nat.add_succ_r. auto.
      * apply IH in H as (i & Hi & Hk). exists (S i).
        rewrite Nat.add_succ_r. auto.
    + intros ([|i] & Hi & Hk).
      * injection Hi as ->. rewrite Nat.add_0_r in Hk. rewrite Hk. now left.
      * cbn [nth_error] in Hi. rewrite Nat.add_succ_r in Hk.
        assert (In x (filterIndexed keep (S start) l))
          by (apply IH; exists i; auto).
        destruct (keep y start); [now right | assumption].
Qed.

Lemma keepMini_keeps s m i :
  keepMini s m i = true -> isWittyMessage s m i = false.
Proof.
  unfold keepMini, isWittyMessage. intros H.
  destruct (isWittyMini m) eqn:Wm; [discriminate|].
  destruct (Role_eqb (role m) assistant && includes WITTY_MESSAGES (content m)) eqn:F.
  { apply isFallback_isWittyMini in F. congruence. }
  destruct (Role_eqb (role m) user && (i <? List.length (messages s) - 1)%nat);
    [|reflexivity].
  destruct (nth_error (messages s) (i + 1)) as [next|]; [|reflexivity].
  destruct (Role_eqb (role next) assistant && includes WITTY_MESSAGES (content next)) eqn:Fn;
    [|reflexivity].
  apply isFallback_isWittyMini in Fn. rewrite Fn in H. discriminate.
Qed.

(** X28.  The filter of the mini chat looks for the first word of each
    fallback message anywhere in an assistant message.  It keeps only
    messages that the main chat keeps, keeps no fallback message, and drops
    every assistant message that holds one of the words Oh, Oops!, Looks or
    Advocado. *)
Theorem mini_filter_drops_more (s : ChatState) :
  map firstWord WITTY_MESSAGES
  = ["Oh"; "Oops!"; "Looks"; "Advocado"; "Advocado"; "Looks"; "Advocado";
     "Looks"; "Advocado"; "Looks"]
  /\ (forall m, In m (messagesToSaveMini s) -> In m (messagesToSave s))
  /\ Forall (fun m => isFallback m = false) (messagesToSaveMini s)
  /\ (forall m word,
        role m = assistant -> In word (map firstWord WITTY_MESSAGES) ->
        includesText (content m) word = true ->
        ~ In m (messagesToSaveMini s)).
Proof.
  split; [reflexivity|]. split; [|split].
  - intros m H. unfold messagesToSaveMini in H. unfold messagesToSave.
    apply filterIndexed_In in H as (i & Hi & Hk).
    apply filterIndexed_In. exists i. split; [exact Hi|].
    apply keepMini_keeps in Hk. now rewrite Hk.
  - apply Forall_forall. intros m H. unfold messagesToSaveMini in H.
    apply filterIndexed_In in H as (i & Hi & Hk).
    destruct (isFallback m) eqn:F; [|reflexivity].
    apply isFallback_isWittyMini in F. unfold keepMini in Hk.
    rewrite F in Hk. discriminate.
  - intros m word Hr Hw Hinc H. unfold messagesToSaveMini in H.
    apply filterIndexed_In in H as (i & Hi & Hk).
    assert (W : isWittyMini m = true).
    { unfold isWittyMini. rewrite Hr. cbn [Role_eqb andb].
      apply in_map_iff in Hw as (w & <- & Hw).
      apply existsb_exists. now exists w. }
    unfold keepMini in Hk. rewrite W in Hk. discriminate.
Qed.

Section MoreSamples.

Lemma completed_send_reply_witness :
  isBlank (userInput sampleState) = false
  /\ messages
       (sendMessage sampleParse sampleCoerce sampleOracle
          (FetchResponse true 200 (Some "thread-1")
             (Some (mkBody sampleChunks StreamDone)))
          sampleState)
     = (messages sampleState
          ++ mkMessage user (userInput sampleState) (Some (nowUser sampleOracle))
             :: match streamDeltas sampleParse sampleCoerce
                        (String.concat "" sampleChunks) with
                | [] => []
                | _ :: _ =>
                    [mkMessage assistant
                       (assembledText sampleParse sampleCoerce
                          (String.concat "" sampleChunks))
                       (Some (nowAssistant sampleOracle))]
                end)%list.
Proof.
  split; [reflexivity|].
  exact (completed_send_reply sampleParse sampleCoerce sampleOracle sampleState
           200 (Some "thread-1") sampleChunks eq_refl).
Defined.

Lemma thread_id_remembered_witness :
  isBlank (userInput sampleState) = false
  /\ threadId
       (sendMessage sampleParse sampleCoerce sampleOracle
          (FetchResponse true 200 (Some "thread-1")
             (Some (mkBody sampleChunks StreamError)))
          sampleState)
     = Some "thread-1"
  /\ getItem "threadId"
       (sendMessage sampleParse sampleCoerce sampleOracle
          (FetchResponse true 200 (Some "thread-1")
             (Some (mkBody sampleChunks StreamError)))
          sampleState)
     = Some "thread-1".
Proof.
  split; [reflexivity|].
  exact (thread_id_remembered sampleParse sampleCoerce sampleOracle
           (FetchResponse true 200 (Some "thread-1")
              (Some (mkBody sampleChunks StreamError)))
           sampleState eq_refl).
Defined.

Lemma failed_blank_send_not_persisted_witness :
  (isBlank (userInput sampleState) = false
   /\ transportFails FetchRejected = true
   /\ isBlank (receivedText sampleParse sampleCoerce FetchRejected) = true)
  /\ messagesToSave
       (sendMessage sampleParse sampleCoerce sampleOracle FetchRejected sampleState)
     = messagesToSave sampleState.
Proof.
  split; [repeat split; reflexivity|].
  exact (failed_blank_send_not_persisted sampleParse sampleCoerce sampleOracle
           FetchRejected sampleState eq_refl eq_refl eq_refl).
Defined.

Lemma storage_messages_keep_mode_in_step_witness :
  (isClient sampleReceiver = true
   /\ eventKey sampleEvent = Some "chatMessages")
  /\ isCompactMode (handleStorageChange sampleParseStored sampleEvent sampleReceiver)
     = (List.length
          (messages (handleStorageChange sampleParseStored sampleEvent sampleReceiver))
        =? 0)%nat
  /\ hasStartedChat (handleStorageChange sampleParseStored sampleEvent sampleReceiver)
     = negb (isCompactMode
               (handleStorageChange sampleParseStored sampleEvent sampleReceiver)).
Proof.
  split; [split; reflexivity|].
  exact (storage_messages_keep_mode_in_step sampleParseStored sampleEvent
           sampleReceiver eq_refl eq_refl).
Defined.

Lemma submit_feedback_outcome_witness :
  (feedback sampleEnding <> None /\ isEndingChat sampleEnding = false
   /\ isFalsyText (threadId sampleEnding) = false)
  /\ isEndingChat (submitFeedback 2000 (ResolveResponse true) sampleEnding) = false
  /\ showFeedbackModal (submitFeedback 2000 (ResolveResponse true) sampleEnding)
     = false
  /\ feedback (submitFeedback 2000 (ResolveResponse true) sampleEnding) = None
  /\ messages (submitFeedback 2000 (ResolveResponse true) sampleEnding) = []
  /\ threadId (submitFeedback 2000 (ResolveResponse true) sampleEnding) = None
  /\ isCompactMode (submitFeedback 2000 (ResolveResponse true) sampleEnding) = true
  /\ hasStartedChat (submitFeedback 2000 (ResolveResponse true) sampleEnding)
     = false
  /\ getItem "threadId" (submitFeedback 2000 (ResolveResponse true) sampleEnding)
     = None
  /\ (isClient sampleSender = true ->
      let other' :=
        handleStorageChange sampleParseStored
          (eventFor "threadId"
             (submitFeedback 2000 (ResolveResponse true) sampleEnding))
          sampleSender in
      messages other' = [] /\ threadId other' = None
      /\ isCompactMode other' = true /\ hasStartedChat other' = false).
Proof.
  assert (Hf : feedback sampleEnding <> None) by discriminate.
  split; [split; [exact Hf | split; reflexivity]|].
  exact (submit_feedback_outcome sampleParseStored 2000 (ResolveResponse true)
           sampleEnding sampleSender Hf eq_refl eq_refl).
Defined.

Lemma toggle_chat_mirrored_witness :
  (isClient sampleState = true /\ isClient sampleReceiver = true)
  /\ isChatOpen (toggleChat sampleState) = negb (isChatOpen sampleState)
  /\ getItem "miniChatOpen" (toggleChat sampleState)
     = Some (boolText (negb (isChatOpen sampleState)))
  /\ isChatOpen
       (handleStorageChange sampleParseStored
          (eventFor "miniChatOpen" (toggleChat sampleState)) sampleReceiver)
     = isChatOpen (toggleChat sampleState)
  /\ isChatOpen (toggleChat (toggleChat sampleState)) = isChatOpen sampleState
  /\ messages (toggleChat sampleState) = messages sampleState.
Proof.
  split; [split; reflexivity|].
  exact (toggle_chat_mirrored sampleParseStored sampleState sampleReceiver
           eq_refl eq_refl).
Defined.

Lemma saved_messages_reach_other_tab_witness :
  (isClient sampleSender = true /\ isClient sampleReceiver = true
   /\ sampleStringify (messagesToSave sampleSender) <> ""
   /\ sampleParseStored (sampleStringify (messagesToSave sampleSender))
      = MessageArray (messagesToSave sampleSender))
  /\ messages
       (handleStorageChange sampleParseStored
          (eventFor "chatMessages"
             (saveMessagesToStorage sampleStringify sampleSender))
          sampleReceiver)
     = persistable (messages sampleSender)
  /\ Forall (fun m => isFallback m = false)
       (messages
          (handleStorageChange sampleParseStored
             (eventFor "chatMessages"
                (saveMessagesToStorage sampleStringify sampleSender))
             sampleReceiver))
  /\ isCompactMode
       (handleStorageChange sampleParseStored
          (eventFor "chatMessages"
             (saveMessagesToStorage sampleStringify sampleSender))
          sampleReceiver)
     = (List.length (persistable (messages sampleSender)) =? 0)%nat.
Proof.
  assert (Hne : sampleStringify (messagesToSave sampleSender) <> "")
    by discriminate.
  split; [split; [reflexivity | split; [reflexivity | split; [exact Hne | reflexivity]]]|].
  exact (saved_messages_reach_other_tab sampleParseStored sampleStringify
           sampleSender sampleReceiver eq_refl eq_refl Hne eq_refl).
Defined.

End MoreSamples.

End ChatTheory.
